(** * cTrader connection pool and data mapper: a shallow embedding

    Source files modelled:
    - [src/services/ctrader/services/ctrader_connection_pool.py]
      ([CTraderConnectionWrapper], [CTraderConnectionPool])
    - [src/services/ctrader/services/ctrader_data_mapper.py]
      ([CTraderDataMapper])

    Conventions.
    - [datetime] values are integers counting microseconds; a [timedelta]
      of [n] seconds is [n * 1000000].  Every evaluation of
      [datetime.now()] reads the next value of a clock oracle.
    - Python [float] payloads that are passed on or compared (prices,
      balances) are carried as rationals; the volume of an order, of
      which the code takes [int(volume * 100)], is a binary64 float.
    - A Python [dict] whose iteration order is observable is an
      insertion-ordered association list ([od_get], [od_set], [od_del]);
      the [defaultdict(int)] of counters is a [gmap string Z] read with
      default [0].
    - [async]/[await] is sequential composition: a method runs to its end
      before the next begins.  [get_connection] is also given in two
      parts, split where it awaits the connect, to run calls that
      overlap.
    - Exceptions are values of [exn]; only subclasses of [Exception] are
      modelled.  State changes made before a [raise] persist.
    - Every awaited call into the vendor SDK appends the request to
      [trace] and takes its outcome from the oracle [vendor].  The code
      of the SDK that [connect] runs without awaiting it (the
      construction of the client, [set_access_token], the construction
      of the authorisation request) takes its outcome from the oracle
      [sdk], one reading per connect attempt; the constructors of the
      other request objects are protobuf messages and are taken not to
      raise.
    - An attribute that an object may lack, and a dictionary key that may
      be absent or bound to [None], are given as such ([option],
      [Entry]); reading what is missing raises as in Python.
    - [datetime.fromtimestamp] takes its outcome from the oracle
      [fromtimestamp], for its range depends on the platform.
    - Calls to [logger] have no effect on the modelled state. *)

From Stdlib Require Import ZArith QArith Lia.
From Stdlib Require Import DecimalString.
From Stdlib Require Import PrimFloat SpecFloat FloatOps.
From stdpp Require Import base option list strings gmap.

Local Open Scope Z_scope.

(** ** Python values used as dictionary keys *)

Inductive PyVal :=
| PInt (z : Z)
| PStr (s : string).

#[global] Instance PyVal_eq_dec : EqDecision PyVal.
Proof. solve_decision. Defined.

(** [str(n)] for an [int]. *)
Definition str_Z (z : Z) : string := NilZero.string_of_int (Z.to_int z).

(** [int(s)] for a [str]: [None] stands for [ValueError].  Decimal digits
    after an optional minus sign; a plus sign, surrounding blanks and
    digit separators, which Python also accepts, are not recognised. *)
Definition int_of_str (s : string) : option Z :=
  match NilZero.int_of_string s with
  | Some d => Some (Z.of_int d)
  | None => None
  end.

(** [sub in s] for two strings. *)
Fixpoint str_contains (sub s : string) : bool :=
  if String.prefix sub s then true
  else match s with
       | EmptyString => false
       | String _ s' => str_contains sub s'
       end.

(** ** Insertion-ordered dictionaries *)

Section odict.
Context {K V : Type} `{EqDecision K}.

Fixpoint od_get (k : K) (d : list (K * V)) : option V :=
  match d with
  | [] => None
  | (k', v) :: d' => if decide (k = k') then Some v else od_get k d'
  end.

Definition od_mem (k : K) (d : list (K * V)) : bool :=
  match od_get k d with Some _ => true | None => false end.

(** [d[k] = v]: an existing key keeps its position, a new key goes last. *)
Fixpoint od_set (k : K) (v : V) (d : list (K * V)) : list (K * V) :=
  match d with
  | [] => [(k, v)]
  | (k', v') :: d' =>
      if decide (k = k') then (k, v) :: d' else (k', v') :: od_set k v d'
  end.

(** [del d[k]] *)
Fixpoint od_del (k : K) (d : list (K * V)) : list (K * V) :=
  match d with
  | [] => []
  | (k', v') :: d' =>
      if decide (k = k') then od_del k d' else (k', v') :: od_del k d'
  end.

Definition od_keys (d : list (K * V)) : list K := map fst d.
Definition od_values (d : list (K * V)) : list V := map snd d.

(** [{key x: x for x in xs}] *)
Definition od_of_list (key : V -> K) (xs : list V) : list (K * V) :=
  fold_left (fun d x => od_set (key x) x d) xs [].
End odict.

(** ** Exceptions *)

Inductive exn :=
| ValueError (msg : string)
| KeyError (key : string)
| AttributeError (msg : string)
| NameError (name : string)
| TypeError (msg : string)
| OverflowError (msg : string)
| OSError (msg : string)
| ZeroDivisionError
| VendorError (msg : string).

(** [str(e)] *)
Definition str_exn (e : exn) : string :=
  match e with
  | ValueError msg => msg
  | KeyError key => "'" +:+ key +:+ "'"
  | AttributeError msg => msg
  | NameError name => "name '" +:+ name +:+ "' is not defined"
  | TypeError msg => msg
  | OverflowError msg => msg
  | OSError msg => msg
  | ZeroDivisionError => "division by zero"
  | VendorError msg => msg
  end.

Inductive Res (A : Type) :=
| Ok (a : A)
| Raise (e : exn).
Arguments Ok {A} a.
Arguments Raise {A} e.

(** ** Python numbers and dictionary entries *)

(** An [int] or a [float]; a float is a binary64 number with the
    arithmetic of the processor. *)
Inductive Num :=
| NInt (z : Z)
| NFloat (f : float).

(** [x * 100] *)
Definition mul_100 (x : Num) : Num :=
  match x with
  | NInt z => NInt (z * 100)
  | NFloat f => NFloat (PrimFloat.mul f 100)
  end.

(** [int(x)]: a float is truncated towards zero; the infinities and NaN
    have no integer. *)
Definition py_int (x : Num) : Res Z :=
  match x with
  | NInt z => Ok z
  | NFloat f =>
      match Prim2SF f with
      | S754_zero _ => Ok 0
      | S754_infinity _ =>
          Raise (OverflowError "cannot convert float infinity to integer")
      | S754_nan => Raise (ValueError "cannot convert float NaN to integer")
      | S754_finite s m e =>
          let magnitude :=
            if 0 <=? e then Z.pos m * 2 ^ e else Z.pos m / 2 ^ (- e) in
          Ok (if s then - magnitude else magnitude)
      end
  end.

(** An entry of a dictionary whose keys are optional: the key is absent,
    bound to [None], or bound to a value of the expected type. *)
Inductive Entry (A : Type) :=
| Absent
| IsNone
| Bound (a : A).
Arguments Absent {A}.
Arguments IsNone {A}.
Arguments Bound {A} a.

(** [d.get(key, dflt)]; the result [None] is Python's [None]. *)
Definition entry_get {A} (e : Entry A) (dflt : A) : option A :=
  match e with
  | Absent => Some dflt
  | IsNone => None
  | Bound a => Some a
  end.

(** [d.get(key)] *)
Definition entry_value {A} (e : Entry A) : option A :=
  match e with
  | Bound a => Some a
  | _ => None
  end.

(** [d[key] = v] for a value that may be [None] *)
Definition entry_of {A} (v : option A) : Entry A :=
  match v with
  | Some a => Bound a
  | None => IsNone
  end.

(** ** Vendor messages *)

Record Position := {
  positionId : Z;
  pos_symbolId : Z;
  pos_volume : Z
}.

Record Order := {
  orderId : Z;
  ord_symbolId : Z;
  ord_volume : Z
}.

(** The object found under [executionEvent].  An attribute is [None]
    when the object does not have it, so that reading it raises
    [AttributeError]; [ev_position] is [Some None] for a value that
    counts as false. *)
Record ExecutionEvent := {
  ev_orderId : option Z;
  ev_position : option (option Position);
  ev_executedVolume : option Z;
  ev_executionPrice : option Q
}.

(** A response message.  The repeated fields [position] and [order] are
    empty on a message that does not carry them; [executionEvent] is
    [None] on a message that has no such attribute. *)
Record Response := {
  position : list Position;
  order : list Order;
  executionEvent : option ExecutionEvent
}.

Record NewOrderReq := {
  req_ctidTraderAccountId : Z;
  req_symbolId : PyVal;
  req_orderType : Z;
  req_tradeSide : string;
  req_volume : Z;
  req_stopLoss : option Q;
  req_takeProfit : option Q;
  req_comment : option string
}.
(* [req_stopLoss] and [req_takeProfit] are [None] when the field is not
   assigned; [req_comment] is the value assigned, [None] being Python's
   [None]. *)

Inductive VendorReq :=
| VConnect (live : bool)
| VDisconnect
| VAuth (ctid : Z) (token : string)
| VAccounts
| VReconcile (ctid : Z)
| VNewOrder (r : NewOrderReq)
| VAmend (ctid pid : Z) (sl tp : option Q)
| VClose (ctid pid : Z).

Inductive VendorReply :=
| VRaise (msg : string)
| VOk (r : Response).

(** ** Symbol mapping *)

(** One entry of [symbolMapping] in [config/symbols.json], or one entry of
    the reverse mapping: a JSON object with scalar values. *)
Definition SymbolEntry := list (string * PyVal).

Record CTraderDataMapper := {
  symbol_mapping : list (string * SymbolEntry);
  reverse_symbol_mapping : list (PyVal * SymbolEntry)
}.

(** ** Session wrapper and pool state *)

(** The SDK client of a wrapper: the host it was made for, and the token
    given to [set_access_token], if that call was reached. *)
Record Client := {
  cl_live : bool;
  cl_access_token : option string
}.

Record AccountInfo := {
  ai_accountId : string;
  ai_balance : Q;
  ai_equity : Q;
  ai_margin : Q;
  ai_freeMargin : Q;
  ai_currency : string;
  ai_leverage : Z;
  ai_environment : string
}.

(** [CTraderConnectionWrapper].  [oid] is the identity of the Python
    object.  [ctid_account_id] is an attribute that the class never
    assigns: [None] means the attribute does not exist, and reading it
    raises [AttributeError]. *)
Record Session := {
  oid : nat;
  account_id : string;
  environment : string;
  client : option Client;
  is_connected : bool;
  last_used : Z;
  connection_count : Z;
  error_count : Z;
  positions_cache : list (PyVal * Position);
  orders_cache : list (PyVal * Order);
  account_info_cache : option AccountInfo;
  cache_timestamp : option Z;
  ctid_account_id : option Z
}.

(** A mock position is a dictionary; only its ['id'] entry is read. *)
Definition MockPosition := list (string * PyVal).

(** [CTraderConnectionPool] *)
Record Pool := {
  connections : list (string * Session);
  max_connections : Z;
  idle_timeout : Z;
  stats : gmap string Z;
  data_mapper : CTraderDataMapper;
  _mock_positions : gmap string (list MockPosition)
}.

(** What the code of [connect] that is not awaited can do: the reading of
    [EndPoints], the constructor call [Client(...)], [set_access_token],
    and the building of the authorisation request each may raise, before
    or between the two awaited requests. *)
Inductive SdkFault :=
| ClientFault (msg : string)
| TokenFault (msg : string)
| AuthReqFault (msg : string).

(** The pool together with what surrounds it: the module constant
    [HAS_CTRADER_API], the clock, the vendor, the object allocator, and
    the outcome [sdk n] of the synchronous SDK code of the [n]-th connect
    attempt ([None]: it does not raise), and what
    [datetime.fromtimestamp(ms / 1000)] does on the platform
    ([fromtimestamp ms] is [None] when it returns, and the exception that
    it raises for a timestamp outside the platform's range). *)
Record World := {
  pool : Pool;
  HAS_CTRADER_API : bool;
  clock : nat -> Z;
  ticks : nat;
  vendor : nat -> VendorReply;
  trace : list VendorReq;
  next_oid : nat;
  sdk : nat -> option SdkFault;
  sdk_calls : nat;
  fromtimestamp : Z -> option exn
}.

(** *** Field updates *)

Definition with_pool (p : Pool) (w : World) : World :=
  {| pool := p; HAS_CTRADER_API := HAS_CTRADER_API w; clock := clock w;
     ticks := ticks w; vendor := vendor w; trace := trace w;
     next_oid := next_oid w; sdk := sdk w;
        sdk_calls := sdk_calls w; fromtimestamp := fromtimestamp w |}.

Definition with_connections (c : list (string * Session)) (p : Pool) : Pool :=
  {| connections := c; max_connections := max_connections p;
     idle_timeout := idle_timeout p; stats := stats p;
     data_mapper := data_mapper p; _mock_positions := _mock_positions p |}.

Definition with_stats (s : gmap string Z) (p : Pool) : Pool :=
  {| connections := connections p; max_connections := max_connections p;
     idle_timeout := idle_timeout p; stats := s;
     data_mapper := data_mapper p; _mock_positions := _mock_positions p |}.

Definition with_mock_positions (m : gmap string (list MockPosition)) (p : Pool) : Pool :=
  {| connections := connections p; max_connections := max_connections p;
     idle_timeout := idle_timeout p; stats := stats p;
     data_mapper := data_mapper p; _mock_positions := m |}.

Definition set_client (c : option Client) (s : Session) : Session :=
  {| oid := oid s; account_id := account_id s; environment := environment s;
     client := c; is_connected := is_connected s; last_used := last_used s;
     connection_count := connection_count s; error_count := error_count s;
     positions_cache := positions_cache s; orders_cache := orders_cache s;
     account_info_cache := account_info_cache s;
     cache_timestamp := cache_timestamp s;
     ctid_account_id := ctid_account_id s |}.

Definition set_is_connected (b : bool) (s : Session) : Session :=
  {| oid := oid s; account_id := account_id s; environment := environment s;
     client := client s; is_connected := b; last_used := last_used s;
     connection_count := connection_count s; error_count := error_count s;
     positions_cache := positions_cache s; orders_cache := orders_cache s;
     account_info_cache := account_info_cache s;
     cache_timestamp := cache_timestamp s;
     ctid_account_id := ctid_account_id s |}.

Definition set_last_used (t : Z) (s : Session) : Session :=
  {| oid := oid s; account_id := account_id s; environment := environment s;
     client := client s; is_connected := is_connected s; last_used := t;
     connection_count := connection_count s; error_count := error_count s;
     positions_cache := positions_cache s; orders_cache := orders_cache s;
     account_info_cache := account_info_cache s;
     cache_timestamp := cache_timestamp s;
     ctid_account_id := ctid_account_id s |}.

Definition set_connection_count (n : Z) (s : Session) : Session :=
  {| oid := oid s; account_id := account_id s; environment := environment s;
     client := client s; is_connected := is_connected s;
     last_used := last_used s;
     connection_count := n; error_count := error_count s;
     positions_cache := positions_cache s; orders_cache := orders_cache s;
     account_info_cache := account_info_cache s;
     cache_timestamp := cache_timestamp s;
     ctid_account_id := ctid_account_id s |}.

Definition set_error_count (n : Z) (s : Session) : Session :=
  {| oid := oid s; account_id := account_id s; environment := environment s;
     client := client s; is_connected := is_connected s;
     last_used := last_used s;
     connection_count := connection_count s; error_count := n;
     positions_cache := positions_cache s; orders_cache := orders_cache s;
     account_info_cache := account_info_cache s;
     cache_timestamp := cache_timestamp s;
     ctid_account_id := ctid_account_id s |}.

Definition set_positions_cache (c : list (PyVal * Position)) (s : Session) : Session :=
  {| oid := oid s; account_id := account_id s; environment := environment s;
     client := client s; is_connected := is_connected s;
     last_used := last_used s;
     connection_count := connection_count s; error_count := error_count s;
     positions_cache := c; orders_cache := orders_cache s;
     account_info_cache := account_info_cache s;
     cache_timestamp := cache_timestamp s;
     ctid_account_id := ctid_account_id s |}.

Definition set_orders_cache (c : list (PyVal * Order)) (s : Session) : Session :=
  {| oid := oid s; account_id := account_id s; environment := environment s;
     client := client s; is_connected := is_connected s;
     last_used := last_used s;
     connection_count := connection_count s; error_count := error_count s;
     positions_cache := positions_cache s; orders_cache := c;
     account_info_cache := account_info_cache s;
     cache_timestamp := cache_timestamp s;
     ctid_account_id := ctid_account_id s |}.

Definition set_cache_timestamp (t : option Z) (s : Session) : Session :=
  {| oid := oid s; account_id := account_id s; environment := environment s;
     client := client s; is_connected := is_connected s;
     last_used := last_used s;
     connection_count := connection_count s; error_count := error_count s;
     positions_cache := positions_cache s; orders_cache := orders_cache s;
     account_info_cache := account_info_cache s;
     cache_timestamp := t;
     ctid_account_id := ctid_account_id s |}.

(** ** The monad of pool operations *)

Definition M (A : Type) : Type := World -> Res A * World.

Definition ret {A} (a : A) : M A := fun w => (Ok a, w).

Definition bind {A B} (m : M A) (f : A -> M B) : M B :=
  fun w =>
    match m w with
    | (Ok a, w') => f a w'
    | (Raise e, w') => (Raise e, w')
    end.

Definition raise {A} (e : exn) : M A := fun w => (Raise e, w).

(** [try: body  except Exception as e: handler e] *)
Definition try_except {A} (body : M A) (handler : exn -> M A) : M A :=
  fun w =>
    match body w with
    | (Ok a, w') => (Ok a, w')
    | (Raise e, w') => handler e w'
    end.

Declare Scope pool_scope.
Delimit Scope pool_scope with pool.
Notation "x <- m ;; k" := (bind m (fun x => k))
  (at level 100, m at next level, right associativity) : pool_scope.
Notation "m ;;; k" := (bind m (fun _ => k))
  (at level 100, right associativity) : pool_scope.
Local Open Scope pool_scope.

Definition get_pool : M Pool := fun w => (Ok (pool w), w).

Definition modify_pool (f : Pool -> Pool) : M unit :=
  fun w => (Ok tt, with_pool (f (pool w)) w).

Definition has_api : M bool := fun w => (Ok (HAS_CTRADER_API w), w).

(** [datetime.now()] *)
Definition now : M Z :=
  fun w =>
    (Ok (clock w (ticks w)),
     {| pool := pool w; HAS_CTRADER_API := HAS_CTRADER_API w; clock := clock w;
        ticks := S (ticks w); vendor := vendor w; trace := trace w;
        next_oid := next_oid w; sdk := sdk w;
        sdk_calls := sdk_calls w; fromtimestamp := fromtimestamp w |}).

(** An awaited call into the vendor SDK. *)
Definition vendor_call (r : VendorReq) : M Response :=
  fun w =>
    let w' := {| pool := pool w; HAS_CTRADER_API := HAS_CTRADER_API w;
                 clock := clock w; ticks := ticks w; vendor := vendor w;
                 trace := r :: trace w; next_oid := next_oid w; sdk := sdk w;
        sdk_calls := sdk_calls w; fromtimestamp := fromtimestamp w |} in
    match vendor w (length (trace w)) with
    | VOk resp => (Ok resp, w')
    | VRaise msg => (Raise (VendorError msg), w')
    end.

(** Allocation of a Python object. *)
Definition fresh_oid : M nat :=
  fun w =>
    (Ok (next_oid w),
     {| pool := pool w; HAS_CTRADER_API := HAS_CTRADER_API w; clock := clock w;
        ticks := ticks w; vendor := vendor w; trace := trace w;
        next_oid := S (next_oid w); sdk := sdk w;
        sdk_calls := sdk_calls w; fromtimestamp := fromtimestamp w |}).

(** The value that the [defaultdict(int)] of counters gives for [k]. *)
Definition stat_get (s : gmap string Z) (k : string) : Z := default 0 (s !! k).

(** [s[k] += 1] *)
Definition bump (k : string) (s : gmap string Z) : gmap string Z :=
  <[k := stat_get s k + 1]> s.

(** [self.stats[k] += 1] *)
Definition stat_incr (k : string) : M unit :=
  modify_pool (fun p => with_stats (bump k (stats p)) p).

(** ** CTraderConnectionWrapper *)

(** [CTraderConnectionWrapper.__init__] *)
Definition new_wrapper (account environment : string) : M Session :=
  o <- fresh_oid ;;
  t <- now ;;
  ret {| oid := o; account_id := account; environment := environment;
         client := None; is_connected := false; last_used := t;
         connection_count := 0; error_count := 0;
         positions_cache := []; orders_cache := [];
         account_info_cache := None; cache_timestamp := None;
         ctid_account_id := None |}.

(** The synchronous SDK code of one connect attempt: its outcome is
    read off [sdk], and the attempt is counted. *)
Definition sdk_step : World -> option SdkFault * World :=
  fun w =>
    (sdk w (sdk_calls w),
     {| pool := pool w; HAS_CTRADER_API := HAS_CTRADER_API w; clock := clock w;
        ticks := ticks w; vendor := vendor w; trace := trace w;
        next_oid := next_oid w; sdk := sdk w; sdk_calls := S (sdk_calls w);
        fromtimestamp := fromtimestamp w |}).

(** The [except Exception] clause of [connect]. *)
Definition connect_failed (self : Session) : Session :=
  set_is_connected false (set_error_count (error_count self + 1) self).

(** [CTraderConnectionWrapper.connect].  The method mutates [self] also
    when it raises, so the object is returned next to the outcome.  An
    exception of the SDK, awaited or not, is a [VendorError]. *)
Definition connect (self : Session) (access_token : string) (ctid : Z)
  : World -> (Session * Res bool) * World :=
  fun w =>
    if negb (HAS_CTRADER_API w) then
      ((set_is_connected true self, Ok true), w)
    else
      let live := String.eqb (environment self) "live" in
      let self0 := set_client (Some {| cl_live := live; cl_access_token := None |}) self in
      let self1 :=
        set_client (Some {| cl_live := live; cl_access_token := Some access_token |})
          self in
      let (fault, w0) := sdk_step w in
      match fault with
      | Some (ClientFault msg) => ((connect_failed self, Raise (VendorError msg)), w0)
      | Some (TokenFault msg) => ((connect_failed self0, Raise (VendorError msg)), w0)
      | _ =>
          match vendor_call (VConnect live) w0 with
          | (Raise e, w1) => ((connect_failed self1, Raise e), w1)
          | (Ok _, w1) =>
              match fault with
              | Some (AuthReqFault msg) =>
                  ((connect_failed self1, Raise (VendorError msg)), w1)
              | _ =>
                  match vendor_call (VAuth ctid access_token) w1 with
                  | (Raise e, w2) => ((connect_failed self1, Raise e), w2)
                  | (Ok _, w2) =>
                      ((set_connection_count (connection_count self1 + 1)
                          (set_is_connected true self1), Ok true), w2)
                  end
              end
          end
      end.

(** [CTraderConnectionWrapper.disconnect]: never raises. *)
Definition disconnect (self : Session) : World -> Session * World :=
  fun w =>
    match client self with
    | Some _ =>
        if is_connected self then
          match vendor_call VDisconnect w with
          | (Ok _, w1) => (set_is_connected false self, w1)
          | (Raise _, w1) => (self, w1)
          end
        else (set_is_connected false self, w)
    | None => (set_is_connected false self, w)
    end.

(** [CTraderConnectionWrapper.update_last_used] *)
Definition update_last_used (self : Session) : M Session :=
  t <- now ;; ret (set_last_used t self).

(** [CTraderConnectionWrapper.is_cache_valid] *)
Definition is_cache_valid (self : Session) (max_age_seconds : Z) : M bool :=
  match cache_timestamp self with
  | None => ret false
  | Some ts => t <- now ;; ret (t - ts <? max_age_seconds * 1000000)
  end.

(** ** CTraderDataMapper *)

(** What [open] and [json.load] deliver for [config/symbols.json]:
    [None] when either raises, otherwise the value found under
    ['symbolMapping'], if any. *)
Definition ConfigFile := option (option (list (string * SymbolEntry))).

(** The loop of [load_symbol_mapping] that fills the reverse mapping;
    [None] stands for the [KeyError] of [mapping['cTraderId']]. *)
Fixpoint build_reverse (items : list (string * SymbolEntry))
    (rev : list (PyVal * SymbolEntry)) : option (list (PyVal * SymbolEntry)) :=
  match items with
  | [] => Some rev
  | (mt5_symbol, mapping) :: rest =>
      match od_get "cTraderId" mapping with
      | None => None
      | Some ctrader_id =>
          build_reverse rest
            (od_set ctrader_id (od_set "mt5Symbol" (PStr mt5_symbol) mapping) rev)
      end
  end.

(** [CTraderDataMapper.__init__] followed by [load_symbol_mapping] *)
Definition load_symbol_mapping (file : ConfigFile) : CTraderDataMapper :=
  match file with
  | None => {| symbol_mapping := []; reverse_symbol_mapping := [] |}
  | Some config =>
      let mapping := default [] config in
      match build_reverse mapping [] with
      | Some rev => {| symbol_mapping := mapping; reverse_symbol_mapping := rev |}
      | None => {| symbol_mapping := []; reverse_symbol_mapping := [] |}
      end
  end.

(** [CTraderDataMapper.get_symbol_mapping] *)
Definition get_symbol_mapping (self : CTraderDataMapper) (mt5_symbol : string)
  : option SymbolEntry :=
  od_get mt5_symbol (symbol_mapping self).

(** [CTraderDataMapper.get_all_symbols] *)
Definition get_all_symbols (self : CTraderDataMapper) : list string :=
  od_keys (symbol_mapping self).

(** [str(x)] inside an f-string *)
Definition str_PyVal (v : PyVal) : string :=
  match v with
  | PInt z => str_Z z
  | PStr s => s
  end.

(** The translation from a vendor id back to a symbol, as [map_position],
    [map_order], [map_price_data] and [map_execution_event] all do it:
    [symbol_info = self.reverse_symbol_mapping.get(symbol_id, {})] then
    [symbol_info.get('mt5Symbol', f'UNKNOWN_{symbol_id}')]. *)
Definition lookup_mt5_symbol (self : CTraderDataMapper) (symbol_id : PyVal) : PyVal :=
  let symbol_info := default [] (od_get symbol_id (reverse_symbol_mapping self)) in
  default (PStr ("UNKNOWN_" +:+ str_PyVal symbol_id)) (od_get "mt5Symbol" symbol_info).

(** The order dictionary handed to [execute_trade].  The values that are
    not [None] have the types that the API layer gives them: strings,
    numbers for the volume, floats (carried as rationals) for the
    prices. *)
Record TradeData := {
  td_symbol : Entry string;
  td_actionType : Entry string;
  td_volume : Entry Num;
  td_openPrice : Entry Q;
  td_stopLoss : Entry Q;
  td_takeProfit : Entry Q;
  td_comment : Entry string;
  td_clientId : Entry string
}.

(** The dictionary built by [map_order_request].  [co_comment] and
    [co_label] are the values bound, [None] being Python's [None];
    [co_stopLoss] and [co_takeProfit] are [None] when the key is not
    set. *)
Record CTraderOrder := {
  co_symbolId : PyVal;
  co_orderType : Z;
  co_tradeSide : string;
  co_volume : Z;
  co_comment : option string;
  co_label : option string;
  co_limitPrice : Entry Q;
  co_stopPrice : Entry Q;
  co_stopLoss : option Q;
  co_takeProfit : option Q
}.

(** truth value of a float that may be [None] *)
Definition truthy_Q (q : option Q) : bool :=
  match q with
  | Some x => negb (Qeq_bool x 0)
  | None => false
  end.

Definition order_type_map (action_type : string) : Z :=
  if String.eqb action_type "ORDER_TYPE_BUY" then 1
  else if String.eqb action_type "ORDER_TYPE_SELL" then 1
  else if String.eqb action_type "ORDER_TYPE_BUY_LIMIT" then 2
  else if String.eqb action_type "ORDER_TYPE_SELL_LIMIT" then 2
  else if String.eqb action_type "ORDER_TYPE_BUY_STOP" then 3
  else if String.eqb action_type "ORDER_TYPE_SELL_STOP" then 3
  else 1.

(** [self.symbol_mapping.get(metaapi_order['symbol'])]; the keys of the
    table are strings, so [None] is not among them. *)
Definition find_symbol (self : CTraderDataMapper) (symbol : option string)
  : option SymbolEntry :=
  match symbol with
  | Some s => od_get s (symbol_mapping self)
  | None => None
  end.

(** [CTraderDataMapper.map_order_request] *)
Definition map_order_request (self : CTraderDataMapper) (metaapi_order : TradeData)
  : Res CTraderOrder :=
  match td_symbol metaapi_order with
  | Absent => Raise (KeyError "symbol")
  | symbol =>
      match find_symbol self (entry_value symbol) with
      | None | Some [] =>
          Raise (ValueError ("Unknown symbol: " +:+ default "None" (entry_value symbol)))
      | Some entry =>
          match entry_get (td_volume metaapi_order) (NInt 0) with
          | None =>
              Raise (TypeError "unsupported operand type(s) for *: 'NoneType' and 'int'")
          | Some lots =>
              match py_int (mul_100 lots) with
              | Raise e => Raise e
              | Ok volume =>
                  match entry_get (td_actionType metaapi_order) "ORDER_TYPE_BUY" with
                  | None => Raise (TypeError "argument of type 'NoneType' is not iterable")
                  | Some action_type =>
                      let trade_side :=
                        if str_contains "BUY" action_type then "BUY" else "SELL" in
                      match od_get "cTraderId" entry with
                      | None => Raise (KeyError "cTraderId")
                      | Some ctrader_id =>
                          let is_limit := str_contains "LIMIT" action_type in
                          let is_stop := str_contains "STOP" action_type in
                          let open_price :=
                            entry_of (entry_get (td_openPrice metaapi_order) 0%Q) in
                          let stop_loss := entry_value (td_stopLoss metaapi_order) in
                          let take_profit := entry_value (td_takeProfit metaapi_order) in
                          Ok {| co_symbolId := ctrader_id;
                                co_orderType := order_type_map action_type;
                                co_tradeSide := trade_side;
                                co_volume := volume;
                                co_comment := entry_get (td_comment metaapi_order) "";
                                co_label := entry_get (td_clientId metaapi_order) "";
                                co_limitPrice := if is_limit then open_price else Absent;
                                co_stopPrice :=
                                  if is_limit then Absent
                                  else if is_stop then open_price else Absent;
                                co_stopLoss :=
                                  if truthy_Q stop_loss then stop_loss else None;
                                co_takeProfit :=
                                  if truthy_Q take_profit then take_profit else None |}
                      end
                  end
              end
          end
      end
  end.

(** ** CTraderConnectionPool *)

(** [CTraderConnectionPool.__init__]; the mapper is the one built by
    [CTraderDataMapper()]. *)
Definition new_pool (max_conn idle : Z) (mapper : CTraderDataMapper) : Pool :=
  {| connections := []; max_connections := max_conn; idle_timeout := idle;
     stats := ∅; data_mapper := mapper; _mock_positions := ∅ |}.

Definition conn_key (account environment : string) : string :=
  account +:+ "_" +:+ environment.

(** [self.connections[key] = conn], also used for a mutation of the
    object stored under [key]. *)
Definition store_connection (key : string) (conn : Session) : M unit :=
  modify_pool (fun p => with_connections (od_set key conn (connections p)) p).

(** [del self.connections[key]] *)
Definition del_connection (key : string) : M unit :=
  modify_pool (fun p => with_connections (od_del key (connections p)) p).

(** One iteration of the loop of [_remove_oldest_idle_connection] over
    the pair [(oldest_key, oldest_time)]. *)
Definition oldest_step (acc : option string * Z) (item : string * Session)
  : option string * Z :=
  if last_used (snd item) <? snd acc
  then (Some (fst item), last_used (snd item))
  else acc.

Definition find_oldest (t : Z) (conns : list (string * Session)) : option string * Z :=
  fold_left oldest_step conns (None, t).

(** [CTraderConnectionPool._remove_oldest_idle_connection] *)
Definition _remove_oldest_idle_connection : M unit :=
  p <- get_pool ;;
  match connections p with
  | [] => ret tt
  | _ :: _ =>
      t <- now ;;
      match fst (find_oldest t (connections p)) with
      | None => ret tt
      | Some oldest_key =>
          if String.eqb oldest_key "" then ret tt
          else
            match od_get oldest_key (connections p) with
            | None => raise (KeyError oldest_key)
            | Some conn =>
                (fun w => (Ok tt, snd (disconnect conn w))) ;;;
                del_connection oldest_key
            end
      end
  end.

(** truth value of an optional string, of an optional integer *)
Definition truthy_str (s : option string) : bool :=
  match s with
  | Some x => negb (String.eqb x "")
  | None => false
  end.

Definition truthy_int (z : option Z) : bool :=
  match z with
  | Some x => negb (x =? 0)
  | None => false
  end.

(** [await conn.connect(...)] on an object that is dropped when the call
    raises. *)
Definition connect_or_raise (conn : Session) (access_token : string) (ctid : Z)
  : M Session :=
  fun w =>
    match connect conn access_token ctid w with
    | ((conn', Ok _), w') => (Ok conn', w')
    | ((_, Raise e), w') => (Raise e, w')
    end.

(** [get_connection], "Check connection limit" *)
Definition check_limit : M unit :=
  p <- get_pool ;;
  if Z.of_nat (length (connections p)) >=? max_connections p
  then _remove_oldest_idle_connection else ret tt.

(** [get_connection] from "Check connection limit" to the end. *)
Definition create_connection (account environment : string)
    (access_token : option string) (ctid : option Z) : M Session :=
  let key := conn_key account environment in
  check_limit ;;;
  conn <- new_wrapper account environment ;;
  if truthy_str access_token && truthy_int ctid then
    conn' <- connect_or_raise conn (default "" access_token) (default 0 ctid) ;;
    store_connection key conn' ;;;
    stat_incr "connections_created" ;;;
    ret conn'
  else
    let conn' := set_is_connected true conn in
    store_connection key conn' ;;;
    ret conn'.

(** [CTraderConnectionPool.get_connection] *)
Definition get_connection (account environment : string)
    (access_token : option string) (ctid : option Z) : M Session :=
  let key := conn_key account environment in
  p <- get_pool ;;
  match od_get key (connections p) with
  | Some conn =>
      if is_connected conn then
        conn' <- update_last_used conn ;;
        store_connection key conn' ;;;
        stat_incr "connections_reused" ;;;
        ret conn'
      else
        del_connection key ;;;
        create_connection account environment access_token ctid
  | None => create_connection account environment access_token ctid
  end.

(** *** [get_connection] in two parts

    [get_connection] is a coroutine: at [await conn.connect(...)] it can
    be suspended while another call runs.  [Started] is where a call
    stands at that point: it has returned already, or it holds the new
    wrapper and the credentials of the connect that it awaits.  What
    [connect] does before its own first await is counted with the
    resumption. *)
Inductive Started :=
| Returned (conn : Session)
| Connecting (conn : Session) (access_token : string) (ctid : Z).

(** [get_connection] up to the await of [conn.connect] *)
Definition get_connection_start (account environment : string)
    (access_token : option string) (ctid : option Z) : M Started :=
  let key := conn_key account environment in
  let create : M Started :=
    check_limit ;;;
    conn <- new_wrapper account environment ;;
    if truthy_str access_token && truthy_int ctid then
      ret (Connecting conn (default "" access_token) (default 0 ctid))
    else
      let conn' := set_is_connected true conn in
      store_connection key conn' ;;;
      ret (Returned conn') in
  p <- get_pool ;;
  match od_get key (connections p) with
  | Some conn =>
      if is_connected conn then
        conn' <- update_last_used conn ;;
        store_connection key conn' ;;;
        stat_incr "connections_reused" ;;;
        ret (Returned conn')
      else
        del_connection key ;;;
        create
  | None => create
  end.

(** [get_connection] from the await of [conn.connect] on *)
Definition get_connection_resume (account environment : string) (s : Started)
  : M Session :=
  match s with
  | Returned conn => ret conn
  | Connecting conn access_token ctid =>
      conn' <- connect_or_raise conn access_token ctid ;;
      store_connection (conn_key account environment) conn' ;;;
      stat_incr "connections_created" ;;;
      ret conn'
  end.

(** A mutation of the object that [get_connection] returned for [key];
    the object is the one stored under [key]. *)
Definition mutate_conn (key : string) (f : Session -> Session) : M unit :=
  modify_pool (fun p =>
    match od_get key (connections p) with
    | Some conn => with_connections (od_set key (f conn) (connections p)) p
    | None => p
    end).

(** Reading [conn.ctid_account_id] *)
Definition read_ctid_account_id (conn : Session) : M Z :=
  match ctid_account_id conn with
  | Some c => ret c
  | None =>
      raise (AttributeError
        "'CTraderConnectionWrapper' object has no attribute 'ctid_account_id'")
  end.

(** Evaluating [conn.client.send]: fails on [None] *)
Definition read_client_send (conn : Session) : M Client :=
  match client conn with
  | Some c => ret c
  | None => raise (AttributeError "'NoneType' object has no attribute 'send'")
  end.

(** [int(position_id)] *)
Definition parse_position_id (position_id : string) : M Z :=
  match int_of_str position_id with
  | Some z => ret z
  | None =>
      raise (ValueError
        ("invalid literal for int() with base 10: '" +:+ position_id +:+ "'"))
  end.

Definition lift_res {A} (r : Res A) : M A := fun w => (r, w).

(** [CTraderConnectionPool.get_account_info].  After the vendor call the
    method reads the name [account_info], which is bound nowhere. *)
Definition get_account_info (account environment : string) : M (option AccountInfo) :=
  try_except
    (conn <- get_connection account environment None None ;;
     api <- has_api ;;
     if negb api then
       ret (Some {| ai_accountId := account; ai_balance := 10000;
                    ai_equity := 10000; ai_margin := 0; ai_freeMargin := 10000;
                    ai_currency := "USD"; ai_leverage := 100;
                    ai_environment := environment |})
     else
       valid <- match account_info_cache conn with
                | Some _ => is_cache_valid conn 5
                | None => ret false
                end ;;
       if valid then ret (account_info_cache conn)
       else
         _ <- read_client_send conn ;;
         _ <- vendor_call VAccounts ;;
         raise (NameError "account_info"))
    (fun e => stat_incr "errors" ;;; ret None).

(** What [get_positions] returns: mock dictionaries or vendor positions. *)
Inductive PositionItem :=
| MockItem (m : MockPosition)
| VendorItem (p : Position).

(** [CTraderConnectionPool.get_positions] *)
Definition get_positions (account environment : string) : M (list PositionItem) :=
  let key := conn_key account environment in
  try_except
    (conn <- get_connection account environment None None ;;
     api <- has_api ;;
     if negb api then
       p <- get_pool ;;
       ret (map MockItem (default [] (_mock_positions p !! account)))
     else
       valid <- match positions_cache conn with
                | [] => ret false
                | _ :: _ => is_cache_valid conn 1
                end ;;
       if valid then ret (map VendorItem (od_values (positions_cache conn)))
       else
         ctid <- read_ctid_account_id conn ;;
         _ <- read_client_send conn ;;
         response <- vendor_call (VReconcile ctid) ;;
         let cache := od_of_list (fun pos => PInt (positionId pos)) (position response) in
         mutate_conn key (set_positions_cache cache) ;;;
         t <- now ;;
         mutate_conn key (set_cache_timestamp (Some t)) ;;;
         ret (map VendorItem (od_values cache)))
    (fun e => stat_incr "errors" ;;; ret []).

(** [CTraderConnectionPool.get_orders] *)
Definition get_orders (account environment : string) : M (list Order) :=
  let key := conn_key account environment in
  try_except
    (conn <- get_connection account environment None None ;;
     api <- has_api ;;
     if negb api then ret []
     else
       valid <- match orders_cache conn with
                | [] => ret false
                | _ :: _ => is_cache_valid conn 1
                end ;;
       if valid then ret (od_values (orders_cache conn))
       else
         ctid <- read_ctid_account_id conn ;;
         _ <- read_client_send conn ;;
         response <- vendor_call (VReconcile ctid) ;;
         let cache := od_of_list (fun o => PInt (orderId o)) (order response) in
         mutate_conn key (set_orders_cache cache) ;;;
         t <- now ;;
         mutate_conn key (set_cache_timestamp (Some t)) ;;;
         ret (od_values cache))
    (fun e => stat_incr "errors" ;;; ret []).

(** The value under ['executedVolume']: the volume entry of the order
    as it was given (mock mode), or the vendor's executed volume, counted
    in hundredths, divided by 100. *)
Inductive ExecutedVolume :=
| Requested (lots : option Num)
| Hundredths (n : Z).

(** The dictionary returned by [execute_trade]; [tr_positionId] is
    [Some None] when the key is present with value [None]. *)
Record TradeResult := {
  tr_success : bool;
  tr_error : option string;
  tr_orderId : option string;
  tr_positionId : option (option string);
  tr_executedVolume : option ExecutedVolume;
  tr_executedPrice : option Q
}.

(** Reading an attribute of an SDK object; the class name that the
    message of Python carries is left out. *)
Definition getattr {A} (name : string) (x : option A) : Res A :=
  match x with
  | Some a => Ok a
  | None => Raise (AttributeError ("object has no attribute '" +:+ name +:+ "'"))
  end.

(** The result that [execute_trade] builds from the vendor's reply: the
    reads of [response.executionEvent] and of its attributes, in the
    order of evaluation. *)
Definition read_execution (response : Response) : Res TradeResult :=
  match getattr "executionEvent" (executionEvent response) with
  | Raise e => Raise e
  | Ok ev =>
      match getattr "orderId" (ev_orderId ev) with
      | Raise e => Raise e
      | Ok order_id =>
          match getattr "position" (ev_position ev) with
          | Raise e => Raise e
          | Ok pos =>
              match getattr "executedVolume" (ev_executedVolume ev) with
              | Raise e => Raise e
              | Ok volume =>
                  match getattr "executionPrice" (ev_executionPrice ev) with
                  | Raise e => Raise e
                  | Ok price =>
                      Ok {| tr_success := true; tr_error := None;
                            tr_orderId := Some (str_Z order_id);
                            tr_positionId :=
                              Some (match pos with
                                    | Some p => Some (str_Z (positionId p))
                                    | None => None
                                    end);
                            tr_executedVolume := Some (Hundredths volume);
                            tr_executedPrice := Some price |}
                  end
              end
          end
      end
  end.

(** The [try] block of [execute_trade].  The mock order id is ["mock_"]
    followed by the clock reading; the float formatting of the timestamp
    is not reproduced.  The trade is counted before the reply is read. *)
Definition execute_trade_try (account environment : string) (trade_data : TradeData)
  : M TradeResult :=
  conn <- get_connection account environment None None ;;
  api <- has_api ;;
  if negb api then
    stat_incr "trades_executed" ;;;
    t <- now ;;
    ret {| tr_success := true; tr_error := None;
           tr_orderId := Some ("mock_" +:+ str_Z t);
           tr_positionId := None;
           tr_executedVolume :=
             Some (Requested (entry_get (td_volume trade_data) (NInt 0)));
           tr_executedPrice := Some (11 # 10)%Q |}
  else
    p <- get_pool ;;
    order <- lift_res (map_order_request (data_mapper p) trade_data) ;;
    ctid <- read_ctid_account_id conn ;;
    _ <- read_client_send conn ;;
    response <- vendor_call (VNewOrder
      {| req_ctidTraderAccountId := ctid;
         req_symbolId := co_symbolId order;
         req_orderType := co_orderType order;
         req_tradeSide := co_tradeSide order;
         req_volume := co_volume order;
         req_stopLoss := co_stopLoss order;
         req_takeProfit := co_takeProfit order;
         req_comment := co_comment order |}) ;;
    stat_incr "trades_executed" ;;;
    lift_res (read_execution response).

(** The [except Exception as e] block of [execute_trade] *)
Definition execute_trade_except (e : exn) : M TradeResult :=
  stat_incr "errors" ;;;
  ret {| tr_success := false; tr_error := Some (str_exn e);
         tr_orderId := None; tr_positionId := None;
         tr_executedVolume := None; tr_executedPrice := None |}.

(** [CTraderConnectionPool.execute_trade] *)
Definition execute_trade (account environment : string) (trade_data : TradeData)
  : M TradeResult :=
  try_except (execute_trade_try account environment trade_data)
    execute_trade_except.

(** The [try] block of [modify_position] *)
Definition modify_position_try (account environment position_id : string)
    (stop_loss take_profit : option Q) : M bool :=
  conn <- get_connection account environment None None ;;
  api <- has_api ;;
  if negb api then ret true
  else
    ctid <- read_ctid_account_id conn ;;
    pid <- parse_position_id position_id ;;
    _ <- read_client_send conn ;;
    _ <- vendor_call (VAmend ctid pid stop_loss take_profit) ;;
    ret true.

(** [CTraderConnectionPool.modify_position] *)
Definition modify_position (account environment position_id : string)
    (stop_loss take_profit : option Q) : M bool :=
  try_except
    (modify_position_try account environment position_id stop_loss take_profit)
    (fun e => stat_incr "errors" ;;; ret false).

(** [p.get('id') != position_id] *)
Definition mock_id_differs (position_id : string) (p : MockPosition) : bool :=
  negb (bool_decide (od_get "id" p = Some (PStr position_id))).

(** [CTraderConnectionPool.close_position] *)
Definition close_position (account environment position_id : string) : M bool :=
  let key := conn_key account environment in
  try_except
    (conn <- get_connection account environment None None ;;
     api <- has_api ;;
     if negb api then
       modify_pool (fun p =>
         match _mock_positions p !! account with
         | Some ps =>
             with_mock_positions
               (<[account := List.filter (mock_id_differs position_id) ps]>
                  (_mock_positions p)) p
         | None => p
         end) ;;;
       ret true
     else
       ctid <- read_ctid_account_id conn ;;
       pid <- parse_position_id position_id ;;
       _ <- read_client_send conn ;;
       _ <- vendor_call (VClose ctid pid) ;;
       mutate_conn key (fun c =>
         set_positions_cache (od_del (PStr position_id) (positions_cache c)) c) ;;;
       ret true)
    (fun e => stat_incr "errors" ;;; ret false).

(** [self.stats[k]] on the [defaultdict(int)]: a missing key is created
    with value [0]. *)
Definition touch (k : string) (s : gmap string Z) : gmap string Z :=
  <[k := stat_get s k]> s.

Definition stat_read (k : string) : M Z :=
  fun w =>
    (Ok (stat_get (stats (pool w)) k),
     with_pool (with_stats (touch k (stats (pool w))) (pool w)) w).

(** [a / b] on two [int]s *)
Definition py_truediv (a b : Z) : M Q :=
  if b =? 0 then raise ZeroDivisionError else ret (inject_Z a / inject_Z b)%Q.

Record PoolStats := {
  connectionsCreated : Z;
  connectionsReused : Z;
  tradesExecuted : Z;
  errors : Z;
  activeConnections : nat;
  reuse_ratio : Q
}.

(** [CTraderConnectionPool.get_stats] *)
Definition get_stats : M PoolStats :=
  created <- stat_read "connections_created" ;;
  reused <- stat_read "connections_reused" ;;
  trades <- stat_read "trades_executed" ;;
  errs <- stat_read "errors" ;;
  p <- get_pool ;;
  reused' <- stat_read "connections_reused" ;;
  created' <- stat_read "connections_created" ;;
  ratio <- py_truediv reused' (Z.max 1 created') ;;
  ret {| connectionsCreated := created; connectionsReused := reused;
         tradesExecuted := trades; errors := errs;
         activeConnections := length (connections p);
         reuse_ratio := ratio |}.

(** ** Running a sequence of [get_connection] calls *)

Record Call := {
  c_account : string;
  c_environment : string;
  c_access_token : option string;
  c_ctid : option Z
}.

Definition run_call (c : Call) (w : World) : World :=
  snd (get_connection (c_account c) (c_environment c)
         (c_access_token c) (c_ctid c) w).

(** The calls run one after another: each returns or raises before the
    next begins. *)
Definition run_calls (cs : list Call) (w : World) : World :=
  fold_left (fun w c => run_call c w) cs w.

(** ** Vocabulary of the statements *)

(** What no pool operation changes, and the clock index only grows. *)
Definition same_env (w w' : World) : Prop :=
  HAS_CTRADER_API w' = HAS_CTRADER_API w ∧
  clock w' = clock w ∧
  vendor w' = vendor w ∧
  max_connections (pool w') = max_connections (pool w) ∧
  data_mapper (pool w') = data_mapper (pool w) ∧
  (ticks w ≤ ticks w')%nat.

(** A session as [get_connection] hands it out right after creating it
    in world [w1]. *)
Definition is_fresh (account env : string) (w1 : World) (c : Session) : Prop :=
  oid c = next_oid w1 ∧ account_id c = account ∧ environment c = env ∧
  last_used c = clock w1 (ticks w1) ∧ is_connected c = true ∧
  positions_cache c = [] ∧ orders_cache c = [] ∧
  account_info_cache c = None ∧ cache_timestamp c = None ∧
  ctid_account_id c = None.

Definition has_credentials (access_token : option string) (ctid : option Z) : bool :=
  truthy_str access_token && truthy_int ctid.

(** The creation path after the limit check, from world [w1]. *)
Definition creation_outcome (account env : string) (access_token : option string)
    (ctid : option Z) (w1 : World) (r : Res Session) (w' : World) : Prop :=
  let key := conn_key account env in
  same_env w1 w' ∧ ticks w' = S (ticks w1) ∧ next_oid w' = S (next_oid w1) ∧
  (has_credentials access_token ctid = false → trace w' = trace w1) ∧
  ((∃ c, r = Ok c ∧ is_fresh account env w1 c ∧
      pool w' =
        with_stats
          (if has_credentials access_token ctid
           then bump "connections_created" (stats (pool w1)) else stats (pool w1))
          (with_connections (od_set key c (connections (pool w1))) (pool w1)))
   ∨
   (∃ msg, r = Raise (VendorError msg) ∧ pool w' = pool w1 ∧
      has_credentials access_token ctid = true ∧ HAS_CTRADER_API w1 = true)).


(** During the step from [w] to [w'] a connect attempt was made and the
    SDK raised with [msg]: in its synchronous code, on the connect
    request, or on the authorisation request, whichever was the last
    thing that the attempt did. *)
Definition handshake_failed (w w' : World) (msg : string) : Prop :=
  sdk_calls w' = S (sdk_calls w) ∧
  match sdk w (sdk_calls w) with
  | Some (ClientFault m) | Some (TokenFault m) => m = msg
  | fault =>
      ∃ tr live,
        (length (trace w) ≤ length tr)%nat ∧
        ((trace w' = VConnect live :: tr ∧
          match vendor w (length tr) with
          | VRaise m => m = msg
          | VOk _ => fault = Some (AuthReqFault msg)
          end)
         ∨
         (∃ ctid tok,
            trace w' = VAuth ctid tok :: VConnect live :: tr ∧
            vendor w (S (length tr)) = VRaise msg))
  end.

(** During the step from [w] to [w'] a connect attempt was made and went
    through: nothing raised, and the connect and the authorisation
    request were the last two requests sent. *)
Definition handshake_done (w w' : World) : Prop :=
  sdk_calls w' = S (sdk_calls w) ∧
  sdk w (sdk_calls w) = None ∧
  ∃ tr live ctid tok r1 r2,
    (length (trace w) ≤ length tr)%nat ∧
    trace w' = VAuth ctid tok :: VConnect live :: tr ∧
    vendor w (length tr) = VOk r1 ∧ vendor w (S (length tr)) = VOk r2.


(** Readings of the clock strictly increase. *)
Definition clock_increasing (w : World) : Prop :=
  ∀ i, clock w i < clock w (S i).

(** Every stored [last_used] is earlier than the next clock reading. *)
Definition stamps_past (w : World) : Prop :=
  ∀ k s, In (k, s) (connections (pool w)) → last_used s < clock w (ticks w).

Definition pool_size (w : World) : nat := length (connections (pool w)).

(** A pool with a positive limit that it respects, under a strictly
    increasing clock. *)
Definition pool_ok (w : World) : Prop :=
  1 ≤ max_connections (pool w) ∧
  clock_increasing w ∧
  stamps_past w ∧
  NoDup (od_keys (connections (pool w))) ∧
  ¬ In "" (od_keys (connections (pool w))) ∧
  Z.of_nat (pool_size w) ≤ max_connections (pool w).

Definition created_count (w : World) : Z :=
  stat_get (stats (pool w)) "connections_created".

Definition reused_count (w : World) : Z :=
  stat_get (stats (pool w)) "connections_reused".

Definition errors_count (w : World) : Z :=
  stat_get (stats (pool w)) "errors".

Definition trades_count (w : World) : Z :=
  stat_get (stats (pool w)) "trades_executed".

(** ** Sample worlds *)

Definition empty_response : Response :=
  {| position := []; order := []; executionEvent := None |}.

(** A freshly constructed pool in its surroundings. *)
Definition init_world (api : bool) (max_conn : Z) (mapper : CTraderDataMapper)
    (clk : nat -> Z) (vnd : nat -> VendorReply) : World :=
  {| pool := new_pool max_conn 300 mapper; HAS_CTRADER_API := api;
     clock := clk; ticks := 0; vendor := vnd; trace := []; next_oid := 0;
     sdk := fun _ => None; sdk_calls := 0;
     fromtimestamp := fun _ => None |}.

Definition no_mapping : CTraderDataMapper :=
  {| symbol_mapping := []; reverse_symbol_mapping := [] |}.

(** A clock that advances by one second per reading. *)
Definition second_clock (n : nat) : Z := Z.of_nat n * 1000000.

Definition vendor_ok (_ : nat) : VendorReply := VOk empty_response.
Definition vendor_down (_ : nat) : VendorReply := VRaise "connection refused".

Definition plain_call (account : string) : Call :=
  {| c_account := account; c_environment := "demo";
     c_access_token := None; c_ctid := None |}.

Definition login_call (account : string) : Call :=
  {| c_account := account; c_environment := "demo";
     c_access_token := Some "token"; c_ctid := Some 42 |}.

(** A clock with the granularity of a coarse system timer: four
    consecutive readings share one value. *)
Definition coarse_clock (n : nat) : Z := Z.of_nat (n / 4) * 15625.

(** Pools that have served one credential-less call for account ["A"]. *)
Definition world_A (api : bool) (max_conn : Z) (clk : nat -> Z)
    (vnd : nat -> VendorReply) : World :=
  run_calls [plain_call "A"] (init_world api max_conn no_mapping clk vnd).

(** The pool of [world_A] after the session of account ["A"] was marked
    disconnected from outside the pool, as [conn.disconnect()] on the
    returned object does. *)
Definition world_A_stale (api : bool) (max_conn : Z) (clk : nat -> Z)
    (vnd : nat -> VendorReply) : World :=
  snd (mutate_conn "A_demo" (set_is_connected false) (world_A api max_conn clk vnd)).

(** A world in which the synchronous SDK code of the connect attempts
    behaves as [f] says. *)
Definition with_sdk (f : nat -> option SdkFault) (w : World) : World :=
  {| pool := pool w; HAS_CTRADER_API := HAS_CTRADER_API w; clock := clock w;
     ticks := ticks w; vendor := vendor w; trace := trace w;
     next_oid := next_oid w; sdk := f; sdk_calls := sdk_calls w;
     fromtimestamp := fromtimestamp w |}.

(** An assignment [conn.ctid_account_id = c] made from outside the
    class, which has no such assignment of its own. *)
Definition set_ctid_account_id (c : option Z) (s : Session) : Session :=
  {| oid := oid s; account_id := account_id s; environment := environment s;
     client := client s; is_connected := is_connected s;
     last_used := last_used s;
     connection_count := connection_count s; error_count := error_count s;
     positions_cache := positions_cache s; orders_cache := orders_cache s;
     account_info_cache := account_info_cache s;
     cache_timestamp := cache_timestamp s;
     ctid_account_id := c |}.

(** A vendor that answers its first calls from a script and every later
    call with [last]. *)
Definition vendor_script (replies : list VendorReply) (last : VendorReply)
    (n : nat) : VendorReply :=
  nth n replies last.

(** A pool after a successful credentialed call for account ["acc"]. *)
Definition logged_in_world (mapper : CTraderDataMapper) (clk : nat -> Z)
    (vnd : nat -> VendorReply) : World :=
  run_calls [login_call "acc"] (init_world true 50 mapper clk vnd).

(** The same, after the caller has set [ctid_account_id] on the session. *)
Definition linked_world (mapper : CTraderDataMapper) (clk : nat -> Z)
    (vnd : nat -> VendorReply) : World :=
  snd (mutate_conn "acc_demo" (set_ctid_account_id (Some 42))
         (logged_in_world mapper clk vnd)).

(** An order as the API layer passes it on: every key but ['openPrice']
    is present. *)
Definition order_for (symbol : string) : TradeData :=
  {| td_symbol := Bound symbol; td_actionType := Bound "ORDER_TYPE_BUY";
     td_volume := Bound (NFloat 1); td_openPrice := Absent; td_stopLoss := IsNone;
     td_takeProfit := IsNone; td_comment := Bound ""; td_clientId := Bound "" |}.

(** A configuration in which two symbols name the same vendor instrument. *)
Definition gold_config : ConfigFile :=
  Some (Some [("XAUUSD", [("cTraderId", PInt 41); ("tickValue", PInt 1)]);
              ("GOLD", [("cTraderId", PInt 41); ("tickValue", PInt 1)])]).

(** A configuration with one vendor id per symbol. *)
Definition fx_config : ConfigFile :=
  Some (Some [("EURUSD", [("cTraderId", PInt 1); ("tickValue", PInt 1)]);
              ("GBPUSD", [("cTraderId", PInt 2); ("tickValue", PInt 1)])]).

(** A clock that advances by a tenth of a second per reading. *)
Definition tenth_clock (n : nat) : Z := Z.of_nat n * 100000.

(** A clock that reads out a script and then stays at [last]. *)
Definition clock_script (readings : list Z) (last : Z) (n : nat) : Z :=
  nth n readings last.

Definition position_7 : Position :=
  {| positionId := 7; pos_symbolId := 1; pos_volume := 100 |}.

Definition position_8 : Position :=
  {| positionId := 8; pos_symbolId := 2; pos_volume := 300 |}.

Definition order_1 : Order :=
  {| orderId := 1; ord_symbolId := 1; ord_volume := 100 |}.

Definition reconcile_reply (ps : list Position) (os : list Order) : VendorReply :=
  VOk {| position := ps; order := os;
         executionEvent := executionEvent empty_response |}.

(** The session stored for account ["acc"], if any. *)
Definition session_acc (w : World) : option Session :=
  od_get "acc_demo" (connections (pool w)).

(** A clock and a vendor for three queries on one session: positions at
    1 s, orders at 11 s, positions again at 11.5 s. *)
Definition stale_clock : nat -> Z :=
  clock_script [0; 1000000; 1000000; 11000000; 11000000; 11500000; 11500000]
    20000000.

Definition stale_vendor : nat -> VendorReply :=
  vendor_script
    [VOk empty_response; VOk empty_response;
     reconcile_reply [position_7] [];
     reconcile_reply [position_8] [order_1]]
    (reconcile_reply [position_8] [order_1]).

(** A vendor that reports position 7 on the first reconcile request. *)
Definition one_position_vendor : nat -> VendorReply :=
  vendor_script
    [VOk empty_response; VOk empty_response; reconcile_reply [position_7] []]
    (VOk empty_response).

(** Worlds after a first, a second and a third operation. *)
Definition after {A B C : Type} (op1 : M A) (op2 : M B) (op3 : M C) (w : World)
  : World * World * (Res C * World) :=
  let w1 := snd (op1 w) in
  let w2 := snd (op2 w1) in
  (w1, w2, op3 w2).

(** ** More of the pool *)

(** The keys that the first loop of [_periodic_cleanup] collects. *)
Definition idle_keys (idle_threshold : Z) (conns : list (string * Session))
  : list string :=
  map fst (List.filter (fun item => last_used (snd item) <? idle_threshold) conns).

(** The second loop of [_periodic_cleanup]: disconnect and delete. *)
Fixpoint remove_idle (idle_connections : list string) : M unit :=
  match idle_connections with
  | [] => ret tt
  | key :: rest =>
      p <- get_pool ;;
      match od_get key (connections p) with
      | None => raise (KeyError key)
      | Some conn =>
          (fun w => (Ok tt, snd (disconnect conn w))) ;;;
          del_connection key ;;;
          remove_idle rest
      end
  end.

(** The range of [datetime], in microseconds counted from
    1970-01-01T00:00:00: from the first microsecond of year 1 to the last
    of year 9999. *)
Definition datetime_min : Z := -62135596800000000.
Definition datetime_max : Z := 253402300799999999.

(** [timedelta(seconds=n)] for an integer [n], in microseconds: the
    number of days, [n // 86400], must have magnitude at most
    999999999. *)
Definition timedelta_seconds (n : Z) : Res Z :=
  if Z.abs (n / 86400) <=? 999999999 then Ok (n * 1000000)
  else Raise (OverflowError "timedelta # of days is too large").

(** [now - timedelta(seconds=idle_timeout)]: the difference must be a
    [datetime] again. *)
Definition idle_threshold_at (t idle_timeout : Z) : Res Z :=
  match timedelta_seconds idle_timeout with
  | Raise e => Raise e
  | Ok delta =>
      if (datetime_min <=? t - delta) && (t - delta <=? datetime_max)
      then Ok (t - delta)
      else Raise (OverflowError "date value out of range")
  end.

(** One turn of the loop of [_periodic_cleanup], after the sleep: the
    [try] block with its [except Exception] clause.  Cancellation of the
    task is not modelled. *)
Definition _periodic_cleanup_pass : M unit :=
  try_except
    (t <- now ;;
     p <- get_pool ;;
     idle_threshold <- lift_res (idle_threshold_at t (idle_timeout p)) ;;
     remove_idle (idle_keys idle_threshold (connections p)))
    (fun e => ret tt).

(** [CTraderConnectionPool.cleanup]; the handle of the background task
    is not part of the modelled state. *)
Definition cleanup : M unit :=
  p <- get_pool ;;
  (fun w =>
     (Ok tt,
      fold_left (fun w' conn => snd (disconnect conn w'))
        (od_values (connections p)) w)) ;;;
  modify_pool (with_connections []).

(** [CTraderConnectionPool.initialize_streaming] *)
Definition initialize_streaming (account environment : string) : M bool :=
  try_except
    (conn <- get_connection account environment None None ;;
     ret (is_connected conn))
    (fun e => ret false).

(** [CTraderConnectionPool.add_mock_position] *)
Definition add_mock_position (account : string) (position : MockPosition) : M unit :=
  modify_pool (fun p =>
    let m := match _mock_positions p !! account with
             | None => <[account := []]> (_mock_positions p)
             | Some _ => _mock_positions p
             end in
    with_mock_positions (<[account := default [] (m !! account) ++ [position]]> m) p).

(** [CTraderConnectionPool.clear_mock_positions] *)
Definition clear_mock_positions (account : string) : M unit :=
  modify_pool (fun p =>
    match _mock_positions p !! account with
    | Some _ => with_mock_positions (<[account := []]> (_mock_positions p)) p
    | None => p
    end).

(** The dictionary returned by [get_risk_status]. *)
Record RiskStatus := {
  rs_drawdown : Q;
  rs_maxDrawdown : Q;
  rs_riskLevel : string;
  rs_marginLevel : Q
}.

(** [x < y] on two floats *)
Definition Qlt_bool (x y : Q) : bool := negb (Qle_bool y x).

(** [CTraderConnectionPool.get_risk_status].  An account-info dictionary
    has no ['marginLevel'] entry, so the default is reported. *)
Definition get_risk_status (account : string) : M RiskStatus :=
  account_info <- get_account_info account "demo" ;;
  match account_info with
  | Some info =>
      let balance := ai_balance info in
      let equity := ai_equity info in
      let drawdown :=
        if Qlt_bool 0 balance then (((balance - equity) / balance) * 100)%Q
        else 0%Q in
      ret {| rs_drawdown := drawdown; rs_maxDrawdown := drawdown;
             rs_riskLevel :=
               if Qlt_bool drawdown 5 then "low"
               else if Qlt_bool drawdown 10 then "medium" else "high";
             rs_marginLevel := 0 |}
  | None =>
      ret {| rs_drawdown := 0; rs_maxDrawdown := 0; rs_riskLevel := "low";
             rs_marginLevel := 0 |}
  end.

(** ** More of the mapper *)

(** [s.replace(old, new)] for a non-empty [old]: [skip] counts the
    characters of a match that are still to be dropped. *)
Fixpoint str_replace_from (old new s : string) (skip : nat) : string :=
  match s with
  | EmptyString => EmptyString
  | String c s' =>
      match skip with
      | S k => str_replace_from old new s' k
      | O =>
          if String.prefix old s
          then new +:+ str_replace_from old new s' (String.length old - 1)
          else String c (str_replace_from old new s' 0)
      end
  end.

Definition str_replace (old new s : string) : string :=
  str_replace_from old new s 0.

(** [CTraderDataMapper.map_order_state] *)
Definition map_order_state (ctrader_status : string) : string :=
  if String.eqb ctrader_status "PENDING" then "ORDER_STATE_PLACED"
  else if String.eqb ctrader_status "ACCEPTED" then "ORDER_STATE_PLACED"
  else if String.eqb ctrader_status "FILLED" then "ORDER_STATE_FILLED"
  else if String.eqb ctrader_status "CANCELLED" then "ORDER_STATE_CANCELED"
  else if String.eqb ctrader_status "EXPIRED" then "ORDER_STATE_EXPIRED"
  else if String.eqb ctrader_status "REJECTED" then "ORDER_STATE_REJECTED"
  else "ORDER_STATE_PLACED".

(** The order object handed to [map_order]; [None] is an attribute that
    the object does not have. *)
Record VendorOrder := {
  vo_symbolId : option PyVal;
  vo_volume : option Z;
  vo_orderType : option Z;
  vo_tradeSide : option string;
  vo_orderId : option Z;
  vo_orderStatus : option string;
  vo_label : option string;
  vo_limitPrice : option Q;
  vo_stopPrice : option Q;
  vo_executionPrice : option Q;
  vo_comment : option string;
  vo_utcLastUpdateTimestamp : option Z;
  vo_utcTimestamp : option Z
}.

(** A time string of the result: made from a timestamp in milliseconds,
    or from the clock.  The text of [isoformat()] is not reproduced. *)
Inductive TimeText :=
| FromMillis (ms : Z)
| FromClock (t : Z).

(** The dictionary returned by [map_order]. *)
Record MetaOrder := {
  mo_id : string;
  mo_type : string;
  mo_state : string;
  mo_symbol : PyVal;
  mo_magic : Z;
  mo_openPrice : Q;
  mo_currentPrice : Q;
  mo_volume : Q;
  mo_currentVolume : Q;
  mo_comment : string;
  mo_clientId : string;
  mo_updateTime : TimeText;
  mo_openTime : TimeText
}.

(** The table [order_type_map] of [map_order], with its default. *)
Definition order_type_name (order_type : Z) : string :=
  if order_type =? 1 then "ORDER_TYPE_BUY"
  else if order_type =? 2 then "ORDER_TYPE_BUY_LIMIT"
  else if order_type =? 3 then "ORDER_TYPE_BUY_STOP"
  else if order_type =? 4 then "ORDER_TYPE_SELL"
  else if order_type =? 5 then "ORDER_TYPE_BUY"
  else if order_type =? 6 then "ORDER_TYPE_BUY_STOP"
  else "ORDER_TYPE_BUY".

(** [x or y] on two floats *)
Definition Q_or (x y : Q) : Q := if Qeq_bool x 0 then y else x.

(** A time entry of [map_order]: from the attribute when the object has
    it, and then [datetime.fromtimestamp] raises for a timestamp that the
    platform does not accept; from [datetime.now()] otherwise. *)
Definition time_text (stamp : option Z) : M TimeText :=
  match stamp with
  | Some ms =>
      fun w =>
        match fromtimestamp w ms with
        | None => (Ok (FromMillis ms), w)
        | Some e => (Raise e, w)
        end
  | None => t <- now ;; ret (FromClock t)
  end.

(** [CTraderDataMapper.map_order].  ['magic'] is [int(label or 0)]. *)
Definition map_order (self : CTraderDataMapper) (ctrader_order : VendorOrder)
  : M MetaOrder :=
  match vo_symbolId ctrader_order with
  | None => raise (AttributeError "symbolId")
  | Some symbol_id =>
      let mt5_symbol := lookup_mt5_symbol self symbol_id in
      let volume := (inject_Z (default 0%Z (vo_volume ctrader_order)) / 100)%Q in
      let base_type := order_type_name (default 1 (vo_orderType ctrader_order)) in
      let order_type :=
        if String.eqb (default "BUY" (vo_tradeSide ctrader_order)) "SELL"
        then str_replace "BUY" "SELL" base_type else base_type in
      match (match vo_label ctrader_order with
             | None => Some 0
             | Some label => if String.eqb label "" then Some 0 else int_of_str label
             end) with
      | None =>
          raise (ValueError
            ("invalid literal for int() with base 10: '"
               +:+ default "" (vo_label ctrader_order) +:+ "'"))
      | Some magic =>
          update_time <- time_text (vo_utcLastUpdateTimestamp ctrader_order) ;;
          open_time <- time_text (vo_utcTimestamp ctrader_order) ;;
          ret {| mo_id := match vo_orderId ctrader_order with
                          | Some n => str_Z n
                          | None => ""
                          end;
                 mo_type := order_type;
                 mo_state :=
                   map_order_state (default "PENDING" (vo_orderStatus ctrader_order));
                 mo_symbol := mt5_symbol;
                 mo_magic := magic;
                 mo_openPrice :=
                   Q_or (default 0%Q (vo_limitPrice ctrader_order))
                        (default 0%Q (vo_stopPrice ctrader_order));
                 mo_currentPrice := default 0%Q (vo_executionPrice ctrader_order);
                 mo_volume := volume;
                 mo_currentVolume := volume;
                 mo_comment := default "" (vo_comment ctrader_order);
                 mo_clientId := default "" (vo_label ctrader_order);
                 mo_updateTime := update_time;
                 mo_openTime := open_time |}
      end
  end.

(** ** Vocabulary of the further statements *)

(** What the pool's own operations keep true of the stored sessions:
    each is connected, sits under the key made from its own account and
    environment, and was allocated before; no object sits under two
    keys. *)
Definition sessions_ok (w : World) : Prop :=
  (∀ k s, In (k, s) (connections (pool w)) →
     is_connected s = true ∧
     conn_key (account_id s) (environment s) = k ∧
     (oid s < next_oid w)%nat) ∧
  (∀ k1 s1 k2 s2,
     In (k1, s1) (connections (pool w)) → In (k2, s2) (connections (pool w)) →
     oid s1 = oid s2 → k1 = k2).

(** Whether [disconnect] has a vendor connection to close. *)
Definition has_live_client (s : Session) : bool :=
  match client s with
  | Some _ => is_connected s
  | None => false
  end.

(** The threshold that a pass of the idle sweep computes in world [w]. *)
Definition sweep_threshold (w : World) : Z :=
  clock w (ticks w) - idle_timeout (pool w) * 1000000.

(** The mock positions that the pool holds for an account. *)
Definition mock_positions_of (w : World) (account : string) : list MockPosition :=
  default [] (_mock_positions (pool w) !! account).

(** What [get_risk_status] reports when it has no account information. *)
Definition no_risk : RiskStatus :=
  {| rs_drawdown := 0; rs_maxDrawdown := 0; rs_riskLevel := "low";
     rs_marginLevel := 0 |}.

(** The action types that [map_order_request] has in its table. *)
Definition known_action_types : list string :=
  ["ORDER_TYPE_BUY"; "ORDER_TYPE_SELL"; "ORDER_TYPE_BUY_LIMIT";
   "ORDER_TYPE_SELL_LIMIT"; "ORDER_TYPE_BUY_STOP"; "ORDER_TYPE_SELL_STOP"].

(** The action type that [map_order_request] works with, when the entry
    is not [None]. *)
Definition action_type_of (td : TradeData) : string :=
  default "ORDER_TYPE_BUY" (entry_value (td_actionType td)).

(** A configuration with an entry that lacks its vendor id. *)
Definition broken_config : ConfigFile :=
  Some (Some [("EURUSD", [("cTraderId", PInt 1); ("tickValue", PInt 1)]);
              ("GBPUSD", [("tickValue", PInt 1)])]).

(** Whether a string begins with an ASCII letter.  Such a string is no
    integer literal, for [int()] of Python as for [int_of_str]. *)
Definition is_ascii_letter (a : Ascii.ascii) : bool :=
  let n := Ascii.nat_of_ascii a in
  ((65 <=? n)%nat && (n <=? 90)%nat) || ((97 <=? n)%nat && (n <=? 122)%nat).

Definition starts_with_letter (s : string) : bool :=
  match s with
  | String a _ => is_ascii_letter a
  | EmptyString => false
  end.





(** ** Calls of the methods of the pool *)





(** * Properties *)

(** ** Insertion-ordered dictionaries *)

Section odict_facts.
Context {K V : Type} `{EqDecision K}.
Implicit Types (k : K) (v : V) (d : list (K * V)).

Lemma od_get_set_eq k v d : od_get k (od_set k v d) = Some v.
Proof.
  induction d as [|[k' v'] d IH]; simpl.
  - by rewrite decide_True.
  - destruct (decide (k = k')) as [->|Hne]; simpl.
    + by rewrite decide_True.
    + by rewrite decide_False.
Qed.

Lemma od_get_set_ne k k' v d : k ≠ k' → od_get k' (od_set k v d) = od_get k' d.
Proof.
  intros Hne. induction d as [|[k0 v0] d IH]; simpl.
  - rewrite decide_False; [done | congruence].
  - destruct (decide (k = k0)) as [->|Hk]; simpl.
    + rewrite !decide_False; [done | congruence | congruence].
    + by rewrite IH.
Qed.

Lemma od_get_del_eq k d : od_get k (od_del k d) = None.
Proof.
  induction d as [|[k' v'] d IH]; simpl; [done|].
  destruct (decide (k = k')); simpl; [done|]. by rewrite decide_False.
Qed.

Lemma od_get_del_ne k k' d : k ≠ k' → od_get k' (od_del k d) = od_get k' d.
Proof.
  intros Hne. induction d as [|[k0 v0] d IH]; simpl; [done|].
  destruct (decide (k = k0)) as [->|Hk]; simpl.
  - rewrite decide_False; [done | congruence].
  - by rewrite IH.
Qed.

Lemma od_get_Some_In k v d : od_get k d = Some v → In (k, v) d.
Proof.
  induction d as [|[k' v'] d IH]; simpl; [done|].
  destruct (decide (k = k')) as [->|Hne]; intros Hg.
  - left. congruence.
  - right. auto.
Qed.

Lemma od_get_None_keys k d : od_get k d = None ↔ ¬ In k (od_keys d).
Proof.
  induction d as [|[k' v'] d IH]; simpl; [tauto|].
  destruct (decide (k = k')) as [->|Hne].
  - split; [done | intros Hn; exfalso; apply Hn; by left].
  - rewrite IH. split.
    + intros Hn [Heq|Hin]; [congruence | tauto].
    + tauto.
Qed.

Lemma In_od_get k v d : NoDup (od_keys d) → In (k, v) d → od_get k d = Some v.
Proof.
  induction d as [|[k' v'] d IH]; simpl; [done|].
  intros Hnd [Heq|Hin].
  - inversion Heq; subst. by rewrite decide_True.
  - apply NoDup_cons in Hnd as [Hnotin Hnd].
    destruct (decide (k = k')) as [->|Hne]; [|auto].
    exfalso. apply Hnotin. apply list_elem_of_In.
    change k' with (fst (k', v)). by apply in_map.
Qed.

Lemma od_keys_set_present k v d :
  In k (od_keys d) → od_keys (od_set k v d) = od_keys d.
Proof.
  induction d as [|[k' v'] d IH]; simpl; [done|].
  intros Hin. destruct (decide (k = k')) as [->|Hne]; simpl; [done|].
  f_equal. apply IH. destruct Hin; [congruence | done].
Qed.

Lemma od_keys_set_absent k v d :
  ¬ In k (od_keys d) → od_keys (od_set k v d) = od_keys d ++ [k].
Proof.
  induction d as [|[k' v'] d IH]; simpl; [done|].
  intros Hin. destruct (decide (k = k')) as [->|Hne]; simpl; [tauto|].
  f_equal. apply IH. tauto.
Qed.

Lemma od_keys_del k d : od_keys (od_del k d) = List.filter (fun k' => negb (bool_decide (k = k'))) (od_keys d).
Proof.
  induction d as [|[k' v'] d IH]; simpl; [done|].
  destruct (decide (k = k')) as [->|Hne].
  - rewrite bool_decide_true by done. simpl. done.
  - rewrite bool_decide_false by done. simpl. by rewrite IH.
Qed.

Lemma od_del_In k k' v d : In (k', v) (od_del k d) → In (k', v) d ∧ k ≠ k'.
Proof.
  induction d as [|[k0 v0] d IH]; simpl; [done|].
  destruct (decide (k = k0)) as [->|Hne]; simpl.
  - intros Hin. destruct (IH Hin). auto.
  - intros [Heq|Hin]; [inversion Heq; subst; auto|].
    destruct (IH Hin). auto.
Qed.

Lemma od_set_In k k' v v' d :
  In (k', v') (od_set k v d) → In (k', v') d ∨ (k' = k ∧ v' = v).
Proof.
  induction d as [|[k0 v0] d IH]; simpl.
  - intros [Heq|[]]. inversion Heq; auto.
  - destruct (decide (k = k0)) as [->|Hne]; simpl.
    + intros [Heq|Hin]; [inversion Heq; auto | auto].
    + intros [Heq|Hin]; [auto|]. destruct (IH Hin); auto.
Qed.

Lemma od_set_NoDup k v d : NoDup (od_keys d) → NoDup (od_keys (od_set k v d)).
Proof.
  intros Hnd. destruct (od_get k d) as [v0|] eqn:Hg.
  - rewrite od_keys_set_present; [done|].
    apply od_get_Some_In in Hg. change k with (fst (k, v0)). by apply in_map.
  - apply od_get_None_keys in Hg. rewrite od_keys_set_absent by done.
    apply NoDup_app. split_and!; [done | | apply NoDup_singleton].
    intros x Hx Hx'. apply list_elem_of_singleton in Hx'. subst.
    apply Hg. by apply list_elem_of_In.
Qed.

Lemma od_del_NoDup k d : NoDup (od_keys d) → NoDup (od_keys (od_del k d)).
Proof.
  induction d as [|[k' v'] d IH]; simpl; [done|].
  intros Hnd. apply NoDup_cons in Hnd as [Hnotin Hnd].
  destruct (decide (k = k')) as [->|Hne]; simpl; [auto|].
  apply NoDup_cons. split; [|auto].
  intros Hin. apply Hnotin. apply list_elem_of_In in Hin. apply list_elem_of_In.
  apply in_map_iff in Hin as [[k0 v0] [Hfst Hin]]. simpl in Hfst. subst.
  apply od_del_In in Hin as [Hin _]. change k' with (fst (k', v0)). by apply in_map.
Qed.

Lemma od_set_length_present k v d :
  In k (od_keys d) → length (od_set k v d) = length d.
Proof.
  intros Hin. rewrite <- (length_map fst (od_set k v d)), <- (length_map fst d).
  fold (od_keys (od_set k v d)) (od_keys d). by rewrite od_keys_set_present.
Qed.

Lemma od_set_length_absent k v d :
  od_get k d = None → length (od_set k v d) = S (length d).
Proof.
  intros Hg. apply od_get_None_keys in Hg.
  rewrite <- (length_map fst (od_set k v d)), <- (length_map fst d).
  fold (od_keys (od_set k v d)) (od_keys d).
  rewrite od_keys_set_absent by done. rewrite length_app. simpl. lia.
Qed.

Lemma od_set_length_le k v d : (length (od_set k v d) ≤ S (length d))%nat.
Proof.
  induction d as [|[k' v'] d IH]; simpl; [lia|].
  destruct (decide (k = k')); simpl; lia.
Qed.

Lemma od_del_absent k d : od_get k d = None → od_del k d = d.
Proof.
  induction d as [|[k' v'] d IH]; simpl; [done|].
  destruct (decide (k = k')); [done|]. intros Hg. by rewrite IH.
Qed.

Lemma od_del_length_le k d : (length (od_del k d) ≤ length d)%nat.
Proof.
  induction d as [|[k' v'] d IH]; simpl; [lia|].
  destruct (decide (k = k')); simpl; lia.
Qed.

(** Deleting a key that is present removes exactly one entry. *)
Lemma od_del_length_present k v d :
  NoDup (od_keys d) → od_get k d = Some v → S (length (od_del k d)) = length d.
Proof.
  induction d as [|[k' v'] d IH]; simpl; [done|].
  intros Hnd. apply NoDup_cons in Hnd as [Hnotin Hnd].
  destruct (decide (k = k')) as [->|Hne]; simpl.
  - intros _. rewrite od_del_absent; [done|].
    apply od_get_None_keys. intros Hin. apply Hnotin. by apply list_elem_of_In.
  - intros Hg. f_equal. by apply IH.
Qed.
End odict_facts.

(** ** Frame conditions *)

Lemma same_env_refl w : same_env w w.
Proof. by repeat split. Qed.

Lemma same_env_trans w1 w2 w3 : same_env w1 w2 → same_env w2 w3 → same_env w1 w3.
Proof.
  intros (?&?&?&?&?&?) (?&?&?&?&?&?). repeat split; try congruence. lia.
Qed.

Lemma vendor_call_frame r w :
  pool (snd (vendor_call r w)) = pool w ∧
  ticks (snd (vendor_call r w)) = ticks w ∧
  next_oid (snd (vendor_call r w)) = next_oid w ∧
  trace (snd (vendor_call r w)) = r :: trace w ∧
  same_env w (snd (vendor_call r w)).
Proof.
  unfold vendor_call. destruct (vendor w (length (trace w))); simpl;
    repeat split; done.
Qed.

Lemma vendor_call_raise r w ex w' :
  vendor_call r w = (Raise ex, w') → ∃ msg, ex = VendorError msg.
Proof.
  unfold vendor_call. destruct (vendor w (length (trace w))); intros Heq;
    inversion Heq; eauto.
Qed.

Lemma disconnect_frame conn w :
  pool (snd (disconnect conn w)) = pool w ∧
  ticks (snd (disconnect conn w)) = ticks w ∧
  next_oid (snd (disconnect conn w)) = next_oid w ∧
  same_env w (snd (disconnect conn w)).
Proof.
  unfold disconnect. destruct (client conn); [destruct (is_connected conn)|];
    try (simpl; repeat split; done).
  pose proof (vendor_call_frame VDisconnect w) as (Hp & Ht & Ho & _ & He).
  destruct (vendor_call VDisconnect w) as [[r|ex] w1]; simpl in *; auto.
Qed.

Lemma disconnect_trace conn w :
  trace (snd (disconnect conn w)) = trace w ∨
  trace (snd (disconnect conn w)) = VDisconnect :: trace w.
Proof.
  unfold disconnect. destruct (client conn); [destruct (is_connected conn)|];
    try (simpl; auto; fail).
  pose proof (vendor_call_frame VDisconnect w) as (_ & _ & _ & Htr & _).
  destruct (vendor_call VDisconnect w) as [[r|ex] w1]; simpl in *; auto.
Qed.

Lemma connect_frame conn tok ctid w :
  pool (snd (connect conn tok ctid w)) = pool w ∧
  ticks (snd (connect conn tok ctid w)) = ticks w ∧
  next_oid (snd (connect conn tok ctid w)) = next_oid w ∧
  same_env w (snd (connect conn tok ctid w)).
Proof.
  unfold connect, sdk_step, vendor_call. destruct (negb (HAS_CTRADER_API w)).
  { simpl. repeat split; done. }
  simpl.
  destruct (sdk w (sdk_calls w)) as [[msg|msg|msg]|]; simpl;
    try (repeat split; done);
    destruct (vendor w (length (trace w))); simpl; try (repeat split; done);
    destruct (vendor w (S (length (trace w)))); simpl; repeat split; done.
Qed.

(** ** Choosing the session to evict *)

Lemma find_oldest_fold conns : ∀ acc,
  let r := fold_left oldest_step conns acc in
  (∀ k s, In (k, s) conns → snd r ≤ last_used s) ∧
  ((r = acc ∧ ∀ k s, In (k, s) conns → snd acc ≤ last_used s) ∨
   (∃ k s, In (k, s) conns ∧ fst r = Some k ∧ snd r = last_used s ∧
           last_used s < snd acc)).
Proof.
  induction conns as [|[k0 s0] conns IH]; intros acc; simpl.
  - split; [tauto|]. left. split; [done | tauto].
  - specialize (IH (oldest_step acc (k0, s0))). simpl in IH.
    destruct IH as [Hmin Hsel]. unfold oldest_step in *. simpl in *.
    destruct (Z.ltb_spec (last_used s0) (snd acc)) as [Hlt|Hge]; simpl in *.
    + split.
      * intros k s [Heq|Hin]; [|eauto]. inversion Heq; subst.
        destruct Hsel as [[-> _]|(k' & s' & _ & _ & -> & Hlt')]; simpl; lia.
      * right. destruct Hsel as [[-> _]|(k' & s' & Hin & Hk & Hs & Hlt')].
        -- exists k0, s0. simpl. auto.
        -- exists k', s'. split_and!; auto. lia.
    + split.
      * intros k s [Heq|Hin]; [|eauto]. inversion Heq; subst.
        destruct Hsel as [[-> _]|(k' & s' & _ & _ & -> & Hlt')]; simpl; lia.
      * destruct Hsel as [[-> Hall]|(k' & s' & Hin & Hk & Hs & Hlt')].
        -- left. split; [done|]. intros k s [Heq|Hin]; [|eauto].
           inversion Heq; subst. lia.
        -- right. exists k', s'. split_and!; auto.
Qed.

(** With the sentinel [t], [find_oldest] selects an entry with the least
    [last_used], provided some entry is older than [t]. *)
Lemma find_oldest_selects t conns :
  (∃ k s, In (k, s) conns ∧ last_used s < t) →
  ∃ k s, In (k, s) conns ∧ fst (find_oldest t conns) = Some k ∧
         ∀ k' s', In (k', s') conns → last_used s ≤ last_used s'.
Proof.
  intros (k1 & s1 & Hin1 & Hlt1). unfold find_oldest.
  destruct (find_oldest_fold conns (None, t)) as [Hmin Hsel]. simpl in *.
  destruct Hsel as [[_ Hall]|(k & s & Hin & Hk & Hs & _)].
  - specialize (Hall _ _ Hin1). lia.
  - exists k, s. split_and!; auto. intros k' s' Hin'. rewrite <- Hs. eauto.
Qed.

(** Without an entry older than the sentinel, nothing is selected. *)
Lemma find_oldest_none t conns :
  (∀ k s, In (k, s) conns → t ≤ last_used s) →
  find_oldest t conns = (None, t).
Proof.
  intros Hall. unfold find_oldest.
  destruct (find_oldest_fold conns (None, t)) as [Hmin Hsel]. simpl in *.
  destruct Hsel as [[-> _]|(k & s & Hin & _ & _ & Hlt)]; [done|].
  specialize (Hall _ _ Hin). lia.
Qed.

Lemma find_oldest_key_present t conns k :
  fst (find_oldest t conns) = Some k →
  ∃ s, In (k, s) conns ∧ ∀ k' s', In (k', s') conns → last_used s ≤ last_used s'.
Proof.
  unfold find_oldest. intros Hk.
  destruct (find_oldest_fold conns (None, t)) as [Hmin Hsel]. simpl in *.
  destruct Hsel as [[Heq _]|(k' & s & Hin & Hk' & Hs & _)].
  - rewrite Heq in Hk. discriminate.
  - rewrite Hk in Hk'. inversion Hk'; subst. exists s. split; [done|].
    intros k0 s0 Hin0. rewrite <- Hs. eauto.
Qed.

Lemma od_In_get {V : Type} (k : string) (s : V) (d : list (string * V)) :
  In (k, s) d → ∃ s', od_get k d = Some s'.
Proof.
  intros Hin. destruct (od_get k d) as [s'|] eqn:Hg; [eauto|].
  apply od_get_None_keys in Hg. exfalso. apply Hg.
  change k with (fst (k, s)). by apply in_map.
Qed.

(** ** [_remove_oldest_idle_connection] *)

(** The method returns normally.  Either the pool is left as it was
    (the map is empty, or no entry is older than the clock reading, or
    the selected key is the empty string), or one entry with the least
    [last_used] is deleted. *)
Lemma remove_oldest_spec w :
  ∃ w', _remove_oldest_idle_connection w = (Ok tt, w') ∧
    HAS_CTRADER_API w' = HAS_CTRADER_API w ∧ clock w' = clock w ∧
    vendor w' = vendor w ∧ next_oid w' = next_oid w ∧
    (ticks w ≤ ticks w' ≤ S (ticks w))%nat ∧
    (trace w' = trace w ∨ trace w' = VDisconnect :: trace w) ∧
    ((pool w' = pool w ∧
      (connections (pool w) = [] ∨
       (∀ k s, In (k, s) (connections (pool w)) → clock w (ticks w) ≤ last_used s) ∨
       In "" (od_keys (connections (pool w)))))
     ∨
     (∃ k s, In (k, s) (connections (pool w)) ∧
        (∀ k' s', In (k', s') (connections (pool w)) → last_used s ≤ last_used s') ∧
        ticks w' = S (ticks w) ∧
        pool w' = with_connections (od_del k (connections (pool w))) (pool w))).
Proof.
  unfold _remove_oldest_idle_connection, bind, get_pool. simpl.
  destruct (connections (pool w)) as [|kv conns] eqn:Hc.
  { exists w. unfold ret. split_and!; try done; try lia; auto. }
  rewrite <- Hc. unfold now. simpl.
  set (w1 := {| pool := pool w; HAS_CTRADER_API := HAS_CTRADER_API w;
                clock := clock w; ticks := S (ticks w); vendor := vendor w;
                trace := trace w; next_oid := next_oid w; sdk := sdk w;
        sdk_calls := sdk_calls w; fromtimestamp := fromtimestamp w |}).
  destruct (fst (find_oldest (clock w (ticks w)) (connections (pool w)))) as [k|] eqn:Hf.
  - destruct (find_oldest_key_present _ _ _ Hf) as (s & Hin & Hmin).
    destruct (String.eqb k "") eqn:Hk.
    + apply String.eqb_eq in Hk. subst k. exists w1. unfold ret.
      split_and!; try done; simpl; try lia; [by left|]. left. split; [done|].
      right. right. change "" with (fst ("", s)). by apply in_map.
    + destruct (od_In_get _ _ _ Hin) as [s' Hg]. rewrite Hg.
      destruct (disconnect_frame s' w1) as (Hp & Ht & Ho & He).
      pose proof (disconnect_trace s' w1) as Htr.
      destruct He as (Ha & Hcl & Hv & _).
      eexists. split; [reflexivity|]. unfold del_connection, modify_pool. simpl.
      rewrite Ha, Hcl, Hv, Ho, Ht, Hp. simpl.
      split_and!; try done; try lia. right. exists k, s. split_and!; auto.
  - exists w1. unfold ret. split_and!; try done; simpl; try lia; [by left|]. left.
    split; [done|]. right. left. intros k s Hin.
    destruct (Z.lt_ge_cases (last_used s) (clock w (ticks w))) as [Hlt|]; [|lia].
    destruct (find_oldest_selects (clock w (ticks w)) (connections (pool w)))
      as (k' & s' & _ & Hsel & _); [eauto|]. congruence.
Qed.

(** ** [get_connection] *)

Ltac env_tac :=
  unfold same_env; simpl; split_and!; first [congruence | lia].

Lemma with_stats_id p : with_stats (stats p) p = p.
Proof. by destruct p. Qed.

(** What a connect attempt leaves alone, and how it ends. *)
Lemma connect_or_raise_spec conn tok ctid w r w' :
  connect_or_raise conn tok ctid w = (r, w') →
  pool w' = pool w ∧ ticks w' = ticks w ∧ next_oid w' = next_oid w ∧
  same_env w w' ∧ sdk w' = sdk w ∧
  (length (trace w) ≤ length (trace w'))%nat ∧
  if HAS_CTRADER_API w then
    (∃ cl,
       r = Ok (set_connection_count (connection_count conn + 1)
                 (set_is_connected true (set_client (Some cl) conn))) ∧
       handshake_done w w' ∧
       trace w' = VAuth ctid tok
                    :: VConnect (String.eqb (environment conn) "live") :: trace w)
    ∨ (∃ msg, r = Raise (VendorError msg) ∧ handshake_failed w w' msg)
  else r = Ok (set_is_connected true conn) ∧ w' = w.
Proof.
  unfold connect_or_raise, connect, sdk_step, vendor_call, handshake_failed,
    handshake_done.
  destruct (HAS_CTRADER_API w) eqn:Hapi; simpl.
  - destruct (sdk w (sdk_calls w)) as [[m|m|m]|] eqn:Hsdk; simpl.
    + intros Heq; inversion Heq; subst; clear Heq; simpl.
      split_and!; try done. right. exists m. done.
    + intros Heq; inversion Heq; subst; clear Heq; simpl.
      split_and!; try done. right. exists m. done.
    + destruct (vendor w (length (trace w))) as [m1|r1] eqn:Hv1; simpl;
        intros Heq; inversion Heq; subst; clear Heq; simpl;
        (split_and!; try done; try lia); right.
      * exists m1. split; [done|]. split; [done|]. exists (trace w). eexists.
        split; [done|]. left. split; [done|]. by rewrite Hv1.
      * exists m. split; [done|]. split; [done|]. exists (trace w). eexists.
        split; [done|]. left. split; [done|]. by rewrite Hv1.
    + destruct (vendor w (length (trace w))) as [m1|r1] eqn:Hv1; simpl.
      * intros Heq; inversion Heq; subst; clear Heq; simpl.
        split_and!; try done; try lia. right.
        exists m1. split; [done|]. split; [done|]. exists (trace w). eexists.
        split; [done|]. left. split; [done|]. by rewrite Hv1.
      * destruct (vendor w (S (length (trace w)))) as [m2|r2] eqn:Hv2; simpl;
          intros Heq; inversion Heq; subst; clear Heq; simpl;
          (split_and!; try done; try lia).
        -- right. exists m2. split; [done|]. split; [done|]. exists (trace w). eexists.
           split; [done|]. right. eauto.
        -- left. eexists. split; [reflexivity|]. split; [|done].
           split; [done|]. split; [done|]. exists (trace w). eexists _, _, _, _, _.
           eauto.
  - intros Heq; inversion Heq; subst; clear Heq; simpl.
    split_and!; done.
Qed.

Lemma create_connection_spec account env access_token ctid w r w' :
  create_connection account env access_token ctid w = (r, w') →
  ∃ w1, check_limit w = (Ok tt, w1) ∧
        creation_outcome account env access_token ctid w1 r w'.
Proof.
  assert (∃ w1, check_limit w = (Ok tt, w1)) as [w1 Hw1].
  { unfold check_limit, bind, get_pool, ret. destruct (_ >=? _); [|eauto].
    destruct (remove_oldest_spec w) as (w1 & -> & _). eauto. }
  unfold create_connection. unfold bind at 1.
  rewrite Hw1. intros Hrun. exists w1. split; [done|].
  unfold new_wrapper, bind, fresh_oid, now, ret in Hrun. simpl in Hrun.
  unfold creation_outcome. fold (has_credentials access_token ctid) in Hrun.
  destruct (has_credentials access_token ctid) eqn:Hcred.
  - match type of Hrun with
    | context [connect_or_raise ?c ?t ?i ?w0] =>
        pose proof (connect_or_raise_spec c t i w0) as Hspec;
        destruct (connect_or_raise c t i w0) as [r0 w2] eqn:Hconn
    end.
    destruct (Hspec _ _ eq_refl) as (Hp & Ht & Ho & He & _ & _ & Hout).
    clear Hspec. simpl in *.
    destruct He as (Ha & Hc & Hv & Hm & Hd & Hl). simpl in *.
    assert ((∃ c, r0 = Ok c ∧ is_fresh account env w1 c) ∨
            (∃ msg, r0 = Raise (VendorError msg) ∧ HAS_CTRADER_API w1 = true))
      as [(c & -> & Hfresh)|(msg & -> & Hapi)].
    { destruct (HAS_CTRADER_API w1).
      - destruct Hout as [(cl & -> & _)|(msg & -> & _)]; [left|right; eauto].
        eexists. split; [reflexivity|]. repeat split.
      - destruct Hout as [-> _]. left. eexists. split; [reflexivity|].
        repeat split. }
    + unfold store_connection, stat_incr, modify_pool in Hrun.
      simpl in Hrun. inversion Hrun; subst; clear Hrun. simpl.
      split; [env_tac|]. split; [congruence|]. split; [congruence|].
      split; [done|].
      left. eexists. split; [reflexivity|]. rewrite Hp. simpl. done.
    + inversion Hrun; subst; clear Hrun.
      split; [env_tac|]. split; [congruence|]. split; [congruence|].
      split; [done|].
      right. eexists. split_and!; eauto.
  - unfold store_connection, modify_pool in Hrun. simpl in Hrun.
    inversion Hrun; subst; clear Hrun. simpl.
    split; [env_tac|]. split; [done|]. split; [done|]. split; [done|].
    left. eexists. split; [reflexivity|]. split; [repeat split|].
    destruct (pool w1); reflexivity.
Qed.

(** The three ways through the lookup at the head of [get_connection]. *)
Lemma get_connection_reuse account env access_token ctid w conn :
  od_get (conn_key account env) (connections (pool w)) = Some conn →
  is_connected conn = true →
  get_connection account env access_token ctid w =
    (Ok (set_last_used (clock w (ticks w)) conn),
     {| pool :=
          with_stats (bump "connections_reused" (stats (pool w)))
            (with_connections
               (od_set (conn_key account env)
                  (set_last_used (clock w (ticks w)) conn) (connections (pool w)))
               (pool w));
        HAS_CTRADER_API := HAS_CTRADER_API w; clock := clock w;
        ticks := S (ticks w); vendor := vendor w; trace := trace w;
        next_oid := next_oid w; sdk := sdk w;
        sdk_calls := sdk_calls w; fromtimestamp := fromtimestamp w |}).
Proof.
  intros Hg Hc. unfold get_connection, bind, get_pool. simpl. rewrite Hg, Hc.
  reflexivity.
Qed.

Lemma get_connection_stale account env access_token ctid w conn :
  od_get (conn_key account env) (connections (pool w)) = Some conn →
  is_connected conn = false →
  get_connection account env access_token ctid w =
    create_connection account env access_token ctid
      (with_pool
         (with_connections (od_del (conn_key account env) (connections (pool w)))
            (pool w)) w).
Proof.
  intros Hg Hc. unfold get_connection, bind, get_pool. simpl. rewrite Hg, Hc.
  reflexivity.
Qed.

Lemma get_connection_absent account env access_token ctid w :
  od_get (conn_key account env) (connections (pool w)) = None →
  get_connection account env access_token ctid w =
    create_connection account env access_token ctid w.
Proof.
  intros Hg. unfold get_connection, bind, get_pool. simpl. by rewrite Hg.
Qed.

Arguments stat_get : simpl never.
Arguments bump : simpl never.

Lemma stat_get_bump_eq k s : stat_get (bump k s) k = stat_get s k + 1.
Proof. unfold bump, stat_get. by rewrite lookup_insert_eq. Qed.

Lemma stat_get_bump_ne k k' s : k ≠ k' → stat_get (bump k s) k' = stat_get s k'.
Proof. intros Hne. unfold bump, stat_get. by rewrite lookup_insert_ne. Qed.

Lemma check_limit_below w :
  Z.of_nat (pool_size w) < max_connections (pool w) → check_limit w = (Ok tt, w).
Proof.
  intros Hlt. unfold check_limit, bind, get_pool, ret, pool_size in *.
  destruct (Z.geb_spec (Z.of_nat (length (connections (pool w))))
              (max_connections (pool w))); [lia | done].
Qed.

(** At the limit, with every stored stamp in the past and no empty key,
    the check deletes one entry with the least [last_used]. *)
Lemma check_limit_full w w1 :
  stamps_past w → ¬ In "" (od_keys (connections (pool w))) →
  connections (pool w) ≠ [] →
  max_connections (pool w) ≤ Z.of_nat (pool_size w) →
  check_limit w = (Ok tt, w1) →
  HAS_CTRADER_API w1 = HAS_CTRADER_API w ∧ clock w1 = clock w ∧
  vendor w1 = vendor w ∧ next_oid w1 = next_oid w ∧ ticks w1 = S (ticks w) ∧
  ∃ k s, In (k, s) (connections (pool w)) ∧
    (∀ k' s', In (k', s') (connections (pool w)) → last_used s ≤ last_used s') ∧
    pool w1 = with_connections (od_del k (connections (pool w))) (pool w).
Proof.
  intros Hpast Hkey Hne Hfull. unfold check_limit, bind, get_pool, ret, pool_size in *.
  destruct (Z.geb_spec (Z.of_nat (length (connections (pool w))))
              (max_connections (pool w))); [|lia].
  destruct (remove_oldest_spec w) as (w' & -> & Ha & Hc & Hv & Ho & Ht & _ & Hcase).
  intros Heq. inversion Heq; subst w'. clear Heq.
  destruct Hcase as [[_ [Hnil|[Hold|Hin]]]|(k & s & Hin & Hmin & Ht' & Hp)].
  - done.
  - destruct (connections (pool w)) as [|[k s] conns] eqn:Hc'; [done|].
    specialize (Hold k s (or_introl eq_refl)).
    specialize (Hpast k s). rewrite Hc' in Hpast.
    specialize (Hpast (or_introl eq_refl)). lia.
  - done.
  - split_and!; auto. eauto.
Qed.

Lemma clock_increasing_mono w i j :
  clock_increasing w → (i ≤ j)%nat → clock w i ≤ clock w j.
Proof.
  intros Hinc Hle. induction Hle as [|j Hle IH]; [lia|].
  specialize (Hinc j). lia.
Qed.

(** ** The session bound *)

Lemma conn_key_nonempty account env : conn_key account env ≠ "".
Proof. unfold conn_key. destruct account; discriminate. Qed.

Lemma od_keys_set_In {V : Type} (k k' : string) (v : V) d :
  In k' (od_keys (od_set k v d)) → k' = k ∨ In k' (od_keys d).
Proof.
  unfold od_keys. intros Hin. apply in_map_iff in Hin as [[k0 v0] [Hfst Hin]].
  simpl in Hfst. subst k0. apply od_set_In in Hin as [Hin|[-> _]]; [|auto].
  right. change k' with (fst (k', v0)). by apply in_map.
Qed.

Lemma od_keys_del_In {V : Type} (k k' : string) (d : list (string * V)) :
  In k' (od_keys (od_del k d)) → In k' (od_keys d).
Proof.
  unfold od_keys. intros Hin. apply in_map_iff in Hin as [[k0 v0] [Hfst Hin]].
  simpl in Hfst. subst k0. apply od_del_In in Hin as [Hin _].
  change k' with (fst (k', v0)). by apply in_map.
Qed.

(** From a pool strictly below its limit, the creation path ends in a
    pool within its limit. *)
Lemma creation_outcome_ok account env access_token ctid w1 r w' :
  1 ≤ max_connections (pool w1) → clock_increasing w1 → stamps_past w1 →
  NoDup (od_keys (connections (pool w1))) →
  ¬ In "" (od_keys (connections (pool w1))) →
  Z.of_nat (pool_size w1) < max_connections (pool w1) →
  creation_outcome account env access_token ctid w1 r w' →
  pool_ok w'.
Proof.
  intros Hmax Hinc Hpast Hnd Hkey Hsize (Henv & Ht & Ho & _ & Hcase).
  destruct Henv as (Ha & Hc & Hv & Hm & Hd & Hl).
  assert (clock_increasing w') as Hinc' by (unfold clock_increasing; by rewrite Hc).
  unfold pool_ok, stamps_past, pool_size in *. rewrite Hm, Hc, Ht.
  destruct Hcase as [(c & -> & Hfresh & Hp)|(msg & -> & Hp & _)]; rewrite Hp.
  - simpl. split_and!; auto.
    + intros k s Hin. apply od_set_In in Hin as [Hin|[-> ->]].
      * specialize (Hpast _ _ Hin). specialize (Hinc (ticks w1)). lia.
      * destruct Hfresh as (_ & _ & _ & -> & _). apply Hinc.
    + by apply od_set_NoDup.
    + intros Hin. apply od_keys_set_In in Hin as [Heq|Hin]; [|done].
      by apply (conn_key_nonempty account env).
    + pose proof (od_set_length_le (conn_key account env) c (connections (pool w1))).
      lia.
  - split_and!; auto; [|lia].
    intros k s Hin. specialize (Hpast _ _ Hin). specialize (Hinc (ticks w1)). lia.
Qed.

Lemma create_connection_ok account env access_token ctid w r w' :
  pool_ok w →
  create_connection account env access_token ctid w = (r, w') →
  pool_ok w' ∧ same_env w w'.
Proof.
  intros (Hmax & Hinc & Hpast & Hnd & Hkey & Hsize) Hrun.
  destruct (create_connection_spec _ _ _ _ _ _ _ Hrun) as (w1 & Hchk & Hout).
  destruct (Z.lt_ge_cases (Z.of_nat (pool_size w)) (max_connections (pool w)))
    as [Hlt|Hge].
  - rewrite check_limit_below in Hchk by done. inversion Hchk; subst w1.
    split; [by eapply creation_outcome_ok | apply Hout].
  - assert (connections (pool w) ≠ []) as Hne.
    { unfold pool_size in Hge. destruct (connections (pool w)); [simpl in Hge; lia|done]. }
    destruct (check_limit_full _ _ Hpast Hkey Hne Hge Hchk)
      as (Ha & Hc & Hv & Ho & Ht & k & s & Hin & Hmin & Hp).
    assert (same_env w w1) as Henv.
    { unfold same_env. rewrite Ha, Hc, Hv, Ht, Hp. simpl. split_and!; auto. }
    split; [|eapply same_env_trans; [done | apply Hout]].
    eapply creation_outcome_ok; [..|exact Hout]; rewrite ?Hp, ?Hc, ?Ht; simpl.
    + done.
    + unfold clock_increasing. by rewrite Hc.
    + unfold stamps_past. rewrite Hp, Hc, Ht. simpl. intros k' s' Hin'.
      apply od_del_In in Hin' as [Hin' _]. specialize (Hpast _ _ Hin').
      specialize (Hinc (ticks w)). lia.
    + by apply od_del_NoDup.
    + intros Hin'. by apply od_keys_del_In in Hin'.
    + unfold pool_size in *. rewrite Hp. simpl.
      pose proof (In_od_get _ _ _ Hnd Hin) as Hg.
      pose proof (od_del_length_present _ _ _ Hnd Hg). lia.
Qed.

(** One call keeps the pool within its limit. *)
Lemma get_connection_ok account env access_token ctid w r w' :
  pool_ok w →
  get_connection account env access_token ctid w = (r, w') →
  pool_ok w' ∧ same_env w w'.
Proof.
  intros Hok Hrun.
  destruct (od_get (conn_key account env) (connections (pool w))) as [conn|] eqn:Hg.
  - destruct (is_connected conn) eqn:Hc.
    + rewrite (get_connection_reuse _ _ _ _ _ _ Hg Hc) in Hrun.
      inversion Hrun; subst; clear Hrun.
      destruct Hok as (Hmax & Hinc & Hpast & Hnd & Hkey & Hsize).
      assert (In (conn_key account env) (od_keys (connections (pool w)))) as Hin.
      { apply od_get_Some_In in Hg.
        change (conn_key account env) with (fst (conn_key account env, conn)).
        by apply in_map. }
      split; [|unfold same_env; simpl; split_and!; auto].
      unfold pool_ok, stamps_past, pool_size, clock_increasing in *. simpl.
      rewrite od_keys_set_present, od_set_length_present by done.
      split_and!; auto.
      intros k s Hin'. apply od_set_In in Hin' as [Hin'|[-> ->]].
      * specialize (Hpast _ _ Hin'). specialize (Hinc (ticks w)). lia.
      * simpl. apply Hinc.
    + rewrite (get_connection_stale _ _ _ _ _ _ Hg Hc) in Hrun.
      apply create_connection_ok in Hrun; [done|].
      destruct Hok as (Hmax & Hinc & Hpast & Hnd & Hkey & Hsize).
      unfold pool_ok, stamps_past, pool_size, clock_increasing in *. simpl.
      split_and!; auto.
      * intros k s Hin. apply od_del_In in Hin as [Hin _]. eauto.
      * by apply od_del_NoDup.
      * intros Hin. by apply od_keys_del_In in Hin.
      * pose proof (od_del_length_le (conn_key account env) (connections (pool w))).
        lia.
  - rewrite (get_connection_absent _ _ _ _ _ Hg) in Hrun.
    by apply create_connection_ok in Hrun.
Qed.

Lemma run_calls_ok cs : ∀ w,
  pool_ok w →
  pool_ok (run_calls cs w) ∧
  max_connections (pool (run_calls cs w)) = max_connections (pool w).
Proof.
  induction cs as [|c cs IH]; intros w Hok; [done|].
  change (run_calls (c :: cs) w) with (run_calls cs (run_call c w)).
  unfold run_call.
  destruct (get_connection (c_account c) (c_environment c) (c_access_token c)
              (c_ctid c) w) as [r w'] eqn:Hrun.
  destruct (get_connection_ok _ _ _ _ _ _ _ Hok Hrun) as [Hok' Henv].
  destruct (IH w' Hok') as [Hok'' Hmax]. simpl. split; [done|].
  rewrite Hmax. apply Henv.
Qed.

(** A call for a new key on a full pool evicts exactly one entry, one
    with the least [last_used]. *)
Lemma get_connection_at_capacity account env access_token ctid w r w' :
  pool_ok w →
  od_get (conn_key account env) (connections (pool w)) = None →
  Z.of_nat (pool_size w) = max_connections (pool w) →
  get_connection account env access_token ctid w = (r, w') →
  ∃ victim_key victim,
    od_get victim_key (connections (pool w)) = Some victim ∧
    (∀ k s, od_get k (connections (pool w)) = Some s →
            last_used victim ≤ last_used s) ∧
    S (length (od_del victim_key (connections (pool w)))) = pool_size w ∧
    connections (pool w') =
      match r with
      | Ok c => od_set (conn_key account env) c
                  (od_del victim_key (connections (pool w)))
      | Raise _ => od_del victim_key (connections (pool w))
      end.
Proof.
  intros (Hmax & Hinc & Hpast & Hnd & Hkey & Hsize) Hg Hfull Hrun.
  rewrite (get_connection_absent _ _ _ _ _ Hg) in Hrun.
  destruct (create_connection_spec _ _ _ _ _ _ _ Hrun) as (w1 & Hchk & Hout).
  assert (connections (pool w) ≠ []) as Hne.
  { unfold pool_size in Hfull. destruct (connections (pool w)); [simpl in Hfull; lia|done]. }
  destruct (check_limit_full _ _ Hpast Hkey Hne ltac:(lia) Hchk)
    as (_ & _ & _ & _ & _ & k & s & Hin & Hmin & Hp).
  pose proof (In_od_get _ _ _ Hnd Hin) as Hgk.
  exists k, s. split_and!; auto.
  - intros k' s' Hg'. apply od_get_Some_In in Hg'. eauto.
  - unfold pool_size. by eapply od_del_length_present.
  - destruct Hout as (_ & _ & _ & _ & [(c & -> & _ & Hp')|(msg & -> & Hp' & _)]);
      rewrite Hp', Hp; reflexivity.
Qed.

(** C1 (as amended): with a limit of at least one and a clock whose
    readings strictly increase, no sequence of [get_connection] calls
    that run one after another, each to its end before the next begins,
    takes the number of sessions above the limit; and a call for a key
    that is not in the map, arriving when the map is full, evicts exactly
    one session, one whose [last_used] is the least among the existing
    sessions, before the new one is inserted.  Calls that overlap are
    not bounded (see [overlapping_calls_exceed_limit]). *)
Theorem pool_never_exceeds_limit (cs : list Call) (w : World) :
  pool_ok w →
  (Z.of_nat (pool_size (run_calls cs w)) ≤ max_connections (pool w)) ∧
  pool_ok (run_calls cs w) ∧
  (∀ account env access_token ctid r w',
     od_get (conn_key account env) (connections (pool w)) = None →
     Z.of_nat (pool_size w) = max_connections (pool w) →
     get_connection account env access_token ctid w = (r, w') →
     ∃ victim_key victim,
       od_get victim_key (connections (pool w)) = Some victim ∧
       (∀ k s, od_get k (connections (pool w)) = Some s →
               last_used victim ≤ last_used s) ∧
       S (length (od_del victim_key (connections (pool w)))) = pool_size w ∧
       connections (pool w') =
         match r with
         | Ok c => od_set (conn_key account env) c
                     (od_del victim_key (connections (pool w)))
         | Raise _ => od_del victim_key (connections (pool w))
         end).
Proof.
  intros Hok. destruct (run_calls_ok cs w Hok) as [Hok' Hmax].
  split_and!; [|done|].
  - rewrite <- Hmax. apply Hok'.
  - intros. by eapply get_connection_at_capacity.
Qed.

(** ** Reuse, creation and failure *)

(** The limit check never raises, changes nothing but the map and the
    clock index, and at most deletes one key. *)
Lemma check_limit_frame w r w1 :
  check_limit w = (r, w1) →
  r = Ok tt ∧ same_env w w1 ∧ next_oid w1 = next_oid w ∧
  (trace w1 = trace w ∨ trace w1 = VDisconnect :: trace w) ∧
  pool w1 = with_connections (connections (pool w1)) (pool w) ∧
  (connections (pool w1) = connections (pool w) ∨
   ∃ k, connections (pool w1) = od_del k (connections (pool w))).
Proof.
  unfold check_limit, bind, get_pool, ret.
  destruct (_ >=? _).
  - destruct (remove_oldest_spec w) as (w2 & -> & Ha & Hc & Hv & Ho & Ht & Htr & Hcase).
    intros Heq. inversion Heq; subst. clear Heq.
    destruct Hcase as [[Hp _]|(k & s & _ & _ & _ & Hp)]; rewrite Hp; simpl.
    + split; [done|]. split; [env_tac|]. split_and!; auto. by destruct (pool w).
    + split; [done|]. split; [unfold same_env; rewrite Hp; env_tac|].
      split_and!; eauto.
  - intros Heq. inversion Heq; subst.
    split; [done|]. split; [apply same_env_refl|]. split_and!; auto.
    by destruct (pool w1).
Qed.

(** A call that finds no connected session under its key runs the
    creation path on the map without that key. *)
Lemma get_connection_creation account env access_token ctid w r w' :
  (∀ conn, od_get (conn_key account env) (connections (pool w)) = Some conn →
           is_connected conn = false) →
  get_connection account env access_token ctid w = (r, w') →
  ∃ w1,
    same_env w w1 ∧ next_oid w1 = next_oid w ∧
    (trace w1 = trace w ∨ trace w1 = VDisconnect :: trace w) ∧
    _mock_positions (pool w1) = _mock_positions (pool w) ∧
    stats (pool w1) = stats (pool w) ∧
    (let d := od_del (conn_key account env) (connections (pool w)) in
     connections (pool w1) = d ∨ ∃ k, connections (pool w1) = od_del k d) ∧
    creation_outcome account env access_token ctid w1 r w'.
Proof.
  intros Hstale Hrun.
  set (w0 := with_pool
               (with_connections
                  (od_del (conn_key account env) (connections (pool w))) (pool w)) w).
  assert (create_connection account env access_token ctid w0 = (r, w')) as Hcreate.
  { destruct (od_get (conn_key account env) (connections (pool w))) as [conn|] eqn:Hg.
    - rewrite (get_connection_stale _ _ _ _ _ _ Hg (Hstale _ eq_refl)) in Hrun. done.
    - rewrite (get_connection_absent _ _ _ _ _ Hg) in Hrun.
      unfold w0. rewrite (od_del_absent _ _ Hg).
      replace (with_pool (with_connections (connections (pool w)) (pool w)) w)
        with w; [done|]. destruct w as [[] ? ? ? ? ? ?]; reflexivity. }
  destruct (create_connection_spec _ _ _ _ _ _ _ Hcreate) as (w1 & Hchk & Hout).
  destruct (check_limit_frame _ _ _ Hchk) as (_ & Henv & Ho & Htr & Hp & Hconns).
  exists w1. split_and!; auto; rewrite Hp; reflexivity.
Qed.

Lemma od_get_del_or {V : Type} (key : string) (d d1 : list (string * V)) :
  (d1 = od_del key d ∨ ∃ k, d1 = od_del k (od_del key d)) →
  od_get key d1 = None ∧ ∀ k s, In (k, s) d1 → In (k, s) d.
Proof.
  intros [->|[k ->]].
  - split; [apply od_get_del_eq|]. intros k s Hin. by apply od_del_In in Hin as [? _].
  - split.
    + destruct (decide (k = key)) as [->|Hne]; [apply od_get_del_eq|].
      rewrite od_get_del_ne by done. apply od_get_del_eq.
    + intros k' s Hin. apply od_del_In in Hin as [Hin _].
      by apply od_del_In in Hin as [? _].
Qed.

(** *** The handshake of a creating call *)

Lemma disconnect_sdk conn w :
  sdk (snd (disconnect conn w)) = sdk w ∧
  sdk_calls (snd (disconnect conn w)) = sdk_calls w.
Proof.
  unfold disconnect, vendor_call.
  destruct (client conn); [destruct (is_connected conn)|]; try done.
  destruct (vendor w (length (trace w))); done.
Qed.

Lemma check_limit_sdk w r w1 :
  check_limit w = (r, w1) → sdk w1 = sdk w ∧ sdk_calls w1 = sdk_calls w.
Proof.
  unfold check_limit, _remove_oldest_idle_connection, bind, get_pool, ret, now,
    raise, del_connection, modify_pool.
  intros Heq. repeat case_match; inversion Heq; subst; simpl; try done.
  match goal with
  | |- context [disconnect ?c ?w0] => destruct (disconnect_sdk c w0) as [Hs Hc]
  end.
  simpl in *. done.
Qed.

Lemma handshake_failed_from w0 w w' msg :
  sdk w = sdk w0 → sdk_calls w = sdk_calls w0 → vendor w = vendor w0 →
  (length (trace w0) ≤ length (trace w))%nat →
  handshake_failed w w' msg → handshake_failed w0 w' msg.
Proof.
  unfold handshake_failed. intros Hs Hc Hv Hl [H1 H2]. rewrite Hs, Hc, Hv in *.
  split; [done|]. destruct (sdk w0 (sdk_calls w0)) as [[m|m|m]|]; try done;
    destruct H2 as (tr & live & Hlen & H); exists tr, live; (split; [lia | done]).
Qed.

Lemma handshake_done_from w0 w w' :
  sdk w = sdk w0 → sdk_calls w = sdk_calls w0 → vendor w = vendor w0 →
  (length (trace w0) ≤ length (trace w))%nat →
  handshake_done w w' → handshake_done w0 w'.
Proof.
  unfold handshake_done. intros Hs Hc Hv Hl (H1 & H2 & H3). rewrite Hs, Hc, Hv in *.
  split; [done|]. split; [done|].
  destruct H3 as (tr & live & ctid & tok & r1 & r2 & Hlen & H).
  exists tr, live, ctid, tok, r1, r2. split; [lia | done].
Qed.



Lemma create_connection_events account env access_token ctid w r w' :
  create_connection account env access_token ctid w = (r, w') →
  if has_credentials access_token ctid && HAS_CTRADER_API w
  then (∃ c, r = Ok c ∧ handshake_done w w') ∨
       (∃ msg, r = Raise (VendorError msg) ∧ handshake_failed w w' msg)
  else (∃ c, r = Ok c) ∧ sdk_calls w' = sdk_calls w.
Proof.
  unfold create_connection. unfold bind at 1.
  destruct (check_limit w) as [r0 w1] eqn:Hchk.
  destruct (check_limit_frame _ _ _ Hchk) as (-> & Henv & _ & Htr & _).
  destruct (check_limit_sdk _ _ _ Hchk) as [Hs Hc].
  destruct Henv as (Ha & _ & Hv & _).
  unfold new_wrapper, bind, fresh_oid, now, ret. simpl.
  fold (has_credentials access_token ctid).
  destruct (has_credentials access_token ctid) eqn:Hcred; simpl.
  - match goal with
    | |- context [connect_or_raise ?c ?t ?i ?w0] =>
        pose proof (connect_or_raise_spec c t i w0) as Hspec;
        destruct (connect_or_raise c t i w0) as [r2 w2] eqn:Hconn
    end.
    destruct (Hspec _ _ eq_refl) as (_ & _ & _ & _ & _ & _ & Hout). clear Hspec.
    simpl in Hout. rewrite Ha in Hout.
    assert (length (trace w) ≤ length (trace w1))%nat as Hlen.
    { destruct Htr as [->| ->]; simpl; lia. }
    destruct (HAS_CTRADER_API w).
    + destruct Hout as [(cl & -> & Hdone & _)|(msg & -> & Hfail)].
      * unfold store_connection, stat_incr, modify_pool. simpl.
        intros Heq. inversion Heq; subst; clear Heq. left. eexists.
        split; [reflexivity|].
        apply (handshake_done_from w) in Hdone; [|done..].
        destruct Hdone as (H1 & H2 & H3). split_and!; done.
      * intros Heq. inversion Heq; subst; clear Heq. right. exists msg.
        split; [done|]. by apply (handshake_failed_from w) in Hfail.
    + destruct Hout as [-> ->].
      unfold store_connection, stat_incr, modify_pool. simpl.
      intros Heq. inversion Heq; subst; clear Heq. simpl. split; [eauto | done].
  - unfold store_connection, modify_pool. simpl.
    intros Heq. inversion Heq; subst; clear Heq. simpl. split; [eauto | done].
Qed.

Lemma get_connection_events account env access_token ctid w r w' :
  get_connection account env access_token ctid w = (r, w') →
  (∃ c, r = Ok c ∧ (handshake_done w w' ∨ sdk_calls w' = sdk_calls w)) ∨
  (∃ msg, r = Raise (VendorError msg) ∧ handshake_failed w w' msg ∧
          has_credentials access_token ctid = true ∧ HAS_CTRADER_API w = true).
Proof.
  intros Hrun.
  assert (∀ w0, sdk w0 = sdk w → sdk_calls w0 = sdk_calls w → vendor w0 = vendor w →
                trace w0 = trace w → HAS_CTRADER_API w0 = HAS_CTRADER_API w →
                create_connection account env access_token ctid w0 = (r, w') →
                (∃ c, r = Ok c ∧ (handshake_done w w' ∨ sdk_calls w' = sdk_calls w)) ∨
                (∃ msg, r = Raise (VendorError msg) ∧ handshake_failed w w' msg ∧
                        has_credentials access_token ctid = true ∧
                        HAS_CTRADER_API w = true)) as Hcreate.
  { intros w0 Hs Hc Hv Ht Ha Hcr. apply create_connection_events in Hcr.
    rewrite Ha in Hcr.
    destruct (has_credentials access_token ctid); simpl in Hcr;
      [destruct (HAS_CTRADER_API w)|].
    - destruct Hcr as [(c & -> & Hdone)|(msg & -> & Hfail)].
      + left. exists c. split; [done|]. left.
        apply (handshake_done_from w) in Hdone; [done|congruence..|].
        rewrite Ht. lia.
      + right. exists msg. split_and!; auto.
        apply (handshake_failed_from w) in Hfail; [done|congruence..|].
        rewrite Ht. lia.
    - destruct Hcr as [[c ->] Hc']. left. exists c. split; [done|]. right. congruence.
    - destruct Hcr as [[c ->] Hc']. left. exists c. split; [done|]. right. congruence. }
  destruct (od_get (conn_key account env) (connections (pool w))) as [conn|] eqn:Hg;
    [destruct (is_connected conn) eqn:Hc|].
  - rewrite (get_connection_reuse _ _ _ _ _ _ Hg Hc) in Hrun.
    inversion Hrun; subst; clear Hrun. left. eexists. split; [reflexivity|].
    by right.
  - rewrite (get_connection_stale _ _ _ _ _ _ Hg Hc) in Hrun.
    by apply Hcreate in Hrun.
  - rewrite (get_connection_absent _ _ _ _ _ Hg) in Hrun.
    by apply Hcreate in Hrun.
Qed.


(** C5: a call whose key maps to a connected session returns that very
    session with its [last_used] set to the current clock reading, adds
    one to the reuse counter and leaves the creation counter and the set
    of keys alone.  A call whose key maps to a disconnected session takes
    that entry out of the map and makes a new session object; it returns
    that object, connected, with empty caches, stored under the key and
    counted as created when credentials were given, unless a connect
    attempt was made during the call and the SDK raised in it: only then
    does the call raise, with the SDK's exception, and the key is left
    without an entry.  In particular a call without credentials, or
    without the SDK, always returns the new session. *)
Theorem get_connection_existing_key account env access_token ctid w conn r w' :
  od_get (conn_key account env) (connections (pool w)) = Some conn →
  get_connection account env access_token ctid w = (r, w') →
  (is_connected conn = true →
     r = Ok (set_last_used (clock w (ticks w)) conn) ∧
     od_get (conn_key account env) (connections (pool w')) =
       Some (set_last_used (clock w (ticks w)) conn) ∧
     oid (set_last_used (clock w (ticks w)) conn) = oid conn ∧
     od_keys (connections (pool w')) = od_keys (connections (pool w)) ∧
     reused_count w' = reused_count w + 1 ∧
     created_count w' = created_count w) ∧
  (is_connected conn = false →
     reused_count w' = reused_count w ∧
     next_oid w' = S (next_oid w) ∧
     ((∃ c,
         r = Ok c ∧
         od_get (conn_key account env) (connections (pool w')) = Some c ∧
         oid c = next_oid w ∧
         is_connected c = true ∧ positions_cache c = [] ∧
         orders_cache c = [] ∧ account_info_cache c = None ∧
         created_count w' =
           created_count w + (if has_credentials access_token ctid then 1 else 0))
      ∨
      (∃ msg,
         r = Raise (VendorError msg) ∧
         has_credentials access_token ctid = true ∧
         HAS_CTRADER_API w = true ∧
         handshake_failed w w' msg ∧
         od_get (conn_key account env) (connections (pool w')) = None ∧
         created_count w' = created_count w)) ∧
     (has_credentials access_token ctid && HAS_CTRADER_API w = false →
      ∃ c, r = Ok c)).
Proof.
  intros Hg Hrun. split; intros Hc.
  - rewrite (get_connection_reuse _ _ _ _ _ _ Hg Hc) in Hrun.
    inversion Hrun; subst; clear Hrun. unfold reused_count, created_count. simpl.
    split_and!; auto.
    + apply od_get_set_eq.
    + apply od_keys_set_present. apply od_get_Some_In in Hg.
      change (conn_key account env) with (fst (conn_key account env, conn)).
      by apply in_map.
    + apply stat_get_bump_eq.
    + by apply stat_get_bump_ne.
  - destruct (get_connection_creation account env access_token ctid w r w')
      as (w1 & Henv & Ho & _ & _ & Hs & Hconns & Hout); [congruence | done |].
    apply od_get_del_or in Hconns as [Hnone _].
    pose proof (get_connection_events _ _ _ _ _ _ _ Hrun) as Hev.
    destruct Hout as (_ & _ & Ho' & _ & [(c & -> & Hfresh & Hp)|(msg & -> & Hp & Hcred & Hapi)]);
      unfold reused_count, created_count; rewrite Hp; simpl.
    + destruct Hfresh as (Hoid & _ & _ & _ & Hcon & Hpc & Hoc & Hac & _).
      split.
      { rewrite Hs. destruct (has_credentials access_token ctid); [|done].
        by apply stat_get_bump_ne. }
      split; [congruence|]. split; [|eauto].
      left. exists c. split_and!; auto; [apply od_get_set_eq | congruence |].
      rewrite Hs. destruct (has_credentials access_token ctid).
      * apply stat_get_bump_eq.
      * lia.
    + rewrite Hs. split; [done|]. split; [congruence|].
      destruct Hev as [(c & Heq & _)|(msg' & Heq & Hfail & _ & Hapi')];
        [discriminate|]. inversion Heq; subst msg'.
      split.
      * right. exists msg. split_and!; auto.
      * rewrite Hcred, Hapi'. discriminate.
Qed.

(** C4 (as amended): a call that creates a session and returns stores
    it, connected, under its key; it adds one to the creation counter
    when credentials were supplied, and leaves the counter as it was when
    they were not. *)
Theorem creation_counter_follows_credentials account env access_token ctid w c w' :
  (∀ conn, od_get (conn_key account env) (connections (pool w)) = Some conn →
           is_connected conn = false) →
  get_connection account env access_token ctid w = (Ok c, w') →
  od_get (conn_key account env) (connections (pool w')) = Some c ∧
  oid c = next_oid w ∧ is_connected c = true ∧
  created_count w' =
    created_count w + (if has_credentials access_token ctid then 1 else 0).
Proof.
  intros Hstale Hrun.
  destruct (get_connection_creation _ _ _ _ _ _ _ Hstale Hrun)
    as (w1 & Henv & Ho & _ & _ & Hs & Hconns & Hout).
  destruct Hout as (_ & _ & _ & _ & [(c' & Heq & Hfresh & Hp)|(msg & Heq & _)]);
    [|discriminate].
  inversion Heq; subst c'; clear Heq.
  destruct Hfresh as (Hoid & _ & _ & _ & Hcon & _).
  unfold created_count. rewrite Hp. simpl.
  split_and!; auto; [apply od_get_set_eq | congruence |].
  destruct (has_credentials access_token ctid); rewrite Hs.
  - apply stat_get_bump_eq.
  - lia.
Qed.


(** *** Concrete runs *)

(** The scenario of two slots and keys A, B, A, C: B is evicted. *)
Example scenario_two_slots :
  let w := run_calls [plain_call "A"; plain_call "B"; plain_call "A"; plain_call "C"]
             (init_world true 2 no_mapping second_clock vendor_ok) in
  od_keys (connections (pool w)) = ["A_demo"; "C_demo"] ∧
  reused_count w = 1 ∧ created_count w = 0.
Proof. vm_compute. auto. Qed.

Lemma init_world_ok api max_conn mapper vnd :
  1 ≤ max_conn → pool_ok (init_world api max_conn mapper second_clock vnd).
Proof.
  intros Hmax. unfold pool_ok, clock_increasing, stamps_past, pool_size. simpl.
  split_and!; auto; try lia.
  - intros i. unfold second_clock. lia.
  - apply NoDup_nil_2.
Qed.

Lemma pool_never_exceeds_limit_witness :
  pool_ok (init_world true 2 no_mapping second_clock vendor_ok) ∧
  Z.of_nat (pool_size
    (run_calls [plain_call "A"; plain_call "B"; plain_call "A"; plain_call "C"]
       (init_world true 2 no_mapping second_clock vendor_ok))) ≤ 2.
Proof.
  assert (pool_ok (init_world true 2 no_mapping second_clock vendor_ok)) as Hok.
  { apply init_world_ok. lia. }
  split; [exact Hok|].
  exact (proj1 (pool_never_exceeds_limit
    [plain_call "A"; plain_call "B"; plain_call "A"; plain_call "C"] _ Hok)).
Defined.

(** C1 as stated fails: a pool configured with limit [0] holds a session
    after one call, and a pool with limit [1] holds two sessions after
    two calls that read the same clock value. *)
Lemma session_bound_counterexample :
  (max_connections (pool (init_world true 0 no_mapping second_clock vendor_ok)) = 0 ∧
   pool_size (run_calls [plain_call "A"]
                (init_world true 0 no_mapping second_clock vendor_ok)) = 1%nat) ∧
  (max_connections (pool (init_world true 1 no_mapping coarse_clock vendor_ok)) = 1 ∧
   pool_size (run_calls [plain_call "A"; plain_call "B"]
                (init_world true 1 no_mapping coarse_clock vendor_ok)) = 2%nat).
Proof. vm_compute. auto. Qed.

(** [get_connection] is its two parts, run one right after the other. *)
Lemma get_connection_split account env access_token ctid w :
  get_connection account env access_token ctid w =
  bind (get_connection_start account env access_token ctid)
       (get_connection_resume account env) w.
Proof.
  unfold get_connection, get_connection_start, get_connection_resume,
    create_connection, bind, get_pool.
  simpl.
  destruct (od_get (conn_key account env) (connections (pool w))) as [conn|];
    [destruct (is_connected conn); [reflexivity|]|].
  all: unfold del_connection, modify_pool; simpl.
  all: destruct (check_limit _) as [[[]|e] w1]; [|reflexivity].
  all: unfold new_wrapper, bind, fresh_oid, now, ret; simpl.
  all: destruct (truthy_str access_token && truthy_int ctid); simpl; try reflexivity.
  all: unfold store_connection, modify_pool; simpl; reflexivity.
Qed.

(** The bound of C1 is one of calls that do not overlap.  With limit 1,
    an empty pool and a clock that advances: a call for account A is
    suspended where it awaits its connect, a call for account B runs up
    to the same point, and both resume; each passed the limit check on
    the empty map, and the map ends with two sessions. *)
Example overlapping_calls_exceed_limit :
  let w0 := init_world true 1 no_mapping second_clock vendor_ok in
  let '(a, w1) := get_connection_start "A" "demo" (Some "token") (Some 42) w0 in
  let '(b, w2) := get_connection_start "B" "demo" (Some "token") (Some 42) w1 in
  match a, b with
  | Ok a, Ok b =>
      let w3 := snd (get_connection_resume "A" "demo" a w2) in
      let w4 := snd (get_connection_resume "B" "demo" b w3) in
      max_connections (pool w4) = 1 ∧
      od_keys (connections (pool w4)) = ["A_demo"; "B_demo"] ∧
      pool_size w4 = 2%nat
  | _, _ => False
  end.
Proof. vm_compute. auto. Qed.

Lemma get_connection_existing_key_witness :
  reused_count
    (snd (get_connection "A" "demo" None None
            (world_A true 2 second_clock vendor_ok))) =
  reused_count (world_A true 2 second_clock vendor_ok) + 1 ∧
  ∃ c,
    fst (get_connection "A" "demo" (Some "token") (Some 42)
           (world_A_stale true 2 second_clock vendor_ok)) = Ok c ∧
    oid c = 1%nat ∧ is_connected c = true.
Proof.
  split.
  - edestruct (get_connection_existing_key "A" "demo" None None
                 (world_A true 2 second_clock vendor_ok)) as [Hreuse _].
    + vm_compute. reflexivity.
    + apply surjective_pairing.
    + apply Hreuse. vm_compute. reflexivity.
  - edestruct (get_connection_existing_key "A" "demo" (Some "token") (Some 42)
                 (world_A_stale true 2 second_clock vendor_ok)) as [_ Hstale].
    + vm_compute. reflexivity.
    + apply surjective_pairing.
    + destruct (Hstale eq_refl)
        as (_ & _ & [(c & Hr & _ & Hoid & Hcon & _)|(msg & Hr & _)] & _).
      * exists c. split; [exact Hr|]. split; [exact Hoid | exact Hcon].
      * vm_compute in Hr. discriminate.
Defined.

Lemma creation_counter_follows_credentials_witness :
  created_count
    (snd (get_connection "A" "demo" (Some "token") (Some 42)
            (init_world true 2 no_mapping second_clock vendor_ok))) =
  created_count (init_world true 2 no_mapping second_clock vendor_ok) + 1.
Proof.
  edestruct (creation_counter_follows_credentials "A" "demo" (Some "token") (Some 42)
               (init_world true 2 no_mapping second_clock vendor_ok))
    as (_ & _ & _ & Hcount).
  - intros conn Hg. vm_compute in Hg. discriminate.
  - vm_compute. reflexivity.
  - exact Hcount.
Defined.

(** C4 as stated fails: a call without credentials on an empty pool
    creates a session, stores it connected, and the creation counter is
    what it was. *)
Lemma creation_without_credentials_not_counted :
  ∃ c w',
    get_connection "A" "demo" None None
      (init_world true 2 no_mapping second_clock vendor_ok) = (Ok c, w') ∧
    od_get "A_demo" (connections (pool w')) = Some c ∧
    is_connected c = true ∧
    created_count (init_world true 2 no_mapping second_clock vendor_ok) = 0 ∧
    created_count w' = 0.
Proof. eexists. eexists. split; [vm_compute; reflexivity|]. vm_compute. auto. Qed.



(** ** Operations that go through a credential-less [get_connection] *)

(** Without credentials [get_connection] returns normally, with the
    session that is then stored under the key. *)
Lemma get_connection_plain account env w :
  ∃ c w1,
    get_connection account env None None w = (Ok c, w1) ∧
    same_env w w1 ∧
    od_get (conn_key account env) (connections (pool w1)) = Some c ∧
    (trace w1 = trace w ∨ trace w1 = VDisconnect :: trace w) ∧
    _mock_positions (pool w1) = _mock_positions (pool w) ∧
    (∀ k, k ≠ "connections_reused" →
          stat_get (stats (pool w1)) k = stat_get (stats (pool w)) k).
Proof.
  destruct (get_connection account env None None w) as [r w1] eqn:Hrun.
  destruct (od_get (conn_key account env) (connections (pool w))) as [conn|] eqn:Hg;
    [destruct (is_connected conn) eqn:Hc|].
  { rewrite (get_connection_reuse _ _ _ _ _ _ Hg Hc) in Hrun.
    inversion Hrun; subst; clear Hrun. eexists _, _. split; [reflexivity|]. simpl.
    split; [env_tac|]. split; [apply od_get_set_eq|]. split_and!; auto.
    intros k Hk. by apply stat_get_bump_ne. }
  all: destruct (get_connection_creation account env None None w r w1)
      as (w0 & Henv & _ & Htr & Hmock & Hs & _ & Hout);
      [intros; congruence | done |].
    all: destruct Hout as (Henv' & _ & _ & Htr' & [(c & -> & _ & Hp)|(? & _ & _ & ? & _)]);
      [|discriminate].
    all: exists c, w1; split; [done|]; rewrite Hp; simpl.
    all: split; [eapply same_env_trans; eauto|].
    all: split; [apply od_get_set_eq|].
    all: rewrite (Htr' eq_refl), Hs.
    all: split_and!; auto.
Qed.

Lemma try_except_cases {A} (body : M A) (handler : exn → M A) w r w' :
  try_except body handler w = (r, w') →
  (∃ a, body w = (Ok a, w') ∧ r = Ok a) ∨
  (∃ e w1, body w = (Raise e, w1) ∧ handler e w1 = (r, w')).
Proof.
  unfold try_except. destruct (body w) as [[a|e] w1]; intros Heq.
  - inversion Heq; subst. eauto.
  - eauto.
Qed.

Lemma map_order_request_unknown mapper td S :
  td_symbol td = Bound S → get_symbol_mapping mapper S = None →
  map_order_request mapper td = Raise (ValueError ("Unknown symbol: " +:+ S)).
Proof.
  unfold map_order_request, get_symbol_mapping, find_symbol. intros -> Hnone.
  simpl. rewrite Hnone. reflexivity.
Qed.

(** ** [execute_trade] *)

(** A request that heads the trace and was sent after [w] is not there
    when the step from [w] sent nothing, or a disconnect only. *)
Lemma nothing_sent (w w' : World) req tr :
  trace w' = trace w ∨ trace w' = VDisconnect :: trace w →
  trace w' = VNewOrder req :: tr →
  (length (trace w) ≤ length tr)%nat →
  False.
Proof.
  intros [Htr|Htr] Heq Hlen; rewrite Htr in Heq.
  - rewrite Heq in Hlen. simpl in Hlen. lia.
  - discriminate.
Qed.

(** The [try] block, by what was sent: without the SDK it succeeds and
    sends no order; with the SDK it either raises before any order is
    sent, or sends one order, and then the vendor's reply decides. *)
Lemma execute_trade_try_spec account env td w r w' :
  execute_trade_try account env td w = (r, w') →
  errors_count w' = errors_count w ∧
  ((HAS_CTRADER_API w = false ∧
    (trace w' = trace w ∨ trace w' = VDisconnect :: trace w) ∧
    trades_count w' = trades_count w + 1 ∧
    ∃ res, r = Ok res ∧ tr_success res = true ∧ tr_error res = None)
   ∨
   (HAS_CTRADER_API w = true ∧
    (trace w' = trace w ∨ trace w' = VDisconnect :: trace w) ∧
    trades_count w' = trades_count w ∧
    ∃ e, r = Raise e)
   ∨
   (HAS_CTRADER_API w = true ∧
    ∃ req tr,
      trace w' = VNewOrder req :: tr ∧
      (length (trace w) ≤ length tr)%nat ∧
      match vendor w (length tr) with
      | VRaise msg =>
          r = Raise (VendorError msg) ∧ trades_count w' = trades_count w
      | VOk resp =>
          r = read_execution resp ∧ trades_count w' = trades_count w + 1
      end)) ∧
  (∀ S, td_symbol td = Bound S →
        get_symbol_mapping (data_mapper (pool w)) S = None →
        if HAS_CTRADER_API w
        then r = Raise (ValueError ("Unknown symbol: " +:+ S)) ∧
             trades_count w' = trades_count w
        else ∃ res, r = Ok res).
Proof.
  unfold execute_trade_try, bind.
  destruct (get_connection_plain account env w)
    as (c & w1 & -> & Henv & Hg & Htr & Hmock & Hst).
  destruct Henv as (Ha & _ & Hv & _ & Hd & _).
  pose proof (Hst "errors" ltac:(done)) as Herr.
  pose proof (Hst "trades_executed" ltac:(done)) as Htrd.
  unfold has_api, errors_count, trades_count. simpl. rewrite Ha.
  destruct (HAS_CTRADER_API w); simpl.
  - unfold get_pool, lift_res. simpl. rewrite Hd.
    destruct (map_order_request (data_mapper (pool w)) td) as [order|ex] eqn:Hmap.
    + unfold read_ctid_account_id, read_client_send.
      assert (∀ S, td_symbol td = Bound S →
                   get_symbol_mapping (data_mapper (pool w)) S = None → False)
        as Hknown.
      { intros S HS Hnone. rewrite (map_order_request_unknown _ _ _ HS Hnone) in Hmap.
        discriminate. }
      destruct (ctid_account_id c) as [ctid|]; unfold raise, ret;
        [destruct (client c) as [cl|]|].
      * unfold vendor_call, stat_incr, modify_pool. simpl.
        destruct (vendor w1 (length (trace w1))) as [msg|resp] eqn:Hreply; simpl;
          intros Heq; inversion Heq; subst; clear Heq; simpl;
          rewrite ?stat_get_bump_eq, ?stat_get_bump_ne by done.
        -- split; [done|]. split; [|intros S HS Hnone; by destruct (Hknown S)].
           right. right. split; [done|]. eexists _, (trace w1).
           split; [done|]. split; [destruct Htr as [->| ->]; simpl; lia|].
           rewrite <- Hv, Hreply. done.
        -- split; [done|]. split; [|intros S HS Hnone; by destruct (Hknown S)].
           right. right. split; [done|]. eexists _, (trace w1).
           split; [done|]. split; [destruct Htr as [->| ->]; simpl; lia|].
           rewrite <- Hv, Hreply. split; [done | lia].
      * intros Heq. inversion Heq; subst; clear Heq.
        split; [done|]. split; [|intros S HS Hnone; by destruct (Hknown S)].
        right. left. split_and!; eauto.
      * intros Heq. inversion Heq; subst; clear Heq.
        split; [done|]. split; [|intros S HS Hnone; by destruct (Hknown S)].
        right. left. split_and!; eauto.
    + intros Heq. inversion Heq; subst; clear Heq. split; [done|]. split.
      * right. left. split_and!; eauto.
      * intros S HS Hnone. rewrite (map_order_request_unknown _ _ _ HS Hnone) in Hmap.
        split; congruence.
  - unfold stat_incr, modify_pool, now, ret. simpl.
    intros Heq. inversion Heq; subst; clear Heq. simpl.
    rewrite stat_get_bump_eq, stat_get_bump_ne by done.
    split; [done|]. split; [|intros S _ _; eauto].
    left. split_and!; auto; [lia|]. eauto.
Qed.

(** A result built from the vendor's reply reports success. *)
Lemma read_execution_success resp res :
  read_execution resp = Ok res → tr_success res = true ∧ tr_error res = None.
Proof.
  unfold read_execution, getattr.
  destruct (executionEvent resp) as [ev|]; [|done].
  destruct (ev_orderId ev); [|done]. destruct (ev_position ev); [|done].
  destruct (ev_executedVolume ev); [|done]. destruct (ev_executionPrice ev); [|done].
  intros Heq. inversion Heq. done.
Qed.

(** C2 (as amended): [execute_trade] always returns a result object,
    never an exception.  A result with [success] true comes with no
    error message, the error counter unchanged and one more trade; a
    result with [success] false carries an error message and one more
    error, and the trade counter is what it was, unless the failure came
    while the vendor's reply to the order was being read, after the trade
    was counted.  With the SDK loaded, success is reported only for an
    order that was sent during the call and that the vendor answered with
    a reply from which the result could be read: so an unknown symbol, a
    session without [ctid_account_id] or client, and every other failure
    before the order is sent give [success] false.  When the vendor
    raises on the order, the result is [success] false with the vendor's
    message, one more error and no trade; when its reply cannot be read,
    the result is [success] false with one more error and one more
    trade.  For an order whose symbol has no mapping entry: with the SDK
    loaded the result is [success] false with the message
    ["Unknown symbol: "] followed by the symbol, and the trade counter is
    not incremented; without the SDK (mock mode) the order is reported as
    executed and the trade counter is incremented. *)
Theorem execute_trade_never_raises account env td w :
  ∃ res w',
    execute_trade account env td w = (Ok res, w') ∧
    (if tr_success res
     then tr_error res = None ∧
          errors_count w' = errors_count w ∧
          trades_count w' = trades_count w + 1
     else (∃ msg, tr_error res = Some msg) ∧
          errors_count w' = errors_count w + 1 ∧
          (trades_count w' = trades_count w ∨
           (trades_count w' = trades_count w + 1 ∧
            ∃ req tr resp e,
              trace w' = VNewOrder req :: tr ∧
              (length (trace w) ≤ length tr)%nat ∧
              vendor w (length tr) = VOk resp ∧
              read_execution resp = Raise e))) ∧
    (HAS_CTRADER_API w = true → tr_success res = true →
     ∃ req tr resp,
       trace w' = VNewOrder req :: tr ∧
       (length (trace w) ≤ length tr)%nat ∧
       vendor w (length tr) = VOk resp ∧
       read_execution resp = Ok res) ∧
    (∀ req tr msg,
       trace w' = VNewOrder req :: tr →
       (length (trace w) ≤ length tr)%nat →
       vendor w (length tr) = VRaise msg →
       tr_success res = false ∧ tr_error res = Some msg ∧
       errors_count w' = errors_count w + 1 ∧
       trades_count w' = trades_count w) ∧
    (∀ req tr resp e,
       trace w' = VNewOrder req :: tr →
       (length (trace w) ≤ length tr)%nat →
       vendor w (length tr) = VOk resp →
       read_execution resp = Raise e →
       tr_success res = false ∧ tr_error res = Some (str_exn e) ∧
       errors_count w' = errors_count w + 1 ∧
       trades_count w' = trades_count w + 1) ∧
    (∀ S, td_symbol td = Bound S →
          get_symbol_mapping (data_mapper (pool w)) S = None →
          if HAS_CTRADER_API w
          then tr_success res = false ∧
               tr_error res = Some ("Unknown symbol: " +:+ S) ∧
               trades_count w' = trades_count w
          else tr_success res = true ∧
               trades_count w' = trades_count w + 1).
Proof.
  destruct (execute_trade account env td w) as [r w'] eqn:Hrun.
  unfold execute_trade in Hrun.
  apply try_except_cases in Hrun
    as [(res & Hbody & ->)|(ex & w1 & Hbody & Hhandler)];
    destruct (execute_trade_try_spec _ _ _ _ _ _ Hbody) as (Herr & Hcases & Hsym).
  - (* the try block returned *)
    exists res, w'. split; [done|].
    assert (tr_success res = true ∧ tr_error res = None ∧
            trades_count w' = trades_count w + 1) as (Hs & He & Ht).
    { destruct Hcases as [(_ & _ & Ht & res' & Heq & Hs & He)
                         |[(_ & _ & _ & e & Heq)|(_ & req & tr & _ & _ & Hreply)]].
      - inversion Heq; subst. done.
      - discriminate.
      - destruct (vendor w (length tr)) as [msg|resp]; destruct Hreply as [Heq Ht];
          [discriminate|].
        symmetry in Heq. destruct (read_execution_success _ _ Heq). done. }
    rewrite Hs. split; [done|]. split.
    { intros Hapi _.
      destruct Hcases as [(Hno & _)|[(_ & _ & _ & e & Heq)
                                    |(_ & req & tr & Htr & Hlen & Hreply)]];
        [congruence | discriminate |].
      exists req, tr. destruct (vendor w (length tr)) as [msg|resp];
        destruct Hreply as [Heq _]; [discriminate|]. eauto. }
    split.
    { intros req tr msg Htr Hlen Hraise.
      destruct Hcases as [(_ & Hsent & _)|[(_ & Hsent & _)
                                          |(_ & req' & tr' & Htr' & _ & Hreply)]];
        try (by destruct (nothing_sent _ _ _ _ Hsent Htr Hlen)).
      rewrite Htr in Htr'. inversion Htr'; subst. rewrite Hraise in Hreply.
      destruct Hreply; discriminate. }
    split.
    { intros req tr resp e Htr Hlen Hok Hread.
      destruct Hcases as [(_ & Hsent & _)|[(_ & Hsent & _)
                                          |(_ & req' & tr' & Htr' & _ & Hreply)]];
        try (by destruct (nothing_sent _ _ _ _ Hsent Htr Hlen)).
      rewrite Htr in Htr'. inversion Htr'; subst. rewrite Hok in Hreply.
      destruct Hreply; congruence. }
    intros S HS Hnone. specialize (Hsym S HS Hnone).
    destruct (HAS_CTRADER_API w); [destruct Hsym; discriminate | done].
  - (* the try block raised *)
    unfold execute_trade_except, bind, stat_incr, modify_pool, ret in Hhandler.
    simpl in Hhandler. inversion Hhandler; subst; clear Hhandler.
    eexists _, _. split; [reflexivity|]. unfold errors_count, trades_count in *.
    simpl. rewrite stat_get_bump_eq, stat_get_bump_ne by done.
    assert (HAS_CTRADER_API w = true) as Hapi.
    { destruct Hcases as [(_ & _ & _ & res & Heq & _)|[(? & _)|(? & _)]];
        [discriminate | done | done]. }
    split.
    { split; [eauto|]. split; [lia|].
      destruct Hcases as [(_ & _ & _ & res & Heq & _)
                         |[(_ & _ & Ht & _)|(_ & req & tr & Htr & Hlen & Hreply)]];
        [discriminate | by left |].
      destruct (vendor w (length tr)) as [msg|resp] eqn:Hv;
        destruct Hreply as [Heq Ht]; [by left|].
      right. split; [done|]. exists req, tr, resp, ex. done. }
    split; [done|]. split.
    { intros req tr msg Htr Hlen Hraise.
      destruct Hcases as [(_ & Hsent & _)|[(_ & Hsent & _)
                                          |(_ & req' & tr' & Htr' & _ & Hreply)]];
        try (by destruct (nothing_sent _ _ _ _ Hsent Htr Hlen)).
      simpl in Htr. rewrite Htr in Htr'. inversion Htr'; subst.
      rewrite Hraise in Hreply. destruct Hreply as [Heq Ht].
      inversion Heq; subst. split_and!; auto. lia. }
    split.
    { intros req tr resp e Htr Hlen Hok Hread.
      destruct Hcases as [(_ & Hsent & _)|[(_ & Hsent & _)
                                          |(_ & req' & tr' & Htr' & _ & Hreply)]];
        try (by destruct (nothing_sent _ _ _ _ Hsent Htr Hlen)).
      simpl in Htr. rewrite Htr in Htr'. inversion Htr'; subst.
      rewrite Hok in Hreply. destruct Hreply as [Heq Ht].
      rewrite Hread in Heq. inversion Heq; subst. split_and!; auto. lia. }
    intros S HS Hnone. specialize (Hsym S HS Hnone). rewrite Hapi in *.
    destruct Hsym as [Heq Ht]. inversion Heq; subst. split_and!; auto.
Qed.

Lemma execute_trade_never_raises_witness :
  ∃ res w',
    execute_trade "acc" "demo" (order_for "EURUSD")
      (linked_world (load_symbol_mapping fx_config) second_clock
         (vendor_script [VOk empty_response; VOk empty_response]
            (VRaise "order rejected"))) = (Ok res, w') ∧
    tr_success res = false ∧
    tr_error res = Some "order rejected" ∧
    errors_count w' = 1 ∧ trades_count w' = 0.
Proof.
  destruct (execute_trade_never_raises "acc" "demo" (order_for "EURUSD")
              (linked_world (load_symbol_mapping fx_config) second_clock
                 (vendor_script [VOk empty_response; VOk empty_response]
                    (VRaise "order rejected"))))
    as (res & w' & Hrun & _ & _ & Hraise & _).
  exists res, w'. split; [exact Hrun|].
  assert (w' = snd (execute_trade "acc" "demo" (order_for "EURUSD")
              (linked_world (load_symbol_mapping fx_config) second_clock
                 (vendor_script [VOk empty_response; VOk empty_response]
                    (VRaise "order rejected"))))) as Hw' by (by rewrite Hrun).
  edestruct Hraise as (Hs & He & Herr & Htr).
  - rewrite Hw'. vm_compute. reflexivity.
  - simpl. lia.
  - reflexivity.
  - split; [exact Hs|]. split; [exact He|]. rewrite Herr, Htr.
    split; reflexivity.
Defined.

(** C2 as stated fails: in mock mode an order for a symbol without a
    mapping entry is reported as executed, and the trade counter goes
    from 0 to 1. *)
Lemma execute_trade_mock_unknown_symbol :
  ∃ res w',
    execute_trade "A" "demo" (order_for "EURUSD")
      (init_world false 2 no_mapping second_clock vendor_ok) = (Ok res, w') ∧
    get_symbol_mapping no_mapping "EURUSD" = None ∧
    tr_success res = true ∧ tr_error res = None ∧
    trades_count (init_world false 2 no_mapping second_clock vendor_ok) = 0 ∧
    trades_count w' = 1.
Proof. eexists. eexists. split; [vm_compute; reflexivity|]. vm_compute. auto. Qed.

(** ** [modify_position] *)

Lemma modify_position_try_spec account env pid sl tp w r w' :
  modify_position_try account env pid sl tp w = (r, w') →
  errors_count w' = errors_count w ∧
  (∀ b, r = Ok b → b = true) ∧
  (∀ ctid n tr msg,
     trace w' = VAmend ctid n sl tp :: tr →
     (length (trace w) ≤ length tr)%nat →
     vendor w (length tr) = VRaise msg →
     r = Raise (VendorError msg)).
Proof.
  unfold modify_position_try, bind.
  destruct (get_connection_plain account env w)
    as (c & w1 & -> & Henv & Hg & Htr & Hmock & Hst).
  destruct Henv as (Ha & _ & Hv & _).
  pose proof (Hst "errors" ltac:(done)) as Herr.
  assert (∀ ctid n tr, trace w1 = VAmend ctid n sl tp :: tr →
                       (length (trace w) ≤ length tr)%nat → False) as Hnot.
  { intros ctid n tr Heq Hlen. destruct Htr as [Htr|Htr]; rewrite Htr in Heq.
    - rewrite Heq in Hlen. simpl in Hlen. lia.
    - discriminate. }
  unfold has_api, errors_count. simpl.
  destruct (HAS_CTRADER_API w1); simpl.
  - unfold read_ctid_account_id, parse_position_id, read_client_send.
    destruct (ctid_account_id c) as [ctid|]; unfold raise, ret;
      [destruct (int_of_str pid) as [n|]; [destruct (client c) as [cl|]|]|].
    + pose proof (vendor_call_frame (VAmend ctid n sl tp) w1) as (Hp & _ & _ & Htr' & _).
      unfold vendor_call in *.
      destruct (vendor w1 (length (trace w1))) as [msg|resp] eqn:Hreply; simpl in *.
      * intros Heq. inversion Heq; subst; clear Heq. simpl.
        split_and!; auto; [congruence|].
        intros ctid' n' tr msg' Htrace _ Hraise. inversion Htrace; subst.
        rewrite Hv in Hreply. congruence.
      * intros Heq. inversion Heq; subst; clear Heq. simpl.
        split_and!; auto; [congruence|].
        intros ctid' n' tr msg' Htrace _ Hraise. inversion Htrace; subst.
        rewrite Hv in Hreply. congruence.
    + intros Heq. inversion Heq; subst; clear Heq.
      split_and!; auto; [congruence|]. intros ? ? ? ? Htrace Hlen _.
      by destruct (Hnot _ _ _ Htrace Hlen).
    + intros Heq. inversion Heq; subst; clear Heq.
      split_and!; auto; [congruence|]. intros ? ? ? ? Htrace Hlen _.
      by destruct (Hnot _ _ _ Htrace Hlen).
    + intros Heq. inversion Heq; subst; clear Heq.
      split_and!; auto; [congruence|]. intros ? ? ? ? Htrace Hlen _.
      by destruct (Hnot _ _ _ Htrace Hlen).
  - unfold ret. intros Heq. inversion Heq; subst; clear Heq.
    split_and!; auto; [congruence|]. intros ? ? ? ? Htrace Hlen _.
    by destruct (Hnot _ _ _ Htrace Hlen).
Qed.

(** C7: [modify_position] always returns a boolean, never an exception;
    [false] comes with the error counter grown by exactly one and [true]
    with the counter unchanged; and whenever the amend request was sent
    to the vendor during the call and the vendor raised on it, the call
    returns [false] and the error counter has grown by exactly one. *)
Theorem modify_position_vendor_failure account env pid sl tp w r w' :
  modify_position account env pid sl tp w = (r, w') →
  (∃ b, r = Ok b ∧ errors_count w' = errors_count w + (if b then 0 else 1)) ∧
  (∀ ctid n tr msg,
     trace w' = VAmend ctid n sl tp :: tr →
     (length (trace w) ≤ length tr)%nat →
     vendor w (length tr) = VRaise msg →
     r = Ok false ∧ errors_count w' = errors_count w + 1).
Proof.
  unfold modify_position. intros Hrun.
  apply try_except_cases in Hrun
    as [(b & Hbody & ->)|(ex & w1 & Hbody & Hhandler)];
    destruct (modify_position_try_spec _ _ _ _ _ _ _ _ Hbody) as (Herr & Hok & Hamend).
  - rewrite (Hok b eq_refl). split; [exists true; split; [done | lia]|].
    intros ctid n tr msg Htrace Hlen Hraise.
    specialize (Hamend _ _ _ _ Htrace Hlen Hraise). discriminate.
  - unfold bind, stat_incr, modify_pool, ret in Hhandler. simpl in Hhandler.
    inversion Hhandler; subst; clear Hhandler. unfold errors_count in *. simpl.
    rewrite stat_get_bump_eq. split; [exists false; split; [done | lia]|].
    intros. split; [done | lia].
Qed.

Lemma modify_position_vendor_failure_witness :
  fst (modify_position "acc" "demo" "7" None None
         (linked_world no_mapping second_clock
            (vendor_script [VOk empty_response; VOk empty_response]
               (VRaise "amend rejected")))) = Ok false.
Proof.
  edestruct (modify_position_vendor_failure "acc" "demo" "7" None None
               (linked_world no_mapping second_clock
                  (vendor_script [VOk empty_response; VOk empty_response]
                     (VRaise "amend rejected")))) as [_ Hamend].
  - apply surjective_pairing.
  - destruct (Hamend 42 7 [VAuth 42 "token"; VConnect false] "amend rejected")
      as [Hres _]; [vm_compute; reflexivity | simpl; lia | reflexivity | exact Hres].
Defined.

(** ** [get_stats] *)

Arguments touch : simpl never.

Lemma stat_get_touch k k' s : stat_get (touch k s) k' = stat_get s k'.
Proof.
  unfold touch, stat_get. destruct (decide (k = k')) as [->|Hne].
  - by rewrite lookup_insert_eq.
  - by rewrite lookup_insert_ne.
Qed.

(** C9: in every pool state [get_stats] returns normally, without a
    division fault, and its [reuse_ratio] is the reuse counter divided by
    the larger of one and the creation counter; with both counters at
    zero the ratio is zero. *)
Theorem get_stats_reuse_ratio (w : World) :
  ∃ v w',
    get_stats w = (Ok v, w') ∧
    connectionsCreated v = created_count w ∧
    connectionsReused v = reused_count w ∧
    activeConnections v = pool_size w ∧
    1 ≤ Z.max 1 (created_count w) ∧
    reuse_ratio v =
      (inject_Z (reused_count w) / inject_Z (Z.max 1 (created_count w)))%Q ∧
    (reuse_ratio v * inject_Z (Z.max 1 (created_count w))
       == inject_Z (reused_count w))%Q ∧
    (created_count w = 0 → reused_count w = 0 → (reuse_ratio v == 0)%Q).
Proof.
  unfold get_stats, bind, stat_read, get_pool, py_truediv, created_count,
    reused_count, pool_size. simpl. rewrite !stat_get_touch.
  set (created := stat_get (stats (pool w)) "connections_created").
  set (reused := stat_get (stats (pool w)) "connections_reused").
  destruct (Z.eqb_spec (Z.max 1 created) 0) as [Hz|Hnz]; [lia|].
  unfold ret. eexists _, _. split; [reflexivity|]. simpl.
  assert (¬ (inject_Z (Z.max 1 created) == 0)%Q) as Hq.
  { unfold Qeq. simpl. lia. }
  split_and!; auto; try lia.
  - rewrite Qmult_comm. by apply Qmult_div_r.
  - intros Hc Hr. rewrite Hr. unfold Qdiv. apply Qmult_0_l.
Qed.

Lemma get_stats_reuse_ratio_witness :
  ∃ v w',
    get_stats (init_world true 50 no_mapping second_clock vendor_ok) = (Ok v, w') ∧
    (reuse_ratio v == 0)%Q.
Proof.
  destruct (get_stats_reuse_ratio (init_world true 50 no_mapping second_clock vendor_ok))
    as (v & w' & Hrun & _ & _ & _ & _ & _ & _ & Hzero).
  exists v, w'. split; [exact Hrun|]. apply Hzero; reflexivity.
Defined.

(** ** Symbol mapping *)

(** After the loop, an id that no remaining item carries is mapped as
    before. *)
Lemma build_reverse_other items : ∀ rev rev' id,
  build_reverse items rev = Some rev' →
  (∀ S e, In (S, e) items → od_get "cTraderId" e ≠ Some id) →
  od_get id rev' = od_get id rev.
Proof.
  induction items as [|[S0 e0] items IH]; intros rev rev' id; simpl.
  - intros Heq _. congruence.
  - destruct (od_get "cTraderId" e0) as [id0|] eqn:Hid0; [|done].
    intros Hbuild Hother. rewrite (IH _ _ id Hbuild).
    + apply od_get_set_ne. intros ->. apply (Hother S0 e0); [by left | done].
    + intros S1 e1 Hin. apply (Hother S1 e1). by right.
Qed.

(** The reverse entry of an id is made from the last item that carries
    it; so it is made from [(S, e)] when no other item carries the id. *)
Lemma build_reverse_unique items : ∀ rev rev' S e id,
  build_reverse items rev = Some rev' →
  In (S, e) items →
  od_get "cTraderId" e = Some id →
  (∀ S' e', In (S', e') items → od_get "cTraderId" e' = Some id →
            (S', e') = (S, e)) →
  od_get id rev' = Some (od_set "mt5Symbol" (PStr S) e).
Proof.
  induction items as [|[S0 e0] items IH]; intros rev rev' S e id; simpl; [done|].
  destruct (od_get "cTraderId" e0) as [id0|] eqn:Hid0; [|done].
  intros Hbuild Hin Hid Huniq.
  assert (In (S, e) items ∨ ¬ In (S, e) items) as [Hlater|Hnot].
  { destruct (decide ((S, e) ∈ items)) as [Hel|Hel];
      rewrite list_elem_of_In in Hel; auto. }
  - apply (IH _ _ _ _ _ Hbuild Hlater Hid). intros S' e' Hin'. apply Huniq. by right.
  - destruct Hin as [Heq|Hin]; [|done]. inversion Heq; subst S0 e0.
    assert (id0 = id) as -> by congruence.
    rewrite (build_reverse_other _ _ _ id Hbuild).
    + apply od_get_set_eq.
    + intros S' e' Hin' Hid'. apply Hnot.
      specialize (Huniq S' e' (or_intror Hin') Hid'). by inversion Huniq; subst.
Qed.

Lemma build_reverse_has_id items : ∀ rev rev' S e,
  build_reverse items rev = Some rev' →
  In (S, e) items → ∃ id, od_get "cTraderId" e = Some id.
Proof.
  induction items as [|[S0 e0] items IH]; intros rev rev' S e; simpl; [done|].
  destruct (od_get "cTraderId" e0) as [id0|] eqn:Hid0; [|done].
  intros Hbuild [Heq|Hin].
  - inversion Heq; subst. eauto.
  - eapply IH; eauto.
Qed.

(** The reverse entry of an id is made from the last item that carries
    it. *)
Lemma build_reverse_last pre : ∀ rev rev' S e post id,
  build_reverse (pre ++ (S, e) :: post) rev = Some rev' →
  od_get "cTraderId" e = Some id →
  (∀ S' e', In (S', e') post → od_get "cTraderId" e' ≠ Some id) →
  od_get id rev' = Some (od_set "mt5Symbol" (PStr S) e).
Proof.
  induction pre as [|[S0 e0] pre IH]; intros rev rev' S e post id; simpl.
  - intros Hbuild Hid Hlater. rewrite Hid in Hbuild.
    rewrite (build_reverse_other _ _ _ id Hbuild Hlater). apply od_get_set_eq.
  - destruct (od_get "cTraderId" e0) as [id0|]; [|done]. apply IH.
Qed.

(** Among the items that carry an id there is a last one. *)
Lemma last_with_id (items : list (string * SymbolEntry)) id :
  (∃ S e, In (S, e) items ∧ od_get "cTraderId" e = Some id) →
  ∃ pre S' e' post,
    items = pre ++ (S', e') :: post ∧
    od_get "cTraderId" e' = Some id ∧
    ∀ S2 e2, In (S2, e2) post → od_get "cTraderId" e2 ≠ Some id.
Proof.
  induction items as [|[S0 e0] items IH]; [intros (S & e & [] & _)|].
  intros (S & e & Hin & Hid).
  destruct (decide (Exists (fun kv => od_get "cTraderId" (snd kv) = Some id) items))
    as [Hex|Hno].
  - apply Exists_exists in Hex as ([S1 e1] & Hin1 & Hid1). simpl in Hid1.
    destruct IH as (pre & S' & e' & post & -> & Hid' & Hlater).
    { exists S1, e1. split; [by apply list_elem_of_In | done]. }
    exists ((S0, e0) :: pre), S', e', post. done.
  - assert (∀ S2 e2, In (S2, e2) items → od_get "cTraderId" e2 ≠ Some id) as Hlater.
    { intros S2 e2 Hin2 Hid2. apply Hno. apply Exists_exists. exists (S2, e2).
      split; [by apply list_elem_of_In | done]. }
    exists [], S0, e0, items. split; [done|]. split; [|done].
    destruct Hin as [Heq|Hin]; [by inversion Heq; subst|]. by destruct (Hlater _ _ Hin).
Qed.

(** C8 (as amended): every symbol [S] of the loaded mapping has a vendor
    id, and translating that id back gives the last symbol, in the order
    of the configuration, that is configured for this id; so it gives [S]
    again when no other configured symbol has the same vendor id. *)
Theorem symbol_round_trip (file : ConfigFile) (S : string) (entry : SymbolEntry) :
  NoDup (od_keys (symbol_mapping (load_symbol_mapping file))) →
  get_symbol_mapping (load_symbol_mapping file) S = Some entry →
  ∃ id pre S' entry' post,
    od_get "cTraderId" entry = Some id ∧
    symbol_mapping (load_symbol_mapping file) = pre ++ (S', entry') :: post ∧
    od_get "cTraderId" entry' = Some id ∧
    (∀ S2 e2, In (S2, e2) post → od_get "cTraderId" e2 ≠ Some id) ∧
    lookup_mt5_symbol (load_symbol_mapping file) id = PStr S' ∧
    ((∀ S2 e2,
        get_symbol_mapping (load_symbol_mapping file) S2 = Some e2 →
        od_get "cTraderId" e2 = Some id → S2 = S) →
     S' = S).
Proof.
  unfold load_symbol_mapping, get_symbol_mapping.
  destruct file as [config|]; simpl; [|done].
  destruct (build_reverse (default [] config) []) as [rev|] eqn:Hbuild;
    simpl; [|done].
  intros Hnd Hg. pose proof (od_get_Some_In _ _ _ Hg) as Hin.
  destruct (build_reverse_has_id _ _ _ _ _ Hbuild Hin) as [id Hid].
  destruct (last_with_id (default [] config) id) as (pre & S' & e' & post & Heq & Hid' & Hlater);
    [eauto|].
  exists id, pre, S', e', post. split; [done|]. split; [done|]. split; [done|].
  split; [done|]. split.
  - unfold lookup_mt5_symbol. simpl. rewrite Heq in Hbuild.
    rewrite (build_reverse_last _ _ _ _ _ _ _ Hbuild Hid' Hlater). simpl.
    by rewrite od_get_set_eq.
  - intros Huniq. apply (Huniq S' e'); [|done]. apply In_od_get; [done|].
    rewrite Heq. apply in_or_app. right. by left.
Qed.

Lemma symbol_round_trip_witness :
  ∃ S',
    lookup_mt5_symbol (load_symbol_mapping gold_config) (PInt 41) = PStr S' ∧
    S' = "GOLD" ∧
    lookup_mt5_symbol (load_symbol_mapping fx_config) (PInt 1) = PStr "EURUSD".
Proof.
  destruct (symbol_round_trip gold_config "XAUUSD"
              [("cTraderId", PInt 41); ("tickValue", PInt 1)])
    as (id & pre & S' & e' & post & Hid & Heq & Hid' & Hlater & Hback & _).
  - apply (bool_decide_unpack _). vm_compute. exact I.
  - reflexivity.
  - inversion Hid; subst id. exists S'. split; [exact Hback|].
    assert (PStr S' = PStr "GOLD") as Hs by (rewrite <- Hback; reflexivity).
    split; [by inversion Hs|].
    destruct (symbol_round_trip fx_config "EURUSD"
                [("cTraderId", PInt 1); ("tickValue", PInt 1)])
      as (id1 & pre1 & S1 & e1 & post1 & Hid1 & _ & _ & _ & Hback1 & Hsame1).
    + apply (bool_decide_unpack _). vm_compute. exact I.
    + reflexivity.
    + inversion Hid1; subst id1. rewrite Hback1. f_equal. apply Hsame1.
      intros S2 e2 Hg Hid2. unfold get_symbol_mapping in Hg. simpl in Hg.
      destruct (decide (S2 = "EURUSD")) as [->|Hne1]; [done|].
      destruct (decide (S2 = "GBPUSD")) as [->|Hne2]; [|discriminate].
      inversion Hg; subst. discriminate.
Defined.

(** C8 as stated fails: with two symbols configured for one vendor id,
    the first of them comes back as the second. *)
Lemma shared_vendor_id_breaks_round_trip :
  get_symbol_mapping (load_symbol_mapping gold_config) "XAUUSD" =
    Some [("cTraderId", PInt 41); ("tickValue", PInt 1)] ∧
  lookup_mt5_symbol (load_symbol_mapping gold_config) (PInt 41) = PStr "GOLD" ∧
  PStr "GOLD" ≠ PStr "XAUUSD".
Proof. split_and!; [reflexivity | reflexivity | discriminate]. Qed.

(** ** Caches *)

(** [get_positions] on a connected session with a non-empty positions
    cache whose session timestamp is less than one second old: the cached
    values are returned and the vendor is not called. *)
Lemma get_positions_cache_hit account env w conn ts :
  HAS_CTRADER_API w = true →
  od_get (conn_key account env) (connections (pool w)) = Some conn →
  is_connected conn = true →
  positions_cache conn ≠ [] →
  cache_timestamp conn = Some ts →
  clock w (S (ticks w)) - ts < 1000000 →
  ∃ w',
    get_positions account env w =
      (Ok (map VendorItem (od_values (positions_cache conn))), w') ∧
    trace w' = trace w ∧ errors_count w' = errors_count w.
Proof.
  intros Hapi Hg Hc Hne Hts Hfresh.
  unfold get_positions, try_except, bind.
  rewrite (get_connection_reuse _ _ _ _ _ _ Hg Hc). unfold has_api. simpl.
  rewrite Hapi. simpl.
  destruct (positions_cache conn) as [|kv cache] eqn:Hcache; [done|].
  unfold is_cache_valid. simpl. rewrite Hts. unfold bind, now, ret. simpl.
  destruct (Z.ltb_spec (clock w (S (ticks w)) - ts) (1 * 1000000)) as [_|Hge];
    [|lia].
  eexists. split; [reflexivity|]. unfold errors_count. simpl.
  split; [done|]. by apply stat_get_bump_ne.
Qed.

(** With the session timestamp absent or at least one second old, the
    positions cache is not served: the call either reaches the vendor
    with a reconcile request or ends in the error path with an empty
    list. *)
Lemma get_positions_cache_miss account env w conn r w' :
  HAS_CTRADER_API w = true →
  od_get (conn_key account env) (connections (pool w)) = Some conn →
  is_connected conn = true →
  match cache_timestamp conn with
  | Some ts => 1000000 ≤ clock w (S (ticks w)) - ts
  | None => True
  end →
  get_positions account env w = (r, w') →
  (∃ ctid, trace w' = VReconcile ctid :: trace w) ∨
  (r = Ok [] ∧ trace w' = trace w ∧ errors_count w' = errors_count w + 1).
Proof.
  intros Hapi Hg Hc Hstale.
  unfold get_positions, try_except, bind.
  rewrite (get_connection_reuse _ _ _ _ _ _ Hg Hc). unfold has_api. simpl.
  rewrite Hapi. simpl.
  set (w1 := {| pool := _; ticks := S (ticks w) |}).
  assert ((match positions_cache conn with
           | [] => ret false
           | _ :: _ => is_cache_valid (set_last_used (clock w (ticks w)) conn) 1
           end) w1 = (Ok false, w1) ∨
          ∃ w2, (match positions_cache conn with
                 | [] => ret false
                 | _ :: _ => is_cache_valid (set_last_used (clock w (ticks w)) conn) 1
                 end) w1 = (Ok false, w2) ∧ trace w2 = trace w ∧
                pool w2 = pool w1 ∧ vendor w2 = vendor w) as Hvalid.
  { destruct (positions_cache conn); [by left|].
    unfold is_cache_valid. simpl. destruct (cache_timestamp conn) as [ts|]; [|by left].
    right. unfold bind, now, ret. simpl.
    destruct (Z.ltb_spec (clock w (S (ticks w)) - ts) (1 * 1000000)); [lia|].
    eexists. split; [reflexivity|]. done. }
  assert (∃ w2, (match positions_cache conn with
                 | [] => ret false
                 | _ :: _ => is_cache_valid (set_last_used (clock w (ticks w)) conn) 1
                 end) w1 = (Ok false, w2) ∧ trace w2 = trace w ∧
                pool w2 = pool w1 ∧ vendor w2 = vendor w) as (w2 & -> & Htr & Hp & Hv).
  { destruct Hvalid as [->|?]; [|done]. by exists w1. }
  unfold read_ctid_account_id, read_client_send. simpl.
  destruct (ctid_account_id conn) as [ctid|]; unfold raise, ret;
    [destruct (client conn) as [cl|]|].
  - pose proof (vendor_call_frame (VReconcile ctid) w2) as (Hp' & _ & _ & Htr' & _).
    destruct (vendor_call (VReconcile ctid) w2) as [[resp|ex] w3]; simpl in *.
    + unfold mutate_conn, modify_pool, now. simpl.
      intros Heq. inversion Heq; subst; clear Heq. simpl. left. exists ctid.
      congruence.
    + unfold stat_incr, modify_pool. simpl.
      intros Heq. inversion Heq; subst; clear Heq. simpl. left. exists ctid.
      congruence.
  - unfold stat_incr, modify_pool. simpl.
    intros Heq. inversion Heq; subst; clear Heq. right. unfold errors_count. simpl.
    rewrite Hp. simpl. rewrite stat_get_bump_eq, stat_get_bump_ne by done. done.
  - unfold stat_incr, modify_pool. simpl.
    intros Heq. inversion Heq; subst; clear Heq. right. unfold errors_count. simpl.
    rewrite Hp. simpl. rewrite stat_get_bump_eq, stat_get_bump_ne by done. done.
Qed.

(** C3 (the code does not do what the claim says), on the pool as a
    successful credentialed call leaves it.  An account-info query asks
    the vendor and then fails on the unbound name [account_info]: it
    returns [None], counts one error and stores nothing, so a second
    query a fraction of a second later asks the vendor again.  A
    positions or orders query fails on the missing attribute
    [ctid_account_id] before it reaches the vendor: it returns the empty
    list, counts one error and refreshes nothing. *)
Theorem cache_refresh_fails :
  let w0 := logged_in_world no_mapping tenth_clock vendor_ok in
  let first := get_account_info "acc" "demo" w0 in
  let second := get_account_info "acc" "demo" (snd first) in
  let positions := get_positions "acc" "demo" w0 in
  let orders := get_orders "acc" "demo" w0 in
  (fst first = Ok None ∧
   trace (snd first) = VAccounts :: trace w0 ∧
   errors_count (snd first) = errors_count w0 + 1 ∧
   option_map account_info_cache (session_acc (snd first)) = Some None ∧
   option_map cache_timestamp (session_acc (snd first)) = Some None) ∧
  (fst second = Ok None ∧
   trace (snd second) = VAccounts :: VAccounts :: trace w0 ∧
   clock w0 (ticks (snd second)) - clock w0 (ticks w0) < 5 * 1000000) ∧
  (fst positions = Ok [] ∧
   trace (snd positions) = trace w0 ∧
   errors_count (snd positions) = errors_count w0 + 1 ∧
   option_map cache_timestamp (session_acc (snd positions)) = Some None) ∧
  (fst orders = Ok [] ∧
   trace (snd orders) = trace w0 ∧
   errors_count (snd orders) = errors_count w0 + 1 ∧
   option_map cache_timestamp (session_acc (snd orders)) = Some None).
Proof. vm_compute. repeat split; congruence. Qed.

(** The session has one timestamp for its three caches.  Positions are
    fetched at 1 s; an orders query at 11 s refreshes the timestamp; the
    positions query at 11.5 s is then served position 7 from the cache,
    10.5 s after it was fetched, while the vendor would report position
    8. *)
Example stale_positions_served :
  let w0 := linked_world no_mapping stale_clock stale_vendor in
  let '(w1, w2, (r3, w3)) :=
    after (get_positions "acc" "demo") (get_orders "acc" "demo")
          (get_positions "acc" "demo") w0 in
  option_map positions_cache (session_acc w1) = Some [(PInt 7, position_7)] ∧
  option_map cache_timestamp (session_acc w1) = Some (Some 1000000) ∧
  option_map cache_timestamp (session_acc w2) = Some (Some 11000000) ∧
  r3 = Ok [VendorItem position_7] ∧
  trace w3 = trace w2 ∧
  clock w0 (ticks w2 + 1) = 11500000 ∧
  vendor w0 (length (trace w2)) = reconcile_reply [position_8] [order_1].
Proof. vm_compute. repeat split; congruence. Qed.

(** ** [close_position] *)

(** With the SDK loaded, a successful [close_position] on a connected
    session deletes from the positions cache the entry whose key is the
    string [position_id], and nothing else. *)
Lemma close_position_cache_effect account env pid w conn w' :
  HAS_CTRADER_API w = true →
  od_get (conn_key account env) (connections (pool w)) = Some conn →
  is_connected conn = true →
  close_position account env pid w = (Ok true, w') →
  ∃ c',
    od_get (conn_key account env) (connections (pool w')) = Some c' ∧
    positions_cache c' = od_del (PStr pid) (positions_cache conn).
Proof.
  intros Hapi Hg Hc.
  unfold close_position, try_except, bind.
  rewrite (get_connection_reuse _ _ _ _ _ _ Hg Hc). unfold has_api. simpl.
  rewrite Hapi. simpl.
  unfold read_ctid_account_id, parse_position_id, read_client_send. simpl.
  destruct (ctid_account_id conn) as [ctid|]; unfold raise, ret;
    [destruct (int_of_str pid) as [n|]; [destruct (client conn) as [cl|]|]|];
    try (unfold stat_incr, modify_pool; simpl; intros Heq; discriminate).
  match goal with
  | |- context [vendor_call ?req ?w1] =>
      pose proof (vendor_call_frame req w1) as (Hp & _);
      destruct (vendor_call req w1) as [[resp|ex] w2]
  end; simpl in *;
    [|unfold stat_incr, modify_pool; simpl; intros Heq; discriminate].
  unfold mutate_conn, modify_pool. simpl. rewrite Hp. simpl.
  rewrite od_get_set_eq. intros Heq. inversion Heq; subst; clear Heq. simpl.
  rewrite od_get_set_eq. eexists. split; [reflexivity|]. reflexivity.
Qed.

(** A position that the cache holds under its integer id is still there
    after a successful [close_position]. *)
Lemma close_position_keeps_integer_keys account env pid w conn w' n pos :
  HAS_CTRADER_API w = true →
  od_get (conn_key account env) (connections (pool w)) = Some conn →
  is_connected conn = true →
  od_get (PInt n) (positions_cache conn) = Some pos →
  close_position account env pid w = (Ok true, w') →
  ∃ c',
    od_get (conn_key account env) (connections (pool w')) = Some c' ∧
    od_get (PInt n) (positions_cache c') = Some pos.
Proof.
  intros Hapi Hg Hc Hpos Hrun.
  destruct (close_position_cache_effect _ _ _ _ _ _ Hapi Hg Hc Hrun)
    as (c' & Hg' & Hcache).
  exists c'. split; [done|]. rewrite Hcache. by rewrite od_get_del_ne.
Qed.

(** What the mismatch of the keys does on a session on which
    [ctid_account_id] has been assigned from outside the class:
    [get_positions] stores position 7 under the integer key 7;
    [close_position] for ["7"] sends the close request, returns [True]
    and looks for the string key, so position 7 stays in the cache, and
    the next [get_positions], a fraction of a second later, still reports
    it without asking the vendor. *)
Example close_position_key_mismatch :
  let w0 := linked_world no_mapping tenth_clock one_position_vendor in
  let '(w1, w2, (r3, w3)) :=
    after (get_positions "acc" "demo") (close_position "acc" "demo" "7")
          (get_positions "acc" "demo") w0 in
  option_map positions_cache (session_acc w1) = Some [(PInt 7, position_7)] ∧
  fst (close_position "acc" "demo" "7" w1) = Ok true ∧
  trace w2 = VClose 42 7 :: trace w1 ∧
  option_map positions_cache (session_acc w2) = Some [(PInt 7, position_7)] ∧
  r3 = Ok [VendorItem position_7] ∧
  trace w3 = trace w2.
Proof. vm_compute. repeat split; congruence. Qed.




(** *** The sessions stay as the class leaves them *)













































(** * Further properties *)

(** ** Session keys *)

Lemma str_contains_cons sub c s :
  str_contains sub (String c s) =
  if String.prefix sub (String c s) then true else str_contains sub s.
Proof. reflexivity. Qed.

Lemma prefix_one a c s :
  String.prefix (String a EmptyString) (String c s) =
  if Ascii.ascii_dec a c then true else false.
Proof.
  change (String.prefix (String a EmptyString) (String c s))
    with (if Ascii.ascii_dec a c then String.prefix EmptyString s else false).
  destruct (Ascii.ascii_dec a c); [|done]. by destruct s.
Qed.

Lemma append_cons c (x y : string) : String c x +:+ y = String c (x +:+ y).
Proof. reflexivity. Qed.

Lemma append_nil (y : string) : "" +:+ y = y.
Proof. reflexivity. Qed.

Lemma str_contains_underscore x y : str_contains "_" (x +:+ "_" +:+ y) = true.
Proof.
  induction x as [|c x IH]; rewrite ?append_nil, !append_cons, ?append_nil;
    rewrite str_contains_cons, prefix_one;
    destruct (Ascii.ascii_dec _ _); done.
Qed.

(** X1: for environments that contain no underscore (such as [demo] and
    [live]), two calls get the same session key only if they name the
    same account and the same environment. *)
Theorem conn_key_injective (account1 env1 account2 env2 : string) :
  str_contains "_" env1 = false →
  str_contains "_" env2 = false →
  conn_key account1 env1 = conn_key account2 env2 →
  account1 = account2 ∧ env1 = env2.
Proof.
  unfold conn_key. intros H1 H2.
  revert account2. induction account1 as [|c1 a1 IH]; intros [|c2 a2];
    rewrite ?append_nil, !append_cons, ?append_nil; intros Heq.
  - inversion Heq. done.
  - inversion Heq as [[Hc He]].
    pose proof (str_contains_underscore a2 env2) as Hin.
    rewrite append_cons, append_nil in Hin. congruence.
  - inversion Heq as [[Hc He]].
    pose proof (str_contains_underscore a1 env1) as Hin.
    rewrite append_cons, append_nil in Hin. congruence.
  - inversion Heq as [[Hc Ha]]. rewrite <- (append_nil env1) in Ha.
    rewrite <- (append_nil env2) in Ha. rewrite <- !append_cons in Ha.
    destruct (IH _ Ha) as [-> ->]. done.
Qed.

Lemma conn_key_injective_witness :
  conn_key "acc_1" "demo" = "acc_1_demo" ∧ "acc_1" = "acc_1" ∧ "demo" = "demo".
Proof.
  split; [reflexivity|].
  exact (conn_key_injective "acc_1" "demo" "acc_1" "demo" eq_refl eq_refl eq_refl).
Defined.

Lemma append_associative (x y z : string) : (x +:+ y) +:+ z = x +:+ (y +:+ z).
Proof.
  induction x as [|c x IH]; [done|]. rewrite !append_cons. by rewrite IH.
Qed.

Lemma conn_key_shift a b c :
  conn_key (a +:+ "_" +:+ b) c = conn_key a (b +:+ "_" +:+ c).
Proof. unfold conn_key. by rewrite !append_associative. Qed.

(** X2: the key is the plain concatenation with an underscore, so an
    environment that contains one makes two different accounts share a
    key: while account [a] in environment [b_c] has a connected session,
    a call for account [a_b] in environment [c] is handed that session,
    whatever its credentials, and nothing is created. *)
Theorem get_connection_shared_key a b c access_token ctid w conn :
  od_get (conn_key a (b +:+ "_" +:+ c)) (connections (pool w)) = Some conn →
  is_connected conn = true →
  ∃ w',
    get_connection (a +:+ "_" +:+ b) c access_token ctid w =
      (Ok (set_last_used (clock w (ticks w)) conn), w') ∧
    od_keys (connections (pool w')) = od_keys (connections (pool w)) ∧
    created_count w' = created_count w ∧ trace w' = trace w.
Proof.
  intros Hg Hc. rewrite <- conn_key_shift in Hg.
  rewrite (get_connection_reuse _ _ _ _ _ _ Hg Hc).
  eexists. split; [reflexivity|]. unfold created_count. simpl.
  split_and!; auto.
  - apply od_keys_set_present. apply od_get_Some_In in Hg.
    match goal with |- In ?k _ => change k with (fst (k, conn)) end. by apply in_map.
  - by apply stat_get_bump_ne.
Qed.

Lemma get_connection_shared_key_witness :
  ∃ c w',
    get_connection "x_demo" "demo" None None
      (run_calls [{| c_account := "x"; c_environment := "demo_demo";
                     c_access_token := None; c_ctid := None |}]
         (init_world true 5 no_mapping second_clock vendor_ok)) = (Ok c, w') ∧
    account_id c = "x" ∧ environment c = "demo_demo".
Proof.
  edestruct (get_connection_shared_key "x" "demo" "demo" None None
               (run_calls [{| c_account := "x"; c_environment := "demo_demo";
                              c_access_token := None; c_ctid := None |}]
                  (init_world true 5 no_mapping second_clock vendor_ok)))
    as (w' & Hrun & _).
  - vm_compute. reflexivity.
  - reflexivity.
  - eexists _, w'. split; [exact Hrun|]. split; reflexivity.
Defined.

(** ** What the stored sessions always satisfy *)

Lemma get_connection_sessions_ok account env access_token ctid w r w' :
  sessions_ok w →
  get_connection account env access_token ctid w = (r, w') →
  sessions_ok w'.
Proof.
  intros [Hall Hdist] Hrun.
  destruct (od_get (conn_key account env) (connections (pool w))) as [conn|] eqn:Hg.
  - pose proof (od_get_Some_In _ _ _ Hg) as Hin.
    destruct (Hall _ _ Hin) as (Hc & Hk & Ho).
    rewrite (get_connection_reuse _ _ _ _ _ _ Hg Hc) in Hrun.
    inversion Hrun; subst; clear Hrun. split; simpl.
    + intros k s Hin'. apply od_set_In in Hin' as [Hin'|[-> ->]]; [eauto|].
      simpl. auto.
    + intros k1 s1 k2 s2 Hin1 Hin2 Hoid.
      apply od_set_In in Hin1 as [Hin1|[-> ->]];
        apply od_set_In in Hin2 as [Hin2|[-> ->]]; simpl in *; eauto.
  - destruct (get_connection_creation account env access_token ctid w r w')
      as (w1 & _ & Ho & _ & _ & _ & Hconns & Hout); [congruence | done |].
    apply od_get_del_or in Hconns as [_ Hsub].
    destruct Hout as (_ & _ & Ho' & _ & [(c & -> & Hfresh & Hp)|(msg & -> & Hp & _)]);
      unfold sessions_ok; rewrite Ho', Ho, Hp; simpl.
    + destruct Hfresh as (Hoid & Ha & He & _ & Hc & _). rewrite Ho in Hoid.
      split.
      * intros k s Hin. apply od_set_In in Hin as [Hin|[-> ->]].
        -- destruct (Hall _ _ (Hsub _ _ Hin)) as (? & ? & ?). split_and!; auto; lia.
        -- rewrite Ha, He. split_and!; auto; lia.
      * intros k1 s1 k2 s2 Hin1 Hin2 Heq.
        apply od_set_In in Hin1 as [Hin1|[-> ->]];
          apply od_set_In in Hin2 as [Hin2|[-> ->]]; auto.
        -- eapply Hdist; eauto.
        -- destruct (Hall _ _ (Hsub _ _ Hin1)) as (_ & _ & ?). lia.
        -- destruct (Hall _ _ (Hsub _ _ Hin2)) as (_ & _ & ?). lia.
    + split.
      * intros k s Hin. destruct (Hall _ _ (Hsub _ _ Hin)) as (? & ? & ?).
        split_and!; auto; lia.
      * intros k1 s1 k2 s2 Hin1 Hin2. eapply Hdist; eauto.
Qed.

(** X3: starting from a pool whose stored sessions are all connected,
    each under the key of its own account and environment, and no object
    under two keys (an empty pool is one), every sequence of
    [get_connection] calls, failing ones included, ends in such a pool
    again. *)
Theorem run_calls_sessions_ok (cs : list Call) (w : World) :
  sessions_ok w → sessions_ok (run_calls cs w).
Proof.
  revert w. induction cs as [|c cs IH]; intros w Hok; [done|].
  change (run_calls (c :: cs) w) with (run_calls cs (run_call c w)).
  apply IH. unfold run_call.
  destruct (get_connection (c_account c) (c_environment c) (c_access_token c)
              (c_ctid c) w) as [r w'] eqn:Hrun.
  by eapply get_connection_sessions_ok.
Qed.

Lemma run_calls_sessions_ok_witness :
  sessions_ok
    (run_calls [login_call "A"; plain_call "B"; plain_call "A"; login_call "C"]
       (init_world true 2 no_mapping second_clock vendor_ok)).
Proof.
  apply run_calls_sessions_ok. split; simpl; tauto.
Defined.

(** ** The session wrapper *)

(** X4: outcomes of [connect] with the SDK loaded.  It succeeds exactly
    when nothing raises: then it has sent the connect and then the
    authorisation request, marks the wrapper connected, counts one
    connection, and holds a client with the token, made for the live
    host exactly when the environment is the string [live].  Otherwise
    the SDK's exception is raised again, the wrapper is marked
    disconnected and counts one error and no connection; the requests
    sent are none, the connect alone, or the connect and the
    authorisation; the wrapper keeps the client it had when the
    constructor raised, holds a client without token when
    [set_access_token] raised, and a client with the token in every
    other case, in which a request was sent.  Without the SDK [connect]
    sends nothing, counts nothing and marks the wrapper connected. *)
Theorem connect_outcomes self access_token ctid w self' r w' :
  connect self access_token ctid w = ((self', r), w') →
  let live := String.eqb (environment self) "live" in
  if HAS_CTRADER_API w then
    (r = Ok true ∧ is_connected self' = true ∧
     connection_count self' = connection_count self + 1 ∧
     error_count self' = error_count self ∧
     client self' = Some {| cl_live := live; cl_access_token := Some access_token |} ∧
     trace w' = VAuth ctid access_token :: VConnect live :: trace w ∧
     handshake_done w w')
    ∨
    (∃ msg,
       r = Raise (VendorError msg) ∧ is_connected self' = false ∧
       connection_count self' = connection_count self ∧
       error_count self' = error_count self + 1 ∧
       handshake_failed w w' msg ∧
       match sdk w (sdk_calls w) with
       | Some (ClientFault _) => client self' = client self ∧ trace w' = trace w
       | Some (TokenFault _) =>
           client self' = Some {| cl_live := live; cl_access_token := None |} ∧
           trace w' = trace w
       | _ =>
           client self' =
             Some {| cl_live := live; cl_access_token := Some access_token |} ∧
           (trace w' = VConnect live :: trace w ∨
            trace w' = VAuth ctid access_token :: VConnect live :: trace w)
       end)
  else r = Ok true ∧ self' = set_is_connected true self ∧ w' = w.
Proof.
  intros Hrun live.
  pose proof (connect_or_raise_spec self access_token ctid w) as Hspec.
  unfold connect_or_raise in Hspec. rewrite Hrun in Hspec.
  revert Hrun. unfold connect, sdk_step, vendor_call.
  destruct (HAS_CTRADER_API w) eqn:Hapi; simpl.
  - fold live.
    destruct (sdk w (sdk_calls w)) as [[m|m|m]|] eqn:Hsdk; simpl.
    + intros Heq; inversion Heq; subst; clear Heq.
      destruct (Hspec _ _ eq_refl) as (_ & _ & _ & _ & _ & _ & [(cl & Hr & _)|(msg & Hr & Hf)]);
        [discriminate|]. inversion Hr; subst. right. exists msg. split_and!; auto.
    + intros Heq; inversion Heq; subst; clear Heq.
      destruct (Hspec _ _ eq_refl) as (_ & _ & _ & _ & _ & _ & [(cl & Hr & _)|(msg & Hr & Hf)]);
        [discriminate|]. inversion Hr; subst. right. exists msg. split_and!; auto.
    + destruct (vendor w (length (trace w))) as [m1|r1]; simpl;
        intros Heq; inversion Heq; subst; clear Heq;
        (destruct (Hspec _ _ eq_refl)
          as (_ & _ & _ & _ & _ & _ & [(cl & Hr & _)|(msg & Hr & Hf)]);
         [discriminate|]); inversion Hr; subst; right; exists msg;
        split_and!; auto.
    + destruct (vendor w (length (trace w))) as [m1|r1]; simpl.
      * intros Heq; inversion Heq; subst; clear Heq.
        destruct (Hspec _ _ eq_refl)
          as (_ & _ & _ & _ & _ & _ & [(cl & Hr & _)|(msg & Hr & Hf)]);
          [discriminate|]. inversion Hr; subst. right. exists msg.
        split_and!; auto.
      * destruct (vendor w (S (length (trace w)))) as [m2|r2]; simpl;
          intros Heq; inversion Heq; subst; clear Heq;
          destruct (Hspec _ _ eq_refl)
            as (_ & _ & _ & _ & _ & _ & [(cl & Hr & Hd & _)|(msg & Hr & Hf)]);
          try discriminate.
        -- inversion Hr; subst. right. exists msg. split_and!; auto.
        -- left. split_and!; auto.
  - intros Heq. inversion Heq; subst. done.
Qed.

Lemma connect_outcomes_witness :
  ∃ self' w',
    connect
      {| oid := 0; account_id := "acc"; environment := "LIVE";
         client := None; is_connected := false; last_used := 0;
         connection_count := 0; error_count := 0;
         positions_cache := []; orders_cache := [];
         account_info_cache := None; cache_timestamp := None;
         ctid_account_id := None |} "token" 42
      (with_sdk (fun _ => Some (TokenFault "no attribute set_access_token"))
         (init_world true 5 no_mapping second_clock vendor_ok)) =
      ((self', Raise (VendorError "no attribute set_access_token")), w') ∧
    client self' = Some {| cl_live := false; cl_access_token := None |} ∧
    error_count self' = 1 ∧ trace w' = [].
Proof.
  destruct (connect _ _ _ _) as [[self' r] w'] eqn:Hrun.
  pose proof (connect_outcomes _ _ _ _ _ _ _ Hrun) as Hout.
  simpl in Hout. destruct Hout as [(Hr & _)|(msg & Hr & _ & _ & Herr & _ & Hcl & Htr)].
  - vm_compute in Hrun. inversion Hrun; subst. discriminate.
  - exists self', w'. split; [|split; [exact Hcl|split; [exact Herr | exact Htr]]].
    vm_compute in Hrun. inversion Hrun; subst. reflexivity.
Defined.

(** X5: [disconnect] never raises and leaves the pool alone.  It calls
    the vendor only for a wrapper that has a client and is marked
    connected; if that call raises, the wrapper stays marked connected;
    in every other case the wrapper ends up marked disconnected. *)
Theorem disconnect_outcomes self w self' w' :
  disconnect self w = (self', w') →
  pool w' = pool w ∧
  if has_live_client self then
    trace w' = VDisconnect :: trace w ∧
    match vendor w (length (trace w)) with
    | VOk _ => self' = set_is_connected false self
    | VRaise _ => self' = self ∧ is_connected self' = true
    end
  else w' = w ∧ self' = set_is_connected false self.
Proof.
  unfold disconnect, has_live_client.
  destruct (client self) as [cl|]; [destruct (is_connected self) eqn:Hc|];
    try (intros Heq; inversion Heq; subst; done).
  unfold vendor_call.
  destruct (vendor w (length (trace w))); intros Heq; inversion Heq; subst; done.
Qed.

Lemma disconnect_outcomes_witness :
  is_connected
    (fst (disconnect
            {| oid := 0; account_id := "acc"; environment := "demo";
               client := Some {| cl_live := false; cl_access_token := Some "token" |};
               is_connected := true; last_used := 0;
               connection_count := 1; error_count := 0;
               positions_cache := []; orders_cache := [];
               account_info_cache := None; cache_timestamp := None;
               ctid_account_id := None |}
            (init_world true 5 no_mapping second_clock vendor_down))) = true.
Proof.
  destruct (disconnect _ _) as [self' w'] eqn:Hrun.
  pose proof (disconnect_outcomes _ _ _ _ Hrun) as [_ Hout].
  simpl in Hout. destruct Hout as [_ [_ Hc]]. exact Hc.
Defined.

(** ** The idle sweep *)

Lemma od_del_filter {V : Type} (k : string) (d : list (string * V)) :
  od_del k d = List.filter (fun kv => negb (bool_decide (fst kv = k))) d.
Proof.
  induction d as [|[k' v] d IH]; simpl; [done|].
  destruct (decide (k = k')) as [->|Hne].
  - rewrite bool_decide_true by done. simpl. exact IH.
  - rewrite bool_decide_false by congruence. simpl. by rewrite IH.
Qed.

Lemma filter_filter {A : Type} (f g : A → bool) (l : list A) :
  List.filter f (List.filter g l) = List.filter (fun x => g x && f x) l.
Proof.
  induction l as [|x l IH]; simpl; [done|].
  destruct (g x); simpl; [destruct (f x)|]; by rewrite IH.
Qed.

Lemma filter_all {A : Type} (f : A → bool) (l : list A) :
  (∀ x, f x = true) → List.filter f l = l.
Proof.
  intros Hall. induction l as [|x l IH]; simpl; [done|]. by rewrite Hall, IH.
Qed.

Lemma remove_idle_spec keys : ∀ w,
  NoDup keys →
  (∀ k, k ∈ keys → od_get k (connections (pool w)) ≠ None) →
  ∃ w',
    remove_idle keys w = (Ok tt, w') ∧
    pool w' =
      with_connections
        (List.filter (fun kv => negb (bool_decide (fst kv ∈ keys)))
           (connections (pool w)))
        (pool w) ∧
    ticks w' = ticks w ∧ next_oid w' = next_oid w.
Proof.
  induction keys as [|k keys IH]; intros w Hnd Hpresent.
  - exists w. split; [reflexivity|]. split; [|done].
    rewrite filter_all; [by destruct (pool w)|].
    intros kv. rewrite bool_decide_false; [done|]. apply not_elem_of_nil.
  - apply NoDup_cons in Hnd as [Hnotin Hnd]. simpl. unfold bind, get_pool.
    destruct (od_get k (connections (pool w))) as [conn|] eqn:Hg.
    2: { exfalso. eapply Hpresent; [left|done]. }
    destruct (disconnect_frame conn w) as (Hp & Ht & Ho & _).
    unfold del_connection, modify_pool. simpl.
    set (w1 := with_pool _ _).
    destruct (IH w1 Hnd) as (w' & Hrun & Hp' & Ht' & Ho').
    { intros k' Hin. unfold w1. simpl. rewrite Hp.
      rewrite od_get_del_ne; [apply Hpresent; by right|].
      intros ->. done. }
    exists w'. split; [exact Hrun|]. rewrite Hp', Ht', Ho'. unfold w1. simpl.
    rewrite Hp, Ht, Ho. split_and!; auto. unfold with_connections. simpl. f_equal.
    rewrite od_del_filter, filter_filter. apply filter_ext. intros [k' v]. simpl.
    destruct (decide (k' = k)) as [->|Hne].
    + rewrite bool_decide_true by done. rewrite (bool_decide_true (k ∈ k :: keys));
        [done | by left].
    + rewrite bool_decide_false by done. simpl. f_equal.
      apply bool_decide_ext. rewrite elem_of_cons. tauto.
Qed.

Lemma idle_keys_elem thr (conns : list (string * Session)) k :
  k ∈ idle_keys thr conns ↔
  ∃ s, In (k, s) conns ∧ (last_used s <? thr) = true.
Proof.
  unfold idle_keys. rewrite list_elem_of_In, in_map_iff. split.
  - intros ([k' s] & Hfst & Hin). simpl in Hfst. subst k'.
    apply filter_In in Hin as [Hin Hidle]. eauto.
  - intros (s & Hin & Hidle). exists (k, s). split; [done|].
    apply filter_In. auto.
Qed.

Lemma idle_keys_NoDup thr (conns : list (string * Session)) :
  NoDup (od_keys conns) → NoDup (idle_keys thr conns).
Proof.
  unfold idle_keys, od_keys. induction conns as [|[k s] conns IH]; simpl; [done|].
  intros Hnd. apply NoDup_cons in Hnd as [Hnotin Hnd].
  destruct (last_used s <? thr); simpl; [|auto].
  apply NoDup_cons. split; [|auto].
  intros Hin. apply Hnotin. apply list_elem_of_In in Hin. apply list_elem_of_In.
  apply in_map_iff in Hin as ([k' s'] & Hfst & Hin). simpl in Hfst. subst k'.
  apply filter_In in Hin as [Hin _]. change k with (fst (k, s')). by apply in_map.
Qed.

Lemma classic_range idle th :
  (Z.abs (idle / 86400) ≤ 999999999 ∧ datetime_min ≤ th ≤ datetime_max) ∨
  ¬ (Z.abs (idle / 86400) ≤ 999999999 ∧ datetime_min ≤ th ≤ datetime_max).
Proof.
  destruct (Z.le_gt_cases (Z.abs (idle / 86400)) 999999999);
    destruct (Z.le_gt_cases datetime_min th);
    destruct (Z.le_gt_cases th datetime_max); first [left; lia | right; lia].
Qed.

Lemma idle_threshold_at_spec t idle :
  (Z.abs (idle / 86400) ≤ 999999999 →
   datetime_min ≤ t - idle * 1000000 ≤ datetime_max →
   idle_threshold_at t idle = Ok (t - idle * 1000000)) ∧
  (¬ (Z.abs (idle / 86400) ≤ 999999999 ∧
      datetime_min ≤ t - idle * 1000000 ≤ datetime_max) →
   ∃ e, idle_threshold_at t idle = Raise e).
Proof.
  unfold idle_threshold_at, timedelta_seconds.
  destruct (Z.leb_spec (Z.abs (idle / 86400)) 999999999) as [Hd|Hd].
  - destruct (Z.leb_spec datetime_min (t - idle * 1000000)) as [Hlo|Hlo];
      destruct (Z.leb_spec (t - idle * 1000000) datetime_max) as [Hhi|Hhi]; simpl;
      (split; [intros; first [done | lia] | intros Hno; first [by eauto | lia]]).
  - split; [lia | eauto].
Qed.

(** X6: a pass of the idle sweep never raises and reads the clock once.
    When [timedelta(seconds=idle_timeout)] exists and the clock reading
    less that time is a [datetime] again, the pass keeps, in their order,
    exactly the sessions whose [last_used] is not earlier than that
    threshold, deletes all the others, and changes no counter and no
    limit.  Otherwise the threshold cannot be computed ([OverflowError],
    which the pass swallows) and the pool is left as it was. *)
Theorem periodic_cleanup_pass_keeps_recent (w : World) :
  NoDup (od_keys (connections (pool w))) →
  ∃ w',
    _periodic_cleanup_pass w = (Ok tt, w') ∧
    ticks w' = S (ticks w) ∧
    (Z.abs (idle_timeout (pool w) / 86400) ≤ 999999999 →
     datetime_min ≤ sweep_threshold w ≤ datetime_max →
     pool w' =
       with_connections
         (List.filter (fun kv => negb (last_used (snd kv) <? sweep_threshold w))
            (connections (pool w)))
         (pool w)) ∧
    (¬ (Z.abs (idle_timeout (pool w) / 86400) ≤ 999999999 ∧
        datetime_min ≤ sweep_threshold w ≤ datetime_max) →
     pool w' = pool w).
Proof.
  intros Hnd. unfold _periodic_cleanup_pass, try_except, bind, now, get_pool, lift_res.
  simpl.
  set (w1 := {| pool := pool w; ticks := S (ticks w) |}).
  destruct (idle_threshold_at_spec (clock w (ticks w)) (idle_timeout (pool w)))
    as [Hok Hbad].
  fold (sweep_threshold w) in Hok, Hbad.
  destruct (idle_threshold_at (clock w (ticks w)) (idle_timeout (pool w)))
    as [th|e] eqn:Hth.
  - assert (th = sweep_threshold w) as ->.
    { destruct (classic_range (idle_timeout (pool w)) (sweep_threshold w)) as [[H1 H2]|Hno].
      - specialize (Hok H1 H2). congruence.
      - destruct (Hbad Hno) as [e He]. discriminate. }
    destruct (remove_idle_spec (idle_keys (sweep_threshold w) (connections (pool w))) w1)
      as (w' & -> & Hp & Ht & _).
    { by apply idle_keys_NoDup. }
    { intros k Hin. apply idle_keys_elem in Hin as (s & Hin & _).
      destruct (od_In_get _ _ _ Hin) as [s' Hg]. simpl. congruence. }
    exists w'. split; [done|]. split; [done|]. split.
    + intros _ _. rewrite Hp. simpl. f_equal.
      apply filter_ext_in. intros [k s] Hin. simpl. f_equal.
      destruct (last_used s <? sweep_threshold w) eqn:Hidle.
      * apply bool_decide_eq_true. apply idle_keys_elem. eauto.
      * apply bool_decide_eq_false. intros Hel.
        apply idle_keys_elem in Hel as (s' & Hin' & Hidle').
        pose proof (In_od_get _ _ _ Hnd Hin') as Hg'.
        pose proof (In_od_get _ _ _ Hnd Hin) as Hg. congruence.
    + intros Hno. destruct (Hbad Hno) as [e He]. discriminate.
  - exists w1. unfold ret. split; [done|]. split; [done|]. split; [|done].
    intros H1 H2. specialize (Hok H1 H2). discriminate.
Qed.

Lemma periodic_cleanup_pass_keeps_recent_witness :
  od_keys (connections (pool (snd (_periodic_cleanup_pass
    (run_calls [plain_call "A"; plain_call "B"; plain_call "A"]
       (init_world true 5 no_mapping (fun n => Z.of_nat n * 200000000)
          vendor_ok)))))) = ["A_demo"].
Proof.
  edestruct (periodic_cleanup_pass_keeps_recent
    (run_calls [plain_call "A"; plain_call "B"; plain_call "A"]
       (init_world true 5 no_mapping (fun n => Z.of_nat n * 200000000)
          vendor_ok)))
    as (w' & Hrun & _ & Hp & _).
  - apply (bool_decide_unpack _). vm_compute. exact I.
  - rewrite Hrun. simpl snd. rewrite Hp.
    + vm_compute. reflexivity.
    + vm_compute. discriminate.
    + vm_compute. split; discriminate.
Defined.

(** ** Shutdown *)

Lemma replicate_snoc_cons {A : Type} (n : nat) (x : A) (l : list A) :
  replicate n x ++ x :: l = x :: replicate n x ++ l.
Proof. induction n as [|n IH]; simpl; [done|]. by rewrite IH. Qed.

Lemma disconnect_trace_exact self w :
  trace (snd (disconnect self w)) =
  if has_live_client self then VDisconnect :: trace w else trace w.
Proof.
  unfold disconnect, has_live_client.
  destruct (client self); [destruct (is_connected self)|]; try done.
  unfold vendor_call. by destruct (vendor w (length (trace w))).
Qed.

Lemma disconnect_all_spec (sessions : list Session) : ∀ w,
  let w' := fold_left (fun w0 conn => snd (disconnect conn w0)) sessions w in
  pool w' = pool w ∧ ticks w' = ticks w ∧ next_oid w' = next_oid w ∧
  trace w' =
    replicate (length (List.filter has_live_client sessions)) VDisconnect ++ trace w.
Proof.
  induction sessions as [|s sessions IH]; intros w; simpl; [done|].
  pose proof (disconnect_frame s w) as (Hp & Ht & Ho & _).
  pose proof (disconnect_trace_exact s w) as Htr.
  destruct (IH (snd (disconnect s w))) as (Hp' & Ht' & Ho' & Htr').
  rewrite Hp', Ht', Ho', Htr', Htr. split_and!; auto.
  destruct (has_live_client s); simpl; [apply replicate_snoc_cons | done].
Qed.

(** X7: [cleanup] never raises and leaves the session map empty; it asks
    the vendor for one disconnect per stored session that has a client
    and is marked connected, and for nothing else; counters, limit and
    mock positions are untouched. *)
Theorem cleanup_empties_pool (w : World) :
  ∃ w',
    cleanup w = (Ok tt, w') ∧
    pool w' = with_connections [] (pool w) ∧
    trace w' =
      replicate
        (length (List.filter has_live_client (od_values (connections (pool w)))))
        VDisconnect ++ trace w.
Proof.
  unfold cleanup, bind, get_pool, modify_pool. simpl.
  destruct (disconnect_all_spec (od_values (connections (pool w))) w)
    as (Hp & _ & _ & Htr).
  eexists. split; [reflexivity|]. simpl. rewrite Hp, Htr. done.
Qed.

(** ** Calls without failure *)

(** A session that [get_connection] returns is marked connected and is
    the one stored under the key. *)
Lemma get_connection_returns_connected account env access_token ctid w c w' :
  get_connection account env access_token ctid w = (Ok c, w') →
  is_connected c = true ∧
  od_get (conn_key account env) (connections (pool w')) = Some c.
Proof.
  intros Hrun.
  destruct (od_get (conn_key account env) (connections (pool w))) as [conn|] eqn:Hg;
    [destruct (is_connected conn) eqn:Hc|].
  { rewrite (get_connection_reuse _ _ _ _ _ _ Hg Hc) in Hrun.
    inversion Hrun; subst; clear Hrun. simpl. split; [done | apply od_get_set_eq]. }
  all: destruct (get_connection_creation account env access_token ctid w (Ok c) w')
      as (w1 & _ & _ & _ & _ & _ & _ & Hout); [intros; congruence | done |].
  all: destruct Hout as (_ & _ & _ & _ & [(c' & Heq & Hfresh & Hp)|(? & ? & _)]);
      [|discriminate].
  all: inversion Heq; subst c'; rewrite Hp; simpl.
  all: destruct Hfresh as (_ & _ & _ & _ & Hc' & _).
  all: split; [done | apply od_get_set_eq].
Qed.

(** X8: [initialize_streaming] reports [True] for every account and
    environment, in every state of the pool: the credential-less
    [get_connection] it relies on cannot fail, and the session it leaves
    under the key is marked connected. *)
Theorem initialize_streaming_always_true account env w :
  ∃ w' c,
    initialize_streaming account env w = (Ok true, w') ∧
    od_get (conn_key account env) (connections (pool w')) = Some c ∧
    is_connected c = true.
Proof.
  unfold initialize_streaming, try_except, bind.
  destruct (get_connection_plain account env w) as (c & w1 & Hrun & _).
  rewrite Hrun. destruct (get_connection_returns_connected _ _ _ _ _ _ _ Hrun)
    as [Hc Hg].
  exists w1, c. unfold ret. rewrite Hc. done.
Qed.

(** X9: without the vendor SDK, [get_connection] cannot fail: for every
    input, with credentials or without, it returns a session that is
    marked connected and stored under the key. *)
Theorem get_connection_mock_mode account env access_token ctid w :
  HAS_CTRADER_API w = false →
  ∃ c w',
    get_connection account env access_token ctid w = (Ok c, w') ∧
    is_connected c = true ∧
    od_get (conn_key account env) (connections (pool w')) = Some c.
Proof.
  intros Hapi.
  destruct (get_connection account env access_token ctid w) as [[c|ex] w'] eqn:Hrun.
  - destruct (get_connection_returns_connected _ _ _ _ _ _ _ Hrun) as [Hc Hg].
    exists c, w'. auto.
  - exfalso.
    assert (∀ conn, od_get (conn_key account env) (connections (pool w)) = Some conn →
                    is_connected conn = false) as Hstale.
    { intros conn Hg. destruct (is_connected conn) eqn:Hc; [|done].
      rewrite (get_connection_reuse _ _ _ _ _ _ Hg Hc) in Hrun. discriminate. }
    destruct (get_connection_creation _ _ _ _ _ _ _ Hstale Hrun)
      as (w1 & Henv & _ & _ & _ & _ & _ & Hout).
    destruct Hout as (_ & _ & _ & _ & [(c' & Heq & _)|(msg & _ & _ & _ & Hapi')]);
      [discriminate|].
    destruct Henv as (Ha & _). congruence.
Qed.

Lemma get_connection_mock_mode_witness :
  ∃ c w',
    get_connection "A" "demo" (Some "token") (Some 42)
      (init_world false 5 no_mapping second_clock vendor_down) = (Ok c, w') ∧
    is_connected c = true.
Proof.
  destruct (get_connection_mock_mode "A" "demo" (Some "token") (Some 42)
              (init_world false 5 no_mapping second_clock vendor_down) eq_refl)
    as (c & w' & Hrun & Hc & _).
  exists c, w'. auto.
Defined.

(** ** Mock positions *)

Lemma get_positions_mock account env w :
  HAS_CTRADER_API w = false →
  ∃ w',
    get_positions account env w =
      (Ok (map MockItem (mock_positions_of w account)), w') ∧
    _mock_positions (pool w') = _mock_positions (pool w) ∧
    HAS_CTRADER_API w' = false.
Proof.
  intros Hapi. unfold get_positions, try_except, bind.
  destruct (get_connection_plain account env w)
    as (c & w1 & -> & Henv & _ & _ & Hmock & _).
  destruct Henv as (Ha & _). unfold has_api, get_pool, ret. simpl.
  rewrite Ha, Hapi. simpl. unfold mock_positions_of. rewrite Hmock.
  eexists. split; [reflexivity|]. split; [done | congruence].
Qed.

(** X10: in mock mode, [get_positions] for an account, in whatever
    environment, returns the positions added for that account with
    [add_mock_position], in the order of their addition; after
    [clear_mock_positions] it returns the empty list; and neither helper
    touches the positions of another account. *)
Theorem mock_positions_add_clear account env position w :
  HAS_CTRADER_API w = false →
  fst (get_positions account env (snd (add_mock_position account position w))) =
    Ok (map MockItem (mock_positions_of w account ++ [position])) ∧
  fst (get_positions account env (snd (clear_mock_positions account w))) = Ok [] ∧
  (∀ other, other ≠ account →
     mock_positions_of (snd (add_mock_position account position w)) other =
       mock_positions_of w other ∧
     mock_positions_of (snd (clear_mock_positions account w)) other =
       mock_positions_of w other).
Proof.
  intros Hapi. split_and!.
  - destruct (get_positions_mock account env (snd (add_mock_position account position w)))
      as (w' & -> & _); [exact Hapi|]. simpl. do 2 f_equal.
    unfold mock_positions_of. simpl.
    rewrite lookup_insert_eq. simpl.
    destruct (_mock_positions (pool w) !! account) eqn:Hm; simpl.
    + by rewrite Hm.
    + by rewrite lookup_insert_eq.
  - destruct (get_positions_mock account env (snd (clear_mock_positions account w)))
      as (w' & -> & _); [exact Hapi|]. simpl. do 2 f_equal.
    unfold mock_positions_of. simpl.
    destruct (_mock_positions (pool w) !! account) eqn:Hm; simpl.
    + by rewrite lookup_insert_eq.
    + by rewrite Hm.
  - intros other Hne. unfold mock_positions_of. simpl. split.
    + rewrite lookup_insert_ne by done.
      destruct (_mock_positions (pool w) !! account); [done|].
      by rewrite lookup_insert_ne.
    + destruct (_mock_positions (pool w) !! account); simpl; [|done].
      by rewrite lookup_insert_ne.
Qed.

Lemma mock_positions_add_clear_witness :
  fst (get_positions "A" "live"
         (snd (add_mock_position "A" [("id", PStr "7")]
                 (init_world false 5 no_mapping second_clock vendor_ok)))) =
  Ok [MockItem [("id", PStr "7")]].
Proof.
  exact (proj1 (mock_positions_add_clear "A" "live" [("id", PStr "7")]
                  (init_world false 5 no_mapping second_clock vendor_ok) eq_refl)).
Defined.

(** X11: in mock mode [close_position] always returns [True]; it removes
    from the account's mock positions exactly those whose ['id'] equals
    the given string, keeps the others in their order, and leaves other
    accounts alone; a following [get_positions] lists what was kept, so
    no listed position has that id, and the error counter is unchanged. *)
Theorem close_position_mock_mode account env pid w :
  HAS_CTRADER_API w = false →
  ∃ w',
    close_position account env pid w = (Ok true, w') ∧
    mock_positions_of w' account =
      List.filter (mock_id_differs pid) (mock_positions_of w account) ∧
    (∀ other, other ≠ account →
       mock_positions_of w' other = mock_positions_of w other) ∧
    (∀ env', fst (get_positions account env' w') =
       Ok (map MockItem
             (List.filter (mock_id_differs pid) (mock_positions_of w account)))) ∧
    Forall (fun p => od_get "id" p ≠ Some (PStr pid)) (mock_positions_of w' account) ∧
    errors_count w' = errors_count w.
Proof.
  intros Hapi. unfold close_position, try_except, bind.
  destruct (get_connection_plain account env w)
    as (c & w1 & -> & Henv & _ & _ & Hmock & Hst).
  destruct Henv as (Ha & _). unfold has_api, modify_pool, ret. simpl.
  rewrite Ha, Hapi. simpl. eexists. split; [reflexivity|].
  match goal with |- context [with_pool ?p0 w1] => set (p2 := p0) end.
  assert (default [] (_mock_positions p2 !! account) =
          List.filter (mock_id_differs pid) (mock_positions_of w account)) as Hkept.
  { unfold p2, mock_positions_of. rewrite Hmock.
    destruct (_mock_positions (pool w) !! account) eqn:Hm; simpl.
    - by rewrite lookup_insert_eq.
    - by rewrite Hmock, Hm. }
  split; [exact Hkept|]. split.
  { intros other Hne. unfold mock_positions_of, p2. simpl. rewrite Hmock.
    destruct (_mock_positions (pool w) !! account); simpl.
    - by rewrite lookup_insert_ne.
    - by rewrite Hmock. }
  split.
  { intros env'.
    match goal with
    | |- fst (get_positions _ _ ?w2) = _ =>
        destruct (get_positions_mock account env' w2) as (w3 & -> & _);
          [simpl; congruence|]
    end.
    simpl. f_equal. f_equal. exact Hkept. }
  split.
  { unfold mock_positions_of at 1. simpl. rewrite Hkept.
    apply Forall_forall. intros p Hin. apply list_elem_of_In, filter_In in Hin as [_ Hd].
    unfold mock_id_differs in Hd. apply negb_true_iff, bool_decide_eq_false in Hd.
    exact Hd. }
  unfold errors_count, p2. simpl.
  destruct (_mock_positions (pool w1) !! account); simpl; by apply Hst.
Qed.

Lemma close_position_mock_mode_witness :
  fst (get_positions "A" "demo"
         (snd (close_position "A" "demo" "7"
                 (snd (add_mock_position "A" [("id", PStr "8")]
                         (snd (add_mock_position "A" [("id", PStr "7")]
                                 (init_world false 5 no_mapping second_clock
                                    vendor_ok)))))))) =
  Ok [MockItem [("id", PStr "8")]].
Proof.
  destruct (close_position_mock_mode "A" "demo" "7"
              (snd (add_mock_position "A" [("id", PStr "8")]
                      (snd (add_mock_position "A" [("id", PStr "7")]
                              (init_world false 5 no_mapping second_clock
                                 vendor_ok))))) eq_refl)
    as (w' & Hrun & _ & _ & Hget & _).
  rewrite Hrun. simpl snd. rewrite Hget. reflexivity.
Defined.

(** ** Account information *)

(** The session that a credential-less [get_connection] returns is the
    connected one that was stored, with a new [last_used], or a new one
    with empty caches. *)
Lemma get_connection_plain_session account env w c w1 :
  get_connection account env None None w = (Ok c, w1) →
  (∃ conn,
     od_get (conn_key account env) (connections (pool w)) = Some conn ∧
     is_connected conn = true ∧ c = set_last_used (clock w (ticks w)) conn ∧
     ticks w1 = S (ticks w)) ∨
  (account_info_cache c = None ∧ positions_cache c = [] ∧ orders_cache c = [] ∧
   client c = None).
Proof.
  intros Hrun.
  destruct (od_get (conn_key account env) (connections (pool w))) as [conn|] eqn:Hg;
    [destruct (is_connected conn) eqn:Hc|].
  { rewrite (get_connection_reuse _ _ _ _ _ _ Hg Hc) in Hrun.
    inversion Hrun; subst; clear Hrun. left. exists conn. auto. }
  all: right.
  all: unfold get_connection, bind, get_pool in Hrun; simpl in Hrun;
    rewrite Hg in Hrun; try rewrite Hc in Hrun.
  all: unfold del_connection, modify_pool, create_connection, bind in Hrun;
    simpl in Hrun.
  all: match type of Hrun with
       | context [check_limit ?w0] =>
           destruct (check_limit w0) as [[[]|ex] w2]; [|discriminate]
       end.
  all: unfold new_wrapper, bind, fresh_oid, now, ret, store_connection, modify_pool
    in Hrun; simpl in Hrun; inversion Hrun; subst; done.
Qed.

Lemma get_connection_keeps_snapshots account env access_token ctid w r w' :
  get_connection account env access_token ctid w = (r, w') →
  ∀ k s', In (k, s') (connections (pool w')) →
    account_info_cache s' = None ∨
    ∃ s, In (k, s) (connections (pool w)) ∧
         account_info_cache s' = account_info_cache s.
Proof.
  intros Hrun k s' Hin.
  destruct (od_get (conn_key account env) (connections (pool w))) as [conn|] eqn:Hg;
    [destruct (is_connected conn) eqn:Hc|].
  { rewrite (get_connection_reuse _ _ _ _ _ _ Hg Hc) in Hrun.
    inversion Hrun; subst; clear Hrun. simpl in Hin.
    apply od_set_In in Hin as [Hin|[-> ->]]; [eauto|].
    right. exists conn. split; [by apply od_get_Some_In | done]. }
  all: destruct (get_connection_creation account env access_token ctid w r w')
      as (w1 & _ & _ & _ & _ & _ & Hconns & Hout); [intros; congruence | done |].
  all: apply od_get_del_or in Hconns as [_ Hsub].
  all: destruct Hout as (_ & _ & _ & _ & [(c & -> & Hfresh & Hp)|(msg & -> & Hp & _)]);
      rewrite Hp in Hin; simpl in Hin.
  all: try (apply od_set_In in Hin as [Hin|[-> ->]];
            [eauto | left; apply Hfresh]).
  all: eauto.
Qed.

Lemma get_account_info_sdk account env w r w' :
  HAS_CTRADER_API w = true →
  get_account_info account env w = (r, w') →
  ((r = Ok None ∧ errors_count w' = errors_count w + 1) ∨
   (∃ info conn,
      r = Ok (Some info) ∧ errors_count w' = errors_count w ∧
      od_get (conn_key account env) (connections (pool w)) = Some conn ∧
      is_connected conn = true ∧ account_info_cache conn = Some info)) ∧
  (∀ k s', In (k, s') (connections (pool w')) →
     account_info_cache s' = None ∨
     ∃ s, In (k, s) (connections (pool w)) ∧
          account_info_cache s' = account_info_cache s).
Proof.
  intros Hapi. unfold get_account_info, try_except, bind.
  destruct (get_connection_plain account env w)
    as (c & w1 & Hrun & Henv & _ & _ & _ & Hst).
  pose proof (get_connection_keeps_snapshots _ _ _ _ _ _ _ Hrun) as Hkeep.
  pose proof (get_connection_plain_session _ _ _ _ _ Hrun) as Hsess.
  rewrite Hrun. destruct Henv as (Ha & _).
  pose proof (Hst "errors" ltac:(done)) as Herr.
  unfold has_api, errors_count. simpl. rewrite Ha, Hapi. simpl.
  assert (∀ (w2 : World),
            pool w2 = pool w1 →
            (stat_incr "errors" ;;; ret None) w2 =
              ((r : Res (option AccountInfo)), w') →
            (r = Ok None ∧
             stat_get (stats (pool w')) "errors" =
               stat_get (stats (pool w)) "errors" + 1) ∧
            (∀ k s', In (k, s') (connections (pool w')) →
               account_info_cache s' = None ∨
               ∃ s, In (k, s) (connections (pool w)) ∧
                    account_info_cache s' = account_info_cache s)) as Hfail.
  { intros w2 Hp Heq. unfold bind, stat_incr, modify_pool, ret in Heq.
    simpl in Heq. inversion Heq; subst; clear Heq. simpl. rewrite Hp. simpl.
    rewrite stat_get_bump_eq, Herr. split; [done|]. exact Hkeep. }
  destruct (account_info_cache c) as [info|] eqn:Hcache.
  - unfold is_cache_valid.
    destruct (cache_timestamp c) as [ts|]; unfold bind, now, ret; simpl.
    + destruct (_ <? _).
      * intros Heq. inversion Heq; subst; clear Heq. simpl. split; [|exact Hkeep].
        right. destruct Hsess as [(conn & Hg & Hc & -> & _)|(Hnone & _)];
          [|congruence].
        exists info, conn. simpl in Hcache. split_and!; auto.
      * unfold read_client_send. destruct (client c); unfold raise, ret.
        -- unfold vendor_call. simpl.
           destruct (vendor w1 _); intros Heq;
             (apply Hfail in Heq; [destruct Heq; split; [left|]; eauto | done]).
        -- intros Heq.
           apply Hfail in Heq; [destruct Heq; split; [left|]; eauto | done].
    + unfold read_client_send. destruct (client c); unfold raise, ret.
      * unfold vendor_call. simpl.
        destruct (vendor w1 _); intros Heq;
          (apply Hfail in Heq; [destruct Heq; split; [left|]; eauto | done]).
      * intros Heq.
        apply Hfail in Heq; [destruct Heq; split; [left|]; eauto | done].
  - unfold ret. simpl. unfold read_client_send. destruct (client c); unfold raise, ret.
    + unfold vendor_call. simpl.
      destruct (vendor w1 _); intros Heq;
        (apply Hfail in Heq; [destruct Heq; split; [left|]; eauto | done]).
    + intros Heq.
      apply Hfail in Heq; [destruct Heq; split; [left|]; eauto | done].
Qed.

(** X12: with the SDK loaded, [get_account_info] never raises and never
    stores a snapshot: every session's snapshot afterwards is one it had
    before (or none).  It answers with the snapshot that the connected
    session already held, or else with [None] and one more error. *)
Theorem get_account_info_never_stores account env w r w' :
  HAS_CTRADER_API w = true →
  get_account_info account env w = (r, w') →
  ((r = Ok None ∧ errors_count w' = errors_count w + 1) ∨
   (∃ info conn,
      r = Ok (Some info) ∧ errors_count w' = errors_count w ∧
      od_get (conn_key account env) (connections (pool w)) = Some conn ∧
      is_connected conn = true ∧ account_info_cache conn = Some info)) ∧
  (∀ k s', In (k, s') (connections (pool w')) →
     account_info_cache s' = None ∨
     ∃ s, In (k, s) (connections (pool w)) ∧
          account_info_cache s' = account_info_cache s).
Proof. apply get_account_info_sdk. Qed.

Lemma get_account_info_never_stores_witness :
  fst (get_account_info "acc" "demo"
         (logged_in_world no_mapping second_clock vendor_ok)) = Ok None.
Proof.
  destruct (get_account_info _ _ _) as [r w'] eqn:Hrun.
  destruct (get_account_info_never_stores "acc" "demo"
              (logged_in_world no_mapping second_clock vendor_ok) r w' eq_refl Hrun)
    as [[[Hr _]|(info & conn & _ & _ & Hg & _ & Hcache)] _].
  - exact Hr.
  - vm_compute in Hg. inversion Hg; subst conn. discriminate.
Defined.

Lemma get_account_info_mock account env w :
  HAS_CTRADER_API w = false →
  ∃ w',
    get_account_info account env w =
      (Ok (Some {| ai_accountId := account; ai_balance := 10000;
                   ai_equity := 10000; ai_margin := 0; ai_freeMargin := 10000;
                   ai_currency := "USD"; ai_leverage := 100;
                   ai_environment := env |}), w') ∧
    errors_count w' = errors_count w.
Proof.
  intros Hapi. unfold get_account_info, try_except, bind.
  destruct (get_connection_plain account env w)
    as (c & w1 & -> & Henv & _ & _ & _ & Hst).
  destruct Henv as (Ha & _). unfold has_api, ret. simpl. rewrite Ha, Hapi. simpl.
  eexists. split; [reflexivity|]. by apply Hst.
Qed.

(** X13: [get_risk_status] never raises.  With the SDK loaded and no
    snapshot stored for the account's demo session, it answers drawdown
    0, risk level [low] and margin level 0, the answer of an account
    without losses, and one error is counted; in mock mode it answers
    drawdown 0 and risk level [low] for every account. *)
Theorem get_risk_status_without_info account w :
  ∃ rs w',
    get_risk_status account w = (Ok rs, w') ∧
    (HAS_CTRADER_API w = true →
     (∀ conn, od_get (conn_key account "demo") (connections (pool w)) = Some conn →
              account_info_cache conn = None) →
     rs = no_risk ∧ errors_count w' = errors_count w + 1) ∧
    (HAS_CTRADER_API w = false →
     rs_riskLevel rs = "low" ∧ (rs_drawdown rs == 0)%Q ∧
     errors_count w' = errors_count w).
Proof.
  unfold get_risk_status, bind.
  destruct (HAS_CTRADER_API w) eqn:Hapi.
  - destruct (get_account_info account "demo" w) as [r w1] eqn:Hrun.
    destruct (get_account_info_sdk _ _ _ _ _ Hapi Hrun)
      as [[[-> Herr]|(info & conn & -> & Herr & Hg & Hc & Hcache)] _].
    + eexists _, _. split; [reflexivity|]. split; [|done]. done.
    + eexists _, _. split; [reflexivity|]. split; [|done].
      intros _ Hnone. specialize (Hnone _ Hg). congruence.
  - destruct (get_account_info_mock account "demo" w Hapi) as (w1 & -> & Herr).
    eexists _, _. split; [reflexivity|]. split; [done|]. intros _.
    split; [reflexivity|]. split; [reflexivity | done].
Qed.

Lemma get_risk_status_without_info_witness :
  fst (get_risk_status "acc" (logged_in_world no_mapping second_clock vendor_down)) =
  Ok no_risk.
Proof.
  destruct (get_risk_status_without_info "acc"
              (logged_in_world no_mapping second_clock vendor_down))
    as (rs & w' & Hrun & Hsdk & _).
  rewrite Hrun. simpl. f_equal. apply Hsdk; [reflexivity|].
  intros conn Hg. vm_compute in Hg. by inversion Hg.
Defined.

(** ** Loading the symbol table *)

Lemma build_reverse_missing_id items : ∀ rev S e,
  In (S, e) items → od_get "cTraderId" e = None → build_reverse items rev = None.
Proof.
  induction items as [|[S0 e0] items IH]; intros rev S e; simpl; [done|].
  intros [Heq|Hin] Hnone.
  - inversion Heq; subst. by rewrite Hnone.
  - destruct (od_get "cTraderId" e0); [|done]. eauto.
Qed.

(** X14: loading is all or nothing.  When the file cannot be read, or
    has no symbol table, or when a single configured entry lacks its
    [cTraderId], both tables are left empty, so that no symbol, not even
    a well-formed one of the same file, has a mapping.  When every
    configured entry has a [cTraderId], the symbol table is the
    configured one, [get_all_symbols] lists its keys in the order of the
    configuration, and every configured symbol is found with its entry
    (the keys of a JSON object being distinct). *)
Theorem load_symbol_mapping_all_or_nothing (file : ConfigFile) :
  (file = None ∨ file = Some None → load_symbol_mapping file = no_mapping) ∧
  (∀ config S e,
     file = Some (Some config) → In (S, e) config →
     od_get "cTraderId" e = None →
     load_symbol_mapping file = no_mapping ∧
     ∀ S', get_symbol_mapping (load_symbol_mapping file) S' = None) ∧
  (∀ config,
     file = Some (Some config) →
     (∀ S e, In (S, e) config → ∃ id, od_get "cTraderId" e = Some id) →
     symbol_mapping (load_symbol_mapping file) = config ∧
     get_all_symbols (load_symbol_mapping file) = od_keys config ∧
     (NoDup (od_keys config) →
      ∀ S e, In (S, e) config →
             get_symbol_mapping (load_symbol_mapping file) S = Some e)).
Proof.
  split; [intros [->| ->]; reflexivity|]. split.
  - intros config S e -> Hin Hnone. unfold load_symbol_mapping. simpl.
    rewrite (build_reverse_missing_id _ _ _ _ Hin Hnone). done.
  - intros config -> Hall. unfold load_symbol_mapping, get_all_symbols,
      get_symbol_mapping. simpl.
    destruct (build_reverse config []) as [rev|] eqn:Hbuild; simpl.
    + split; [done|]. split; [done|]. intros Hnd S e Hin. by apply In_od_get.
    + exfalso. revert Hbuild Hall. generalize (@nil (PyVal * SymbolEntry)).
      induction config as [|[S0 e0] config IH]; intros rev; simpl; [done|].
      intros Hbuild Hall. destruct (Hall S0 e0 (or_introl eq_refl)) as [id Hid].
      rewrite Hid in Hbuild. eapply IH; [exact Hbuild|]. intros S e Hin.
      apply (Hall S e). by right.
Qed.

Lemma load_symbol_mapping_all_or_nothing_witness :
  load_symbol_mapping broken_config = no_mapping ∧
  get_symbol_mapping (load_symbol_mapping broken_config) "EURUSD" = None ∧
  get_all_symbols (load_symbol_mapping fx_config) = ["EURUSD"; "GBPUSD"] ∧
  get_symbol_mapping (load_symbol_mapping fx_config) "GBPUSD" =
    Some [("cTraderId", PInt 2); ("tickValue", PInt 1)].
Proof.
  destruct (load_symbol_mapping_all_or_nothing broken_config) as (_ & Hbad & _).
  destruct (Hbad _ "GBPUSD" [("tickValue", PInt 1)] eq_refl) as [Hempty Hnone].
  { right. left. reflexivity. }
  { reflexivity. }
  destruct (load_symbol_mapping_all_or_nothing fx_config) as (_ & _ & Hgood).
  destruct (Hgood _ eq_refl) as (_ & Hkeys & Hfind).
  { intros S e [Heq|[Heq|[]]]; inversion Heq; subst; eauto. }
  split; [exact Hempty|]. split; [apply Hnone|]. split; [exact Hkeys|].
  apply Hfind.
  - apply (bool_decide_unpack _). vm_compute. exact I.
  - right. left. reflexivity.
Defined.

(** One configured entry without [cTraderId] disables the whole table:
    the loaded mapper is empty. *)
Lemma load_symbol_mapping_one_bad_entry config S e :
  In (S, e) config →
  od_get "cTraderId" e = None →
  load_symbol_mapping (Some (Some config)) = no_mapping.
Proof.
  intros Hin Hnone. unfold load_symbol_mapping. simpl.
  by rewrite (build_reverse_missing_id _ _ _ _ Hin Hnone).
Qed.

Lemma load_symbol_mapping_one_bad_entry_witness :
  get_symbol_mapping (load_symbol_mapping broken_config) "EURUSD" = None.
Proof.
  unfold broken_config.
  rewrite (load_symbol_mapping_one_bad_entry _ "GBPUSD" [("tickValue", PInt 1)]).
  - reflexivity.
  - right. left. reflexivity.
  - reflexivity.
Defined.

(** After the loop, the reverse entry of an id is an earlier one or is
    made from an item that carries the id. *)
Lemma build_reverse_origin items : ∀ rev rev' id e',
  build_reverse items rev = Some rev' →
  od_get id rev' = Some e' →
  od_get id rev = Some e' ∨
  ∃ S e, In (S, e) items ∧ od_get "cTraderId" e = Some id ∧
         e' = od_set "mt5Symbol" (PStr S) e.
Proof.
  induction items as [|[S0 e0] items IH]; intros rev rev' id e'; simpl.
  - intros Heq Hg. inversion Heq; subst. by left.
  - destruct (od_get "cTraderId" e0) as [id0|] eqn:Hid0; [|done].
    intros Hbuild Hg. destruct (IH _ _ _ _ Hbuild Hg) as [Hold|(S & e & Hin & Hid & ->)].
    + destruct (decide (id0 = id)) as [->|Hne].
      * rewrite od_get_set_eq in Hold. inversion Hold; subst. right.
        exists S0, e0. auto.
      * rewrite od_get_set_ne in Hold by done. by left.
    + right. exists S, e. auto.
Qed.

(** X15: translating a vendor id to a symbol and that symbol back to its
    vendor id gives the id again, for every id that the reverse table
    holds, also when several configured symbols share the id. *)
Theorem vendor_id_round_trip (file : ConfigFile) (id : PyVal) (info : SymbolEntry) :
  NoDup (od_keys (symbol_mapping (load_symbol_mapping file))) →
  od_get id (reverse_symbol_mapping (load_symbol_mapping file)) = Some info →
  ∃ S entry,
    lookup_mt5_symbol (load_symbol_mapping file) id = PStr S ∧
    get_symbol_mapping (load_symbol_mapping file) S = Some entry ∧
    od_get "cTraderId" entry = Some id.
Proof.
  unfold load_symbol_mapping, lookup_mt5_symbol, get_symbol_mapping.
  destruct file as [[config|]|]; simpl; try done.
  destruct (build_reverse config []) as [rev|] eqn:Hbuild; simpl; [|done].
  intros Hnd Hg. rewrite Hg. simpl.
  destruct (build_reverse_origin _ _ _ _ _ Hbuild Hg) as [Hold|(S & e & Hin & Hid & ->)];
    [done|].
  exists S, e. rewrite od_get_set_eq. simpl. split_and!; auto.
  by apply In_od_get.
Qed.

Lemma vendor_id_round_trip_witness :
  ∃ S entry,
    lookup_mt5_symbol (load_symbol_mapping gold_config) (PInt 41) = PStr S ∧
    get_symbol_mapping (load_symbol_mapping gold_config) S = Some entry ∧
    od_get "cTraderId" entry = Some (PInt 41).
Proof.
  eapply (vendor_id_round_trip gold_config (PInt 41)).
  - apply (bool_decide_unpack _). vm_compute. exact I.
  - reflexivity.
Defined.

(** X16: an id that no configured symbol has is translated to
    [UNKNOWN_] followed by the id. *)
Theorem lookup_unconfigured_vendor_id (file : ConfigFile) (id : PyVal) :
  NoDup (od_keys (symbol_mapping (load_symbol_mapping file))) →
  (∀ S entry, get_symbol_mapping (load_symbol_mapping file) S = Some entry →
              od_get "cTraderId" entry ≠ Some id) →
  lookup_mt5_symbol (load_symbol_mapping file) id =
    PStr ("UNKNOWN_" +:+ str_PyVal id).
Proof.
  unfold load_symbol_mapping, lookup_mt5_symbol, get_symbol_mapping.
  destruct file as [[config|]|]; simpl; try done.
  destruct (build_reverse config []) as [rev|] eqn:Hbuild; simpl; [|done].
  intros Hnd Hnone.
  rewrite (build_reverse_other _ _ _ id Hbuild); [done|].
  intros S e Hin. apply (Hnone S e). by apply In_od_get.
Qed.

Lemma lookup_unconfigured_vendor_id_witness :
  lookup_mt5_symbol (load_symbol_mapping fx_config) (PInt 9) = PStr "UNKNOWN_9".
Proof.
  apply (lookup_unconfigured_vendor_id fx_config (PInt 9)).
  - apply (bool_decide_unpack _). vm_compute. exact I.
  - intros S entry Hg. unfold get_symbol_mapping in Hg. simpl in Hg.
    destruct (decide (S = "EURUSD")); [inversion Hg; subst; discriminate|].
    destruct (decide (S = "GBPUSD")); [inversion Hg; subst; discriminate|].
    discriminate.
Defined.

(** ** Orders: to the vendor and back *)

Lemma map_order_request_Ok m td o :
  map_order_request m td = Ok o →
  ∃ S entry id,
    td_symbol td = Bound S ∧ get_symbol_mapping m S = Some entry ∧
    od_get "cTraderId" entry = Some id ∧
    co_symbolId o = id ∧
    co_orderType o = order_type_map (action_type_of td) ∧
    co_tradeSide o =
      (if str_contains "BUY" (action_type_of td) then "BUY" else "SELL") ∧
    co_limitPrice o =
      (if str_contains "LIMIT" (action_type_of td)
       then entry_of (entry_get (td_openPrice td) 0%Q) else Absent) ∧
    co_stopPrice o =
      (if str_contains "LIMIT" (action_type_of td) then Absent
       else if str_contains "STOP" (action_type_of td)
            then entry_of (entry_get (td_openPrice td) 0%Q) else Absent) ∧
    co_stopLoss o =
      (if truthy_Q (entry_value (td_stopLoss td))
       then entry_value (td_stopLoss td) else None) ∧
    co_takeProfit o =
      (if truthy_Q (entry_value (td_takeProfit td))
       then entry_value (td_takeProfit td) else None).
Proof.
  unfold map_order_request, get_symbol_mapping, action_type_of, find_symbol.
  destruct (td_symbol td) as [| |S]; [done|done|]. simpl.
  destruct (od_get S (symbol_mapping m)) as [[|kv entry]|] eqn:Hg; try done.
  remember (kv :: entry) as ent eqn:Hent. clear Hent.
  destruct (entry_get (td_volume td) (NInt 0)) as [lots|]; [|done].
  destruct (py_int (mul_100 lots)) as [volume|e]; [|done].
  destruct (td_actionType td) as [| |a]; simpl; [|done|].
  all: destruct (od_get "cTraderId" ent) as [id|] eqn:Hid; [|done].
  all: intros Heq; inversion Heq; subst; clear Heq; simpl.
  all: exists S, ent, id; split_and!; auto.
Qed.

(** The volume of an accepted order, its label and its comment. *)
Lemma map_order_request_volume m td o :
  map_order_request m td = Ok o →
  (∃ lots, entry_get (td_volume td) (NInt 0) = Some lots ∧
           py_int (mul_100 lots) = Ok (co_volume o)) ∧
  td_actionType td ≠ IsNone ∧
  co_label o = entry_get (td_clientId td) "" ∧
  co_comment o = entry_get (td_comment td) "".
Proof.
  unfold map_order_request, find_symbol.
  destruct (td_symbol td) as [| |S]; [done|done|]. simpl.
  destruct (od_get S (symbol_mapping m)) as [[|kv entry]|]; try done.
  remember (kv :: entry) as ent eqn:Hent. clear Hent.
  destruct (entry_get (td_volume td) (NInt 0)) as [lots|]; [|done].
  destruct (py_int (mul_100 lots)) as [volume|e] eqn:Hint; [|done].
  destruct (td_actionType td) as [| |a]; simpl; [|done|].
  all: destruct (od_get "cTraderId" ent) as [id|]; [|done].
  all: intros Heq; inversion Heq; subst; clear Heq; simpl.
  all: split_and!; eauto.
Qed.

Lemma order_type_map_cases a :
  (In a known_action_types ∧
   order_type_map a =
     (if str_contains "LIMIT" a then 2 else if str_contains "STOP" a then 3 else 1)) ∨
  (¬ In a known_action_types ∧ order_type_map a = 1).
Proof.
  unfold order_type_map, known_action_types.
  repeat match goal with
  | |- context [String.eqb a ?lit] =>
      destruct (String.eqb_spec a lit) as [->|?];
        [left; split; [simpl; tauto | reflexivity]|]
  end.
  right. split; [|done]. simpl. intros H. repeat destruct H as [H|H]; congruence.
Qed.

(** X17: an order that [map_order_request] accepts is a BUY or a SELL of
    type 1, 2 or 3; it is a SELL whenever the action type does not
    contain [BUY], in particular for an action type that the table does
    not know, which becomes a market order (type 1); it never carries
    both a limit and a stop price; a type-2 order carries a limit price
    and a type-3 order a stop price; and a stop loss or take profit of
    zero is left out. *)
Theorem map_order_request_shape m td o :
  map_order_request m td = Ok o →
  (co_tradeSide o = "BUY" ∨ co_tradeSide o = "SELL") ∧
  (co_orderType o = 1 ∨ co_orderType o = 2 ∨ co_orderType o = 3) ∧
  (str_contains "BUY" (action_type_of td) = false → co_tradeSide o = "SELL") ∧
  (¬ In (action_type_of td) known_action_types → co_orderType o = 1) ∧
  (co_limitPrice o = Absent ∨ co_stopPrice o = Absent) ∧
  (co_orderType o = 2 → co_limitPrice o ≠ Absent) ∧
  (co_orderType o = 3 → co_stopPrice o ≠ Absent) ∧
  (∀ q, co_stopLoss o = Some q → ¬ (q == 0)%Q) ∧
  (∀ q, co_takeProfit o = Some q → ¬ (q == 0)%Q).
Proof.
  intros Hok.
  destruct (map_order_request_Ok _ _ _ Hok)
    as (S & entry & id & _ & _ & _ & _ & Htype & Hside & Hlim & Hstop & Hsl & Htp).
  rewrite Htype, Hside, Hlim, Hstop, Hsl, Htp.
  assert (∀ x q, (if truthy_Q x then x else None) = Some q → ¬ (q == 0)%Q) as Hnz.
  { intros [x|] q; simpl; [|done]. destruct (Qeq_bool x 0) eqn:Hx; simpl; [done|].
    intros Heq Hq. inversion Heq; subst. apply Qeq_bool_neq in Hx. done. }
  split_and!; eauto.
  - destruct (str_contains "BUY" _); auto.
  - destruct (order_type_map_cases (action_type_of td)) as [[_ ->]|[_ ->]]; [|auto].
    destruct (str_contains "LIMIT" _); [auto|]. destruct (str_contains "STOP" _); auto.
  - by intros ->.
  - intros Hunknown.
    by destruct (order_type_map_cases (action_type_of td)) as [[? _]|[_ ->]].
  - destruct (str_contains "LIMIT" _); auto.
  - destruct (order_type_map_cases (action_type_of td)) as [[_ ->]|[_ ->]]; [|done].
    destruct (str_contains "LIMIT" _); [by destruct (entry_get _ _)|].
    destruct (str_contains "STOP" _); done.
  - destruct (order_type_map_cases (action_type_of td)) as [[_ ->]|[_ ->]]; [|done].
    destruct (str_contains "LIMIT" _); [done|].
    destruct (str_contains "STOP" _); [by destruct (entry_get _ _) | done].
Qed.

Lemma map_order_request_shape_witness :
  ∃ o,
    map_order_request (load_symbol_mapping fx_config)
      {| td_symbol := Bound "EURUSD"; td_actionType := Bound "CLOSE_ALL";
         td_volume := Bound (NFloat 1); td_openPrice := Absent;
         td_stopLoss := Bound 0%Q; td_takeProfit := IsNone;
         td_comment := Absent; td_clientId := Absent |} = Ok o ∧
    co_tradeSide o = "SELL" ∧ co_orderType o = 1 ∧ co_stopLoss o = None.
Proof.
  eexists. split; [vm_compute; reflexivity|].
  match goal with
  | |- co_tradeSide ?o = _ ∧ _ =>
      pose proof (map_order_request_shape (load_symbol_mapping fx_config)
        {| td_symbol := Bound "EURUSD"; td_actionType := Bound "CLOSE_ALL";
           td_volume := Bound (NFloat 1); td_openPrice := Absent;
           td_stopLoss := Bound 0%Q; td_takeProfit := IsNone;
           td_comment := Absent; td_clientId := Absent |}
        o ltac:(vm_compute; reflexivity)) as (_ & _ & Hside & Htype & _)
  end.
  split; [apply Hside; reflexivity|]. split; [|reflexivity].
  apply Htype. unfold known_action_types, action_type_of. simpl.
  intros H. repeat destruct H as [H|H]; try discriminate. done.
Defined.

Lemma int_of_str_letter s : starts_with_letter s = true → int_of_str s = None.
Proof.
  destruct s as [|a rest]; [done|]. unfold starts_with_letter, int_of_str.
  intros Ha.
  assert (NilZero.int_of_string (String a rest) = None) as ->; [|done].
  unfold NilZero.int_of_string, NilZero.uint_of_string.
  destruct a as [[] [] [] [] [] [] [] []]; try discriminate Ha;
    simpl; destruct (NilEmpty.uint_of_string rest); reflexivity.
Qed.

Lemma starts_with_letter_nonempty s : starts_with_letter s = true → s ≠ "".
Proof. by destruct s. Qed.

Lemma map_order_type m vo w mo w' :
  map_order m vo w = (Ok mo, w') →
  mo_type mo =
    (if String.eqb (default "BUY" (vo_tradeSide vo)) "SELL"
     then str_replace "BUY" "SELL" (order_type_name (default 1 (vo_orderType vo)))
     else order_type_name (default 1 (vo_orderType vo))) ∧
  mo_openPrice mo =
    Q_or (default 0%Q (vo_limitPrice vo)) (default 0%Q (vo_stopPrice vo)) ∧
  mo_clientId mo = default "" (vo_label vo).
Proof.
  unfold map_order. destruct (vo_symbolId vo); [|done].
  match goal with
  | |- context [match ?x with Some magic => _ | None => _ end] => destruct x
  end; [|done].
  unfold bind, time_text.
  destruct (vo_utcLastUpdateTimestamp vo) as [ms1|],
           (vo_utcTimestamp vo) as [ms2|];
    unfold bind, now, ret; simpl;
    repeat match goal with
    | |- context [fromtimestamp ?w0 ?ms] => destruct (fromtimestamp w0 ms)
    end;
    intros Heq; inversion Heq; subst; done.
Qed.

Lemma map_order_returns m vo id magic w :
  vo_symbolId vo = Some id →
  match vo_label vo with
  | None => Some 0
  | Some label => if String.eqb label "" then Some 0 else int_of_str label
  end = Some magic →
  (∀ ms, vo_utcLastUpdateTimestamp vo = Some ms → fromtimestamp w ms = None) →
  (∀ ms, vo_utcTimestamp vo = Some ms → fromtimestamp w ms = None) →
  ∃ mo w', map_order m vo w = (Ok mo, w') ∧ mo_magic mo = magic ∧
           pool w' = pool w ∧ trace w' = trace w.
Proof.
  intros Hid Hmagic Hup Hopen. unfold map_order. rewrite Hid, Hmagic.
  unfold bind, time_text.
  destruct (vo_utcLastUpdateTimestamp vo) as [ms1|],
           (vo_utcTimestamp vo) as [ms2|];
    unfold bind, now, ret; simpl;
    rewrite ?(Hup _ eq_refl), ?(Hopen _ eq_refl); simpl;
    rewrite ?(Hopen _ eq_refl);
    eexists _, _; split; try reflexivity; done.
Qed.

(** A timestamp that the platform does not accept makes [map_order]
    raise what [datetime.fromtimestamp] raises. *)
Lemma map_order_bad_timestamp m vo id magic ms e w :
  vo_symbolId vo = Some id →
  match vo_label vo with
  | None => Some 0
  | Some label => if String.eqb label "" then Some 0 else int_of_str label
  end = Some magic →
  vo_utcLastUpdateTimestamp vo = Some ms →
  fromtimestamp w ms = Some e →
  map_order m vo w = (Raise e, w).
Proof.
  intros Hid Hmagic Hup Hbad. unfold map_order. rewrite Hid, Hmagic, Hup.
  unfold bind, time_text. by rewrite Hbad.
Qed.

(** X18: an order goes to the vendor and comes back with its type.  For
    each of the six action types of the table, when the vendor reports
    the order with the symbol id, order type, trade side, label and
    prices that [map_order_request] produced, the client id was absent,
    empty or a number, and the timestamps of the report, where it has
    them, are ones that [datetime.fromtimestamp] accepts on the platform,
    [map_order] returns, and the order it returns has the action type
    that was requested, the client id that was given, and as open price
    the requested price for a limit or stop order and 0 for a market
    order.  With an update timestamp that the platform does not accept,
    [map_order] raises the exception of [datetime.fromtimestamp]
    instead. *)
Theorem order_type_round_trip m td o vo w :
  map_order_request m td = Ok o →
  In (action_type_of td) known_action_types →
  td_clientId td ≠ IsNone →
  (∀ c, td_clientId td = Bound c → c = "" ∨ int_of_str c ≠ None) →
  vo_symbolId vo = Some (co_symbolId o) →
  vo_orderType vo = Some (co_orderType o) →
  vo_tradeSide vo = Some (co_tradeSide o) →
  vo_label vo = co_label o →
  vo_limitPrice vo = entry_value (co_limitPrice o) →
  vo_stopPrice vo = entry_value (co_stopPrice o) →
  ((∀ ms, vo_utcLastUpdateTimestamp vo = Some ms → fromtimestamp w ms = None) →
   (∀ ms, vo_utcTimestamp vo = Some ms → fromtimestamp w ms = None) →
   ∃ mo w',
     map_order m vo w = (Ok mo, w') ∧
     mo_type mo = action_type_of td ∧
     mo_clientId mo = default "" (entry_value (td_clientId td)) ∧
     (mo_openPrice mo ==
        if co_orderType o =? 1 then 0
        else default 0 (entry_value (td_openPrice td)))%Q) ∧
  (∀ ms e, vo_utcLastUpdateTimestamp vo = Some ms → fromtimestamp w ms = Some e →
           map_order m vo w = (Raise e, w)).
Proof.
  intros Hok Hknown Hnn Hcid Hsym Htype Hside Hlabel Hlim Hstop.
  destruct (map_order_request_volume _ _ _ Hok) as (_ & _ & Hl & _).
  destruct (map_order_request_Ok _ _ _ Hok)
    as (S & entry & id & _ & _ & _ & _ & Hty & Hsd & Hlm & Hst & _).
  assert (∃ magic,
    match vo_label vo with
    | None => Some 0
    | Some label => if String.eqb label "" then Some 0 else int_of_str label
    end = Some magic) as [magic Hmagic].
  { rewrite Hlabel, Hl. destruct (td_clientId td) as [| |c] eqn:Hc; simpl;
      [by eexists | done |].
    destruct (String.eqb_spec c ""); [by eexists|].
    destruct (Hcid c eq_refl) as [?|Hn]; [done|].
    destruct (int_of_str c); [by eexists|done]. }
  split; [|intros ms e Hup Hbad; by eapply map_order_bad_timestamp].
  intros Hup Hopen.
  destruct (map_order_returns m vo _ magic w Hsym Hmagic Hup Hopen)
    as (mo & w' & Hrun & _).
  exists mo, w'. split; [done|].
  destruct (map_order_type _ _ _ _ _ Hrun) as (Hmt & Hop & Hmc).
  rewrite Hmt, Hop, Hmc, Htype, Hside, Hlabel, Hlim, Hstop, Hty, Hsd, Hlm, Hst, Hl.
  simpl. split; [|split].
  - unfold known_action_types in Hknown. simpl in Hknown.
    destruct Hknown as [<-|[<-|[<-|[<-|[<-|[<-|[]]]]]]]; vm_compute; reflexivity.
  - by destruct (td_clientId td).
  - unfold known_action_types in Hknown. simpl in Hknown.
    unfold Q_or.
    destruct Hknown as [<-|[<-|[<-|[<-|[<-|[<-|[]]]]]]]; simpl;
      try reflexivity;
      destruct (td_openPrice td) as [| |q]; simpl; try reflexivity;
      destruct (Qeq_bool q 0) eqn:Hz;
      try reflexivity; apply Qeq_bool_eq in Hz; by rewrite Hz.
Qed.

Lemma order_type_round_trip_witness :
  ∃ o mo w',
    map_order_request (load_symbol_mapping fx_config)
      {| td_symbol := Bound "EURUSD"; td_actionType := Bound "ORDER_TYPE_SELL_LIMIT";
         td_volume := Bound (NFloat 1); td_openPrice := Bound (5 # 4)%Q;
         td_stopLoss := IsNone; td_takeProfit := IsNone; td_comment := Bound "";
         td_clientId := Bound "17" |} = Ok o ∧
    map_order (load_symbol_mapping fx_config)
      {| vo_symbolId := Some (co_symbolId o); vo_volume := Some 100;
         vo_orderType := Some 2; vo_tradeSide := Some "SELL";
         vo_orderId := Some 9; vo_orderStatus := None; vo_label := Some "17";
         vo_limitPrice := Some (5 # 4)%Q; vo_stopPrice := None;
         vo_executionPrice := None; vo_comment := None;
         vo_utcLastUpdateTimestamp := Some 1700000000000; vo_utcTimestamp := None |}
      (init_world true 2 (load_symbol_mapping fx_config) second_clock vendor_ok) = (Ok mo, w') ∧
    mo_type mo = "ORDER_TYPE_SELL_LIMIT" ∧ mo_clientId mo = "17".
Proof.
  eexists.
  match goal with
  | |- ∃ mo w', ?req = Ok ?o ∧ map_order ?m ?vo ?w = _ ∧ _ =>
      destruct (order_type_round_trip m
        {| td_symbol := Bound "EURUSD"; td_actionType := Bound "ORDER_TYPE_SELL_LIMIT";
           td_volume := Bound (NFloat 1); td_openPrice := Bound (5 # 4)%Q;
           td_stopLoss := IsNone; td_takeProfit := IsNone; td_comment := Bound "";
           td_clientId := Bound "17" |} o vo w)
        as [Hgood _]
  end.
  - vm_compute. reflexivity.
  - unfold known_action_types, action_type_of. simpl. tauto.
  - discriminate.
  - simpl. intros c Hc. inversion Hc; subst. right. vm_compute. discriminate.
  - reflexivity.
  - reflexivity.
  - reflexivity.
  - reflexivity.
  - reflexivity.
  - reflexivity.
  - destruct Hgood as (mo & w' & Hrun & Hty & Hcl & _); [reflexivity | done |].
    exists mo, w'. split; [vm_compute; reflexivity|]. split; [exact Hrun|].
    split; [exact Hty|exact Hcl].
Defined.

(** X19: an order placed with a client id that begins with a letter
    cannot be read back.  [map_order_request] copies the client id into
    the label, and [map_order] takes [int()] of a non-empty label: for
    the order as the vendor reports it, with that label, [map_order]
    raises [ValueError], whatever the other attributes are. *)
Theorem map_order_rejects_text_label m td o vo c w :
  map_order_request m td = Ok o →
  td_clientId td = Bound c →
  starts_with_letter c = true →
  vo_symbolId vo = Some (co_symbolId o) →
  vo_label vo = co_label o →
  map_order m vo w =
    (Raise (ValueError ("invalid literal for int() with base 10: '" +:+ c +:+ "'")), w).
Proof.
  intros Hok Hc Hletter Hsym Hlabel.
  destruct (map_order_request_volume _ _ _ Hok) as (_ & _ & Hl & _).
  rewrite Hc in Hl. simpl in Hl.
  unfold map_order. rewrite Hsym, Hlabel, Hl.
  destruct (String.eqb_spec c "") as [->|_]; [done|].
  rewrite (int_of_str_letter c Hletter). reflexivity.
Qed.

Lemma map_order_rejects_text_label_witness :
  ∃ o,
    map_order_request (load_symbol_mapping fx_config)
      {| td_symbol := Bound "EURUSD"; td_actionType := Absent;
         td_volume := Bound (NFloat 1); td_openPrice := Absent;
         td_stopLoss := IsNone; td_takeProfit := IsNone; td_comment := Bound "";
         td_clientId := Bound "grid-7" |} = Ok o ∧
    map_order (load_symbol_mapping fx_config)
      {| vo_symbolId := Some (co_symbolId o); vo_volume := Some 100;
         vo_orderType := Some 1; vo_tradeSide := Some "BUY";
         vo_orderId := Some 9; vo_orderStatus := None; vo_label := Some "grid-7";
         vo_limitPrice := None; vo_stopPrice := None;
         vo_executionPrice := None; vo_comment := None;
         vo_utcLastUpdateTimestamp := None; vo_utcTimestamp := None |}
      (init_world true 2 (load_symbol_mapping fx_config) second_clock vendor_ok) =
    (Raise (ValueError "invalid literal for int() with base 10: 'grid-7'"),
     init_world true 2 (load_symbol_mapping fx_config) second_clock vendor_ok).
Proof.
  eexists. split; [vm_compute; reflexivity|].
  eapply (map_order_rejects_text_label (load_symbol_mapping fx_config)
    {| td_symbol := Bound "EURUSD"; td_actionType := Absent;
       td_volume := Bound (NFloat 1); td_openPrice := Absent;
       td_stopLoss := IsNone; td_takeProfit := IsNone; td_comment := Bound "";
       td_clientId := Bound "grid-7" |} _ _ "grid-7");
    first [reflexivity | vm_compute; reflexivity].
Defined.

(** ** Trading operations *)

(** X20: the open price and the client id of an order have no influence
    on [execute_trade].  Two orders that agree on symbol, action type,
    volume, stop loss, take profit and comment give the same result and
    leave the same state, request sent to the vendor included: the
    request carries neither the limit price nor the stop price nor the
    label that [map_order_request] computed. *)
Theorem execute_trade_ignores_price account env td td' w :
  td_symbol td = td_symbol td' →
  td_actionType td = td_actionType td' →
  td_volume td = td_volume td' →
  td_stopLoss td = td_stopLoss td' →
  td_takeProfit td = td_takeProfit td' →
  td_comment td = td_comment td' →
  execute_trade account env td w = execute_trade account env td' w.
Proof.
  intros Hsym Hact Hvol Hsl Htp Hcom.
  unfold execute_trade, try_except. f_equal.
  assert (execute_trade_try account env td w = execute_trade_try account env td' w)
    as ->; [|done].
  unfold execute_trade_try, bind.
  destruct (get_connection account env None None w) as [[c|e] w1]; [|done].
  unfold has_api. simpl. destruct (HAS_CTRADER_API w1); simpl.
  - unfold get_pool, lift_res, map_order_request.
    rewrite Hsym, Hact, Hvol, Hsl, Htp, Hcom.
    destruct (td_symbol td') as [| |S]; [done| |];
      (destruct (find_symbol _ _) as [[|kv entry]|]; try done;
       destruct (entry_get (td_volume td') _) as [lots|]; [|done];
       destruct (py_int _) as [volume|e]; [|done];
       destruct (entry_get (td_actionType td') _) as [a|]; [|done];
       destruct (od_get "cTraderId" _); done).
  - by rewrite Hvol.
Qed.

Lemma execute_trade_ignores_price_witness :
  execute_trade "acc" "demo"
    {| td_symbol := Bound "EURUSD"; td_actionType := Bound "ORDER_TYPE_BUY_LIMIT";
       td_volume := Bound (NFloat 1); td_openPrice := Bound (11 # 10)%Q;
       td_stopLoss := IsNone; td_takeProfit := IsNone; td_comment := Bound "";
       td_clientId := Bound "7" |}
    (linked_world (load_symbol_mapping fx_config) second_clock vendor_ok) =
  execute_trade "acc" "demo"
    {| td_symbol := Bound "EURUSD"; td_actionType := Bound "ORDER_TYPE_BUY_LIMIT";
       td_volume := Bound (NFloat 1); td_openPrice := Bound (12 # 10)%Q;
       td_stopLoss := IsNone; td_takeProfit := IsNone; td_comment := Bound "";
       td_clientId := Bound "8" |}
    (linked_world (load_symbol_mapping fx_config) second_clock vendor_ok).
Proof.
  apply execute_trade_ignores_price; reflexivity.
Defined.

Lemma bad_position_id_tail account env pid (mock : M bool)
    (k : Z → Z → Session → M bool) w :
  HAS_CTRADER_API w = true →
  starts_with_letter pid = true →
  ∃ w',
    try_except
      (conn <- get_connection account env None None ;;
       api <- has_api ;;
       if negb api then mock
       else
         ctid <- read_ctid_account_id conn ;;
         pid' <- parse_position_id pid ;;
         k ctid pid' conn)
      (fun e => stat_incr "errors" ;;; ret false) w = (Ok false, w') ∧
    errors_count w' = errors_count w + 1 ∧
    (trace w' = trace w ∨ trace w' = VDisconnect :: trace w) ∧
    _mock_positions (pool w') = _mock_positions (pool w).
Proof.
  intros Hapi Hpid.
  destruct (get_connection_plain account env w)
    as (c & w1 & Hget & (Hapi1 & _) & _ & Htr & Hmock & Hstats).
  unfold try_except, bind. rewrite Hget. unfold has_api. simpl.
  rewrite Hapi1, Hapi. simpl.
  unfold read_ctid_account_id, parse_position_id.
  rewrite (int_of_str_letter pid Hpid).
  eexists. split.
  { destruct (ctid_account_id c); unfold raise, ret, stat_incr, modify_pool; simpl;
      reflexivity. }
  unfold errors_count. simpl. rewrite stat_get_bump_eq, Hstats by done.
  split_and!; done.
Qed.

(** X21: a position id that begins with a letter is turned down before
    anything is asked of the vendor.  With the SDK loaded,
    [modify_position] and [close_position] both return [False] and count
    one error, in every state of the pool; no amend or close request is
    sent (the only request that can appear is the disconnect of a stale
    session that [get_connection] replaces), and the mock positions are
    left as they were. *)
Theorem position_id_not_a_number account env pid sl tp w :
  HAS_CTRADER_API w = true →
  starts_with_letter pid = true →
  ∃ w1 w2,
    modify_position account env pid sl tp w = (Ok false, w1) ∧
    close_position account env pid w = (Ok false, w2) ∧
    errors_count w1 = errors_count w + 1 ∧
    errors_count w2 = errors_count w + 1 ∧
    (trace w1 = trace w ∨ trace w1 = VDisconnect :: trace w) ∧
    (trace w2 = trace w ∨ trace w2 = VDisconnect :: trace w) ∧
    _mock_positions (pool w1) = _mock_positions (pool w) ∧
    _mock_positions (pool w2) = _mock_positions (pool w).
Proof.
  intros Hapi Hpid.
  destruct (bad_position_id_tail account env pid (ret true)
    (fun ctid pid' conn =>
       _ <- read_client_send conn ;;
       _ <- vendor_call (VAmend ctid pid' sl tp) ;;
       ret true) w Hapi Hpid) as (w1 & Hm & He1 & Ht1 & Hk1).
  destruct (bad_position_id_tail account env pid
    (modify_pool (fun p =>
       match _mock_positions p !! account with
       | Some ps =>
           with_mock_positions
             (<[account := List.filter (mock_id_differs pid) ps]>
                (_mock_positions p)) p
       | None => p
       end) ;;; ret true)
    (fun ctid pid' conn =>
       _ <- read_client_send conn ;;
       _ <- vendor_call (VClose ctid pid') ;;
       mutate_conn (conn_key account env) (fun c =>
         set_positions_cache (od_del (PStr pid) (positions_cache c)) c) ;;;
       ret true) w Hapi Hpid) as (w2 & Hc & He2 & Ht2 & Hk2).
  exists w1, w2. split; [exact Hm|]. split; [exact Hc|]. done.
Qed.

Lemma position_id_not_a_number_witness :
  ∃ w1 w2,
    modify_position "acc" "demo" "p-7" (Some 1%Q) None
      (linked_world no_mapping second_clock vendor_ok) = (Ok false, w1) ∧
    close_position "acc" "demo" "p-7"
      (linked_world no_mapping second_clock vendor_ok) = (Ok false, w2) ∧
    trace w1 = trace (linked_world no_mapping second_clock vendor_ok) ∧
    trace w2 = trace (linked_world no_mapping second_clock vendor_ok).
Proof.
  destruct (position_id_not_a_number "acc" "demo" "p-7" (Some 1%Q) None
    (linked_world no_mapping second_clock vendor_ok) eq_refl eq_refl)
    as (w1 & w2 & Hm & Hc & _).
  exists w1, w2. split; [exact Hm|]. split; [exact Hc|].
  vm_compute in Hm. vm_compute in Hc.
  inversion Hm. inversion Hc. split; reflexivity.
Defined.

(** ** Caches of a session on which [ctid_account_id] has been set *)

Lemma get_positions_refresh account env w conn ctid cl resp :
  HAS_CTRADER_API w = true →
  od_get (conn_key account env) (connections (pool w)) = Some conn →
  is_connected conn = true →
  positions_cache conn = [] →
  ctid_account_id conn = Some ctid →
  client conn = Some cl →
  vendor w (length (trace w)) = VOk resp →
  ∃ w',
    get_positions account env w =
      (Ok (map VendorItem
             (od_values (od_of_list (fun pos => PInt (positionId pos)) (position resp)))),
       w') ∧
    od_get (conn_key account env) (connections (pool w')) =
      Some (set_cache_timestamp (Some (clock w (S (ticks w))))
              (set_positions_cache
                 (od_of_list (fun pos => PInt (positionId pos)) (position resp))
                 (set_last_used (clock w (ticks w)) conn))) ∧
    trace w' = VReconcile ctid :: trace w ∧
    ticks w' = S (S (ticks w)) ∧ clock w' = clock w ∧ vendor w' = vendor w ∧
    HAS_CTRADER_API w' = true ∧
    errors_count w' = errors_count w.
Proof.
  intros Hapi Hg Hc Hcache Hctid Hcl Hv.
  unfold get_positions, try_except, bind.
  rewrite (get_connection_reuse _ _ _ _ _ _ Hg Hc). unfold has_api. simpl.
  rewrite Hapi, Hcache. simpl.
  unfold read_ctid_account_id, read_client_send. simpl. rewrite Hctid, Hcl.
  unfold ret, vendor_call. simpl. rewrite Hv. simpl.
  unfold mutate_conn, modify_pool, now. simpl.
  rewrite !od_get_set_eq. simpl. rewrite !od_get_set_eq. simpl.
  eexists. split; [reflexivity|]. simpl.
  rewrite !od_get_set_eq. unfold errors_count. simpl.
  rewrite stat_get_bump_ne by done. done.
Qed.

Lemma get_orders_refresh account env w conn ctid cl resp :
  HAS_CTRADER_API w = true →
  od_get (conn_key account env) (connections (pool w)) = Some conn →
  is_connected conn = true →
  orders_cache conn = [] →
  ctid_account_id conn = Some ctid →
  client conn = Some cl →
  vendor w (length (trace w)) = VOk resp →
  ∃ w',
    get_orders account env w =
      (Ok (od_values (od_of_list (fun o => PInt (orderId o)) (order resp))), w') ∧
    od_get (conn_key account env) (connections (pool w')) =
      Some (set_cache_timestamp (Some (clock w (S (ticks w))))
              (set_orders_cache
                 (od_of_list (fun o => PInt (orderId o)) (order resp))
                 (set_last_used (clock w (ticks w)) conn))) ∧
    trace w' = VReconcile ctid :: trace w ∧
    ticks w' = S (S (ticks w)) ∧ clock w' = clock w ∧ vendor w' = vendor w ∧
    HAS_CTRADER_API w' = true ∧
    errors_count w' = errors_count w.
Proof.
  intros Hapi Hg Hc Hcache Hctid Hcl Hv.
  unfold get_orders, try_except, bind.
  rewrite (get_connection_reuse _ _ _ _ _ _ Hg Hc). unfold has_api. simpl.
  rewrite Hapi, Hcache. simpl.
  unfold read_ctid_account_id, read_client_send. simpl. rewrite Hctid, Hcl.
  unfold ret, vendor_call. simpl. rewrite Hv. simpl.
  unfold mutate_conn, modify_pool, now. simpl.
  rewrite !od_get_set_eq. simpl. rewrite !od_get_set_eq. simpl.
  eexists. split; [reflexivity|]. simpl.
  rewrite !od_get_set_eq. unfold errors_count. simpl.
  rewrite stat_get_bump_ne by done. done.
Qed.

Lemma od_set_nonempty {K V : Type} `{EqDecision K} (k : K) (v : V) d :
  od_set k v d ≠ [].
Proof. destruct d as [|[k' v'] d]; simpl; [done|]. by destruct (decide (k = k')). Qed.

Lemma od_of_list_nonempty {K V : Type} `{EqDecision K} (key : V → K) xs :
  xs ≠ [] → od_of_list key xs ≠ [].
Proof.
  unfold od_of_list. intros Hxs.
  assert (∀ ys d, d ≠ [] → fold_left (fun d x => od_set (key x) x d) ys d ≠ [])
    as Hkeep.
  { induction ys as [|y ys IH]; simpl; [done|]. intros d _. apply IH, od_set_nonempty. }
  destruct xs as [|x xs]; [done|]. simpl. by apply Hkeep.
Qed.

(** X22: on a connected session that has its [ctid_account_id] and a
    client, the positions cache works.  A first query with an empty
    cache sends one reconcile request and returns the vendor's positions,
    one per position id; when that list is not empty, a second query
    whose clock reading is less than one second after the refresh
    returns the same list and sends nothing. *)
Theorem positions_cached_for_one_second account env w conn ctid cl resp :
  HAS_CTRADER_API w = true →
  od_get (conn_key account env) (connections (pool w)) = Some conn →
  is_connected conn = true →
  positions_cache conn = [] →
  ctid_account_id conn = Some ctid →
  client conn = Some cl →
  vendor w (length (trace w)) = VOk resp →
  position resp ≠ [] →
  clock w (3 + ticks w) - clock w (1 + ticks w) < 1000000 →
  ∃ w1 w2,
    get_positions account env w =
      (Ok (map VendorItem
             (od_values (od_of_list (fun pos => PInt (positionId pos)) (position resp)))),
       w1) ∧
    get_positions account env w1 =
      (Ok (map VendorItem
             (od_values (od_of_list (fun pos => PInt (positionId pos)) (position resp)))),
       w2) ∧
    trace w1 = VReconcile ctid :: trace w ∧
    trace w2 = trace w1 ∧
    errors_count w2 = errors_count w.
Proof.
  intros Hapi Hg Hc Hcache Hctid Hcl Hv Hne Hfresh.
  destruct (get_positions_refresh _ _ _ _ _ _ _ Hapi Hg Hc Hcache Hctid Hcl Hv)
    as (w1 & Hrun1 & Hg1 & Htr1 & Htk1 & Hck1 & Hvd1 & Hapi1 & He1).
  destruct (get_positions_cache_hit account env w1 _ (clock w (S (ticks w)))
              Hapi1 Hg1) as (w2 & Hrun2 & Htr2 & He2).
  - simpl. done.
  - simpl. by apply od_of_list_nonempty.
  - done.
  - rewrite Hck1, Htk1. exact Hfresh.
  - exists w1, w2. simpl in Hrun2. split_and!; [done|done|done|done|congruence].
Qed.

Lemma positions_cached_for_one_second_witness :
  ∃ w1 w2,
    get_positions "acc" "demo"
      (linked_world no_mapping tenth_clock one_position_vendor) =
      (Ok [VendorItem position_7], w1) ∧
    get_positions "acc" "demo" w1 = (Ok [VendorItem position_7], w2) ∧
    trace w2 = trace w1.
Proof.
  edestruct (positions_cached_for_one_second "acc" "demo"
    (linked_world no_mapping tenth_clock one_position_vendor))
    as (w1 & w2 & H1 & H2 & _ & Ht & _);
    [reflexivity | vm_compute; reflexivity | reflexivity | reflexivity
    | reflexivity | reflexivity | vm_compute; reflexivity | discriminate
    | vm_compute; reflexivity |].
  exists w1, w2. split; [exact H1|]. split; [exact H2|exact Ht].
Defined.

(** X23: an empty position list is never served from the cache.  On a
    connected session with [ctid_account_id] and a client, when the
    vendor reports no position, the next query sends a reconcile request
    again and returns what the vendor reports then, however short the
    time between the two queries. *)
Theorem empty_positions_never_cached account env w conn ctid cl resp resp' :
  HAS_CTRADER_API w = true →
  od_get (conn_key account env) (connections (pool w)) = Some conn →
  is_connected conn = true →
  positions_cache conn = [] →
  ctid_account_id conn = Some ctid →
  client conn = Some cl →
  vendor w (length (trace w)) = VOk resp →
  position resp = [] →
  vendor w (S (length (trace w))) = VOk resp' →
  ∃ w1 w2,
    get_positions account env w = (Ok [], w1) ∧
    get_positions account env w1 =
      (Ok (map VendorItem
             (od_values (od_of_list (fun pos => PInt (positionId pos)) (position resp')))),
       w2) ∧
    trace w2 = VReconcile ctid :: VReconcile ctid :: trace w.
Proof.
  intros Hapi Hg Hc Hcache Hctid Hcl Hv Hnone Hv'.
  destruct (get_positions_refresh _ _ _ _ _ _ _ Hapi Hg Hc Hcache Hctid Hcl Hv)
    as (w1 & Hrun1 & Hg1 & Htr1 & Htk1 & Hck1 & Hvd1 & Hapi1 & He1).
  rewrite Hnone in Hrun1, Hg1. simpl in Hrun1.
  destruct (get_positions_refresh account env w1 _ ctid cl resp' Hapi1 Hg1)
    as (w2 & Hrun2 & _ & Htr2 & _); try done.
  { rewrite Hvd1, Htr1. exact Hv'. }
  exists w1, w2. split; [done|]. split; [done|]. by rewrite Htr2, Htr1.
Qed.

Lemma empty_positions_never_cached_witness :
  ∃ w1 w2,
    get_positions "acc" "demo" (linked_world no_mapping tenth_clock vendor_ok) =
      (Ok [], w1) ∧
    get_positions "acc" "demo" w1 = (Ok [], w2) ∧
    trace w2 =
      VReconcile 42 :: VReconcile 42
        :: trace (linked_world no_mapping tenth_clock vendor_ok).
Proof.
  edestruct (empty_positions_never_cached "acc" "demo"
    (linked_world no_mapping tenth_clock vendor_ok))
    as (w1 & w2 & H1 & H2 & Ht);
    [reflexivity | vm_compute; reflexivity | reflexivity | reflexivity
    | reflexivity | reflexivity | vm_compute; reflexivity | reflexivity
    | vm_compute; reflexivity |].
  exists w1, w2. split; [exact H1|]. split; [exact H2|exact Ht].
Defined.

(** X24: the three caches of a session share one timestamp.  On a
    connected session with [ctid_account_id] and a client whose orders
    cache is empty and whose positions cache is not, an orders query
    refreshes the orders from the vendor and stamps the session; a
    positions query whose clock reading is less than one second later is
    then answered from the positions cache with no request to the vendor,
    however old that cache is. *)
Theorem orders_refresh_revives_positions account env w conn ctid cl resp :
  HAS_CTRADER_API w = true →
  od_get (conn_key account env) (connections (pool w)) = Some conn →
  is_connected conn = true →
  orders_cache conn = [] →
  positions_cache conn ≠ [] →
  ctid_account_id conn = Some ctid →
  client conn = Some cl →
  vendor w (length (trace w)) = VOk resp →
  clock w (3 + ticks w) - clock w (1 + ticks w) < 1000000 →
  ∃ w1 w2,
    get_orders account env w =
      (Ok (od_values (od_of_list (fun o => PInt (orderId o)) (order resp))), w1) ∧
    get_positions account env w1 =
      (Ok (map VendorItem (od_values (positions_cache conn))), w2) ∧
    trace w1 = VReconcile ctid :: trace w ∧
    trace w2 = trace w1.
Proof.
  intros Hapi Hg Hc Hord Hpos Hctid Hcl Hv Hfresh.
  destruct (get_orders_refresh _ _ _ _ _ _ _ Hapi Hg Hc Hord Hctid Hcl Hv)
    as (w1 & Hrun1 & Hg1 & Htr1 & Htk1 & Hck1 & Hvd1 & Hapi1 & He1).
  destruct (get_positions_cache_hit account env w1 _ (clock w (S (ticks w)))
              Hapi1 Hg1) as (w2 & Hrun2 & Htr2 & He2).
  - simpl. done.
  - simpl. done.
  - done.
  - rewrite Hck1, Htk1. exact Hfresh.
  - exists w1, w2. simpl in Hrun2. done.
Qed.

Lemma orders_refresh_revives_positions_witness :
  ∃ w1 w2,
    get_orders "acc" "demo"
      (snd (get_positions "acc" "demo"
              (linked_world no_mapping stale_clock stale_vendor))) =
      (Ok [order_1], w1) ∧
    get_positions "acc" "demo" w1 = (Ok [VendorItem position_7], w2) ∧
    trace w2 = trace w1.
Proof.
  edestruct (orders_refresh_revives_positions "acc" "demo"
    (snd (get_positions "acc" "demo"
            (linked_world no_mapping stale_clock stale_vendor))))
    as (w1 & w2 & H1 & H2 & _ & Ht);
    [reflexivity | vm_compute; reflexivity | reflexivity | reflexivity
    | vm_compute; discriminate | reflexivity | reflexivity
    | vm_compute; reflexivity | vm_compute; reflexivity |].
  exists w1, w2. split; [exact H1|]. split; [exact H2|exact Ht].
Defined.




(** X26: without the vendor SDK the trading operations answer on their
    own.  In every state of the pool [execute_trade] reports success
    with the requested volume as executed volume and counts one trade,
    for any order whatever, [modify_position] returns [True] and
    [get_orders] returns the empty list; none of them counts an error,
    and none sends a request to the vendor other than the disconnect of
    a stale session that [get_connection] replaces. *)
Theorem mock_mode_trading account env td pid sl tp w :
  HAS_CTRADER_API w = false →
  ∃ r w1 w2 w3,
    execute_trade account env td w = (Ok r, w1) ∧
    tr_success r = true ∧
    tr_executedVolume r = Some (Requested (entry_get (td_volume td) (NInt 0))) ∧
    trades_count w1 = trades_count w + 1 ∧
    modify_position account env pid sl tp w = (Ok true, w2) ∧
    get_orders account env w = (Ok [], w3) ∧
    errors_count w1 = errors_count w ∧
    errors_count w2 = errors_count w ∧
    errors_count w3 = errors_count w ∧
    (∀ w', w' = w1 ∨ w' = w2 ∨ w' = w3 →
       trace w' = trace w ∨ trace w' = VDisconnect :: trace w).
Proof.
  intros Hapi.
  destruct (get_connection_plain account env w)
    as (c & w0 & Hget & (Hapi0 & _) & _ & Htr & _ & Hstats).
  unfold execute_trade, execute_trade_try, modify_position, modify_position_try,
    get_orders, try_except, bind.
  rewrite Hget. unfold has_api. simpl. rewrite Hapi0, Hapi. simpl.
  unfold ret. eexists _, _, _, _.
  split; [reflexivity|]. simpl. split; [done|]. split; [done|].
  unfold trades_count, errors_count. simpl.
  rewrite stat_get_bump_eq, stat_get_bump_ne, !Hstats by done.
  split_and!; try done.
  intros w' [-> | [-> | ->]]; simpl; done.
Qed.

Lemma mock_mode_trading_witness :
  ∃ r w1 w2 w3,
    execute_trade "acc" "demo" (order_for "NOSUCH")
      (init_world false 2 no_mapping second_clock vendor_down) = (Ok r, w1) ∧
    tr_success r = true ∧
    modify_position "acc" "demo" "p-7" None None
      (init_world false 2 no_mapping second_clock vendor_down) = (Ok true, w2) ∧
    get_orders "acc" "demo"
      (init_world false 2 no_mapping second_clock vendor_down) = (Ok [], w3).
Proof.
  destruct (mock_mode_trading "acc" "demo" (order_for "NOSUCH") "p-7" None None
    (init_world false 2 no_mapping second_clock vendor_down) eq_refl)
    as (r & w1 & w2 & w3 & H1 & Hs & _ & _ & H2 & H3 & _).
  exists r, w1, w2, w3. split; [exact H1|]. split; [exact Hs|].
  split; [exact H2|exact H3].
Defined.
